(** * JSON FortuneSheet Editor: the shape, flatten and unflatten engine

    A shallow embedding of the three source files that carry the editor's
    data logic:

    - [json-sheet-rules.js]: the shape detector and the two flatteners;
    - [extension.js], as [README.md] carries it: the grid builder
      ([toSheetPayloadFromContent] and the [createSheet...] family) and
      the CSV reader [parseCsv];
    - [webview-src/main.jsx]: the serializer [sheetToText] with the cast
      engine [castWithType].

    JavaScript strings are modelled by [string], read as the bytes of the
    UTF-8 encoding: every delimiter the code looks for is ASCII, and
    [trim] strips the ECMAScript white space and line terminators in
    their encoded form.  JavaScript numbers are IEEE-754 doubles, modelled
    by [spec_float] with correctly rounded decimal reading and
    shortest-digits printing.  Objects are association lists in property
    order; the type-hint dictionary is a [gmap]. *)

From Stdlib Require Import ZArith String Ascii List Bool Lia DecimalString.
From Stdlib Require Import Floats.SpecFloat.
From Stdlib Require DecimalNat DecimalFacts.
From stdpp Require Import gmap strings list fin_maps.

Open Scope string_scope.
Open Scope list_scope.
Open Scope nat_scope.

Set Warnings "-register-all".

(** ** String builtins of the host language *)

Module JsString.

Definition code (c : ascii) : nat := nat_of_ascii c.

Definition ofCodes (l : list nat) : string :=
  fold_right (fun n s => String (ascii_of_nat n) s) "" l.

Definition dquote : string := ofCodes [34].
Definition squote : string := ofCodes [39].
Definition LF : string := ofCodes [10].

(** White space and line terminators of one byte: TAB, LF, VT, FF, CR, SP. *)
Definition isWs1 (a : ascii) : bool :=
  let n := code a in ((9 <=? n) && (n <=? 13)) || (n =? 32).

(** U+00A0. *)
Definition isWs2 (a b : ascii) : bool :=
  (code a =? 194) && (code b =? 160).

(** U+1680, U+2000..U+200A, U+2028, U+2029, U+202F, U+205F, U+3000, U+FEFF. *)
Definition isWs3 (a b c : ascii) : bool :=
  let x := code a in let y := code b in let z := code c in
  ((x =? 225) && (y =? 154) && (z =? 128))
  || ((x =? 226) && (y =? 128)
      && (((128 <=? z) && (z <=? 138)) || (z =? 168) || (z =? 169) || (z =? 175)))
  || ((x =? 226) && (y =? 129) && (z =? 159))
  || ((x =? 227) && (y =? 128) && (z =? 128))
  || ((x =? 239) && (y =? 187) && (z =? 191)).

(** One white-space character taken off the front, if there is one. *)
Definition stripWs (s : string) : option string :=
  match s with
  | "" => None
  | String a r =>
      if isWs1 a then Some r
      else match r with
           | "" => None
           | String b r2 =>
               if isWs2 a b then Some r2
               else match r2 with
                    | "" => None
                    | String c r3 => if isWs3 a b c then Some r3 else None
                    end
           end
  end.

Fixpoint trimStartFuel (fuel : nat) (s : string) : string :=
  match fuel with
  | 0 => s
  | S fuel' =>
      match stripWs s with
      | Some r => trimStartFuel fuel' r
      | None => s
      end
  end.

Definition trimStart (s : string) : string := trimStartFuel (String.length s) s.

(** The string is made of white space only. *)
Definition isBlank (s : string) : bool := String.eqb (trimStart s) "".

Fixpoint trimEnd (s : string) : string :=
  match s with
  | "" => ""
  | String c r => if isBlank s then "" else String c (trimEnd r)
  end.

(** [String.prototype.trim]. *)
Definition trim (s : string) : string := trimEnd (trimStart s).

Definition lowerAscii (c : ascii) : ascii :=
  let n := code c in
  if (65 <=? n) && (n <=? 90) then ascii_of_nat (n + 32) else c.

Fixpoint toLowerAscii (s : string) : string :=
  match s with
  | "" => ""
  | String c r => String (lowerAscii c) (toLowerAscii r)
  end.

(** [/^word$/i.test(s)] for a lower-case ASCII [word]. *)
Definition matchesWordI (word s : string) : bool :=
  String.eqb (toLowerAscii s) word.

Definition consHead (c : ascii) (l : list string) : list string :=
  match l with
  | [] => [String c ""]
  | h :: t => String c h :: t
  end.

(** [s.split(sep)] for a one-character separator. *)
Fixpoint split (sep : ascii) (s : string) : list string :=
  match s with
  | "" => [""]
  | String c r =>
      if Ascii.eqb c sep then "" :: split sep r else consHead c (split sep r)
  end.

Definition isLF (c : ascii) : bool := code c =? 10.
Definition isCR (c : ascii) : bool := code c =? 13.

(** [text.split(/\r?\n/)]. *)
Fixpoint splitLines (s : string) : list string :=
  match s with
  | "" => [""]
  | String c r =>
      if isLF c then "" :: splitLines r
      else match r with
           | String d r' =>
               if isCR c && isLF d then "" :: splitLines r'
               else consHead c (splitLines r)
           | "" => [String c ""]
           end
  end.

(** [parts.join(sep)]. *)
Definition join (sep : string) (parts : list string) : string :=
  String.concat sep parts.

Fixpoint containsChar (p : ascii -> bool) (s : string) : bool :=
  match s with
  | "" => false
  | String c r => p c || containsChar p r
  end.

(** Every double quote doubled: the [replace] call of [escapeCsv]. *)
Fixpoint doubleQuotes (s : string) : string :=
  match s with
  | "" => ""
  | String c r =>
      if code c =? 34 then dquote +:+ dquote +:+ doubleQuotes r
      else String c (doubleQuotes r)
  end.

(** [String(n)] for a non-negative integer [n], as in a template literal. *)
Definition ofNat (n : nat) : string :=
  DecimalString.NilZero.string_of_uint (Nat.to_uint n).

(** [s.endsWith(suffix)]. *)
Fixpoint endsWith (suffix s : string) : bool :=
  String.eqb s suffix
  || match s with
     | "" => false
     | String _ r => endsWith suffix r
     end.

End JsString.

(** ** Numbers of the host language

    A number is an IEEE-754 binary64 value.  [Number] is the string to
    number conversion the cast engine calls, [toString] the conversion
    back that [String(n)] and [JSON.stringify] use. *)

Module JsNumber.
Import JsString.

Definition number : Set := spec_float.

Definition prec : Z := 53.
Definition emax : Z := 1024.

Definition NaN : number := S754_nan.

(** [Number.isFinite]. *)
Definition isFinite (x : number) : bool :=
  match x with
  | S754_zero _ | S754_finite _ _ _ => true
  | S754_infinity _ | S754_nan => false
  end.

Definition eqb (x y : number) : bool :=
  match x, y with
  | S754_zero a, S754_zero b => Bool.eqb a b
  | S754_infinity a, S754_infinity b => Bool.eqb a b
  | S754_nan, S754_nan => true
  | S754_finite a m e, S754_finite b m' e' =>
      Bool.eqb a b && Pos.eqb m m' && Z.eqb e e'
  | _, _ => false
  end.

(** The number is [0], [-0] or [NaN]: the falsy numbers. *)
Definition isFalsy (x : number) : bool :=
  match x with
  | S754_zero _ | S754_nan => true
  | _ => false
  end.

(** The double nearest to [num / den], ties to even. *)
Definition ofRatio (neg : bool) (num den : Z) : number :=
  if ((num <=? 0) || (den <=? 0))%Z then S754_zero neg
  else
    let s := Z.max 0 (66 + Z.log2 den - Z.log2 num) in
    let n := Z.shiftl num s in
    let q := (n / den)%Z in
    let r := (n mod den)%Z in
    let loc := if (r =? 0)%Z then loc_Exact else loc_Inexact (2 * r ?= den)%Z in
    binary_round_aux prec emax neg q (- s) loc.

(** The double nearest to [d * 10 ^ e10]. *)
Definition ofDecimal (neg : bool) (d e10 : Z) : number :=
  if (0 <=? e10)%Z then ofRatio neg (d * 10 ^ e10) 1
  else ofRatio neg d (10 ^ (- e10)).

Definition digitValue (radix : Z) (c : ascii) : option Z :=
  let n := Z.of_nat (code c) in
  let v :=
    if ((48 <=? n) && (n <=? 57))%Z then (n - 48)%Z
    else if ((97 <=? n) && (n <=? 122))%Z then (n - 87)%Z
    else if ((65 <=? n) && (n <=? 90))%Z then (n - 55)%Z
    else radix in
  if (v <? radix)%Z then Some v else None.

(** The longest run of digits at the front of [s]: the value it adds to
    [acc], how many digits were read, and the rest. *)
Fixpoint readDigits (radix : Z) (s : string) (acc : Z) (count : nat)
  : Z * nat * string :=
  match s with
  | "" => (acc, count, s)
  | String c r =>
      match digitValue radix c with
      | Some d => readDigits radix r (radix * acc + d) (S count)
      | None => (acc, count, s)
      end
  end.

Definition readSign (s : string) : bool * string :=
  match s with
  | String c r =>
      if code c =? 45 then (true, r)
      else if code c =? 43 then (false, r)
      else (false, s)
  | "" => (false, s)
  end.

(** The exponent part that must make up all of [s]: nothing, or [e] or [E],
    an optional sign and at least one digit. *)
Definition readExponent (s : string) : option Z :=
  match s with
  | "" => Some 0%Z
  | String c r =>
      if (code c =? 101) || (code c =? 69) then
        let '(neg, r1) := readSign r in
        let '(v, n, rest) := readDigits 10 r1 0 0 in
        if (0 <? n) && String.eqb rest "" then Some (if neg then - v else v)%Z
        else None
      else None
  end.

(** StrDecimalLiteral: sign, then [Infinity] or digits with an optional
    fraction and exponent. *)
Definition decimalLiteral (s : string) : number :=
  let '(neg, r) := readSign s in
  if String.eqb r "Infinity" then S754_infinity neg
  else
    let '(ip, ni, r1) := readDigits 10 r 0 0 in
    let '(fp, nf, r2) :=
      match r1 with
      | String c r' => if code c =? 46 then readDigits 10 r' ip 0 else (ip, 0, r1)
      | "" => (ip, 0, r1)
      end in
    if ni + nf =? 0 then NaN
    else match readExponent r2 with
         | None => NaN
         | Some e => ofDecimal neg fp (e - Z.of_nat nf)
         end.

(** NonDecimalIntegerLiteral: [0x], [0o] or [0b] and digits, no sign. *)
Definition nonDecimalLiteral (s : string) : option number :=
  match s with
  | String z (String p r) =>
      let radix :=
        if code z =? 48 then
          if (code p =? 120) || (code p =? 88) then Some 16%Z
          else if (code p =? 111) || (code p =? 79) then Some 8%Z
          else if (code p =? 98) || (code p =? 66) then Some 2%Z
          else None
        else None in
      match radix with
      | None => None
      | Some b =>
          let '(v, n, rest) := readDigits b r 0 0 in
          Some (if (0 <? n) && String.eqb rest "" then ofRatio false v 1 else NaN)
      end
  | _ => None
  end.

(** [Number(s)] for a string [s]. *)
Definition Number (s : string) : number :=
  let t := trim s in
  if String.eqb t "" then S754_zero false
  else match nonDecimalLiteral t with
       | Some x => x
       | None => decimalLiteral t
       end.

Definition ofZ (z : Z) : string :=
  NilZero.string_of_uint (N.to_uint (Z.to_N z)).

(** Is [num / den < 10 ^ n]? *)
Definition belowPow10 (num den n : Z) : bool :=
  if (0 <=? n)%Z then (num <? den * 10 ^ n)%Z else (num * 10 ^ (- n) <? den)%Z.

Fixpoint decimalExponentFrom (fuel : nat) (num den n : Z) : Z :=
  match fuel with
  | 0 => n
  | S fuel' =>
      if belowPow10 num den n then n
      else decimalExponentFrom fuel' num den (n + 1)
  end.

(** The [n] with [10 ^ (n - 1) <= num / den < 10 ^ n]. *)
Definition decimalExponent (num den : Z) : Z :=
  let b := (Z.log2 num - Z.log2 den - 1)%Z in
  let below :=
    if (0 <=? b)%Z then (b * 30102 / 100000)%Z else (b * 30103 / 100000)%Z in
  decimalExponentFrom 8 num den below.

(** The integer [s] of [k] digits with [s * 10 ^ (n - k)] nearest to
    [num / den] among those that read back as [x], if there is one. *)
Definition digitsOfLength (x : number) (num den n k : Z) : option Z :=
  let p := (n - k)%Z in
  let '(a, b) :=
    if (0 <=? p)%Z then (num, den * 10 ^ p)%Z else (num * 10 ^ (- p), den)%Z in
  let lo := (a / b)%Z in
  let r := (a mod b)%Z in
  let hi := (lo + 1)%Z in
  let okLo := eqb (ofDecimal false lo p) x in
  let okHi := eqb (ofDecimal false hi p) x in
  match okLo, okHi with
  | true, true =>
      match (2 * r ?= b)%Z with
      | Lt => Some lo
      | Gt => Some hi
      | Eq => Some (if Z.even lo then lo else hi)
      end
  | true, false => Some lo
  | false, true => Some hi
  | false, false => None
  end.

Fixpoint shortestFrom (fuel : nat) (x : number) (num den n k : Z) : Z * Z :=
  match fuel with
  | 0 => ((num * 10 ^ 17 / den)%Z, 17%Z)
  | S fuel' =>
      match digitsOfLength x num den n k with
      | Some s => (s, k)
      | None => shortestFrom fuel' x num den n (k + 1)
      end
  end.

Definition zeros (n : Z) : string :=
  ofCodes (replicate (Z.to_nat n) 48).

Definition takeStr (n : Z) (s : string) : string :=
  String.substring 0 (Z.to_nat n) s.

Definition dropStr (n : Z) (s : string) : string :=
  String.substring (Z.to_nat n) (String.length s - Z.to_nat n) s.

(** The decimal layout of Number::toString for digits [ds] ([k] of them)
    and decimal exponent [n]. *)
Definition layout (ds : string) (k n : Z) : string :=
  if ((k <=? n) && (n <=? 21))%Z then ds +:+ zeros (n - k)
  else if ((0 <? n) && (n <=? 21))%Z then takeStr n ds +:+ "." +:+ dropStr n ds
  else if ((-6 <? n) && (n <=? 0))%Z then "0." +:+ zeros (- n) +:+ ds
  else
    let e := (n - 1)%Z in
    let es := (if (e <? 0)%Z then "-" else "+") +:+ ofZ (Z.abs e) in
    if (k =? 1)%Z then ds +:+ "e" +:+ es
    else takeStr 1 ds +:+ "." +:+ dropStr 1 ds +:+ "e" +:+ es.

(** [String(x)] for a number [x]: the shortest digits that read back. *)
Definition toString (x : number) : string :=
  match x with
  | S754_nan => "NaN"
  | S754_zero _ => "0"
  | S754_infinity neg => if neg then "-Infinity" else "Infinity"
  | S754_finite neg m e =>
      let '(num, den) :=
        if (0 <=? e)%Z then (Zpos m * 2 ^ e, 1)%Z else (Zpos m, 2 ^ (- e))%Z in
      let n := decimalExponent num den in
      let '(s, k) := shortestFrom 17 (ofRatio false num den) num den n 1 in
      let '(s, n) := if (s =? 10 ^ k)%Z then (10 ^ (k - 1), n + 1)%Z else (s, n) in
      (if neg then "-" else "") +:+ layout (ofZ s) k n
  end.

End JsNumber.

(** ** JSON values, objects in property order, and [JSON.stringify] *)

Module Json.
Import JsString JsNumber.

Inductive json : Set :=
| JNull
| JBool (b : bool)
| JNum (n : number)
| JStr (s : string)
| JArr (items : list json)
| JObj (props : list (string * json)).

(** [typeof v] restricted to what the code asks of a value. *)
Definition isArray (v : json) : bool :=
  match v with JArr _ => true | _ => false end.

(** ** Objects

    An object is the list of its own enumerable properties, in the order
    [Object.keys] gives them, and [objGet] reads an own property.  The
    members inherited from [Object.prototype] are modelled where the code
    can meet them: in the assignment [objAssign] and in the reads of the
    type map, [hintAt]. *)

Fixpoint objGet (k : string) (o : list (string * json)) : option json :=
  match o with
  | [] => None
  | (k', v) :: o' => if String.eqb k' k then Some v else objGet k o'
  end.

Definition objHas (k : string) (o : list (string * json)) : bool :=
  match objGet k o with Some _ => true | None => false end.

Definition objKeys (o : list (string * json)) : list string := map fst o.
Definition objValues (o : list (string * json)) : list json := map snd o.

(** [delete o[k]]. *)
Definition objDelete (k : string) (o : list (string * json))
  : list (string * json) :=
  filter (fun p => negb (String.eqb (fst p) k)) o.

(** The key is an array index: a canonical decimal below [2^32 - 1].  Such
    keys are enumerated first, in ascending order. *)
Definition arrayIndex (k : string) : option Z :=
  match k with
  | "" => None
  | String c r =>
      let '(v, _, rest) := readDigits 10 k 0 0 in
      if String.eqb rest ""
         && (String.eqb k "0" || negb (code c =? 48))
         && (v <? 4294967295)%Z
      then Some v else None
  end.

(** A new key [k] is enumerated before the existing key [k']. *)
Definition precedes (k k' : string) : bool :=
  match arrayIndex k, arrayIndex k' with
  | Some i, Some j => (i <? j)%Z
  | Some _, None => true
  | None, _ => false
  end.

Fixpoint objInsert (k : string) (v : json) (o : list (string * json))
  : list (string * json) :=
  match o with
  | [] => [(k, v)]
  | (k', v') :: o' =>
      if precedes k k' then (k, v) :: o else (k', v') :: objInsert k v o'
  end.

Fixpoint objUpdate (k : string) (v : json) (o : list (string * json))
  : list (string * json) :=
  match o with
  | [] => []
  | (k', v') :: o' =>
      if String.eqb k' k then (k, v) :: o' else (k', v') :: objUpdate k v o'
  end.

(** [o[k] = v]: an existing property keeps its place, a new one is
    created. *)
Definition objSet (k : string) (v : json) (o : list (string * json))
  : list (string * json) :=
  if objHas k o then objUpdate k v o else objInsert k v o.

(** The name of the accessor of the prototype. *)
Definition protoKey : string := "__proto__".

(** [o[k] = v] by assignment.  On an object that does not own a property
    named [__proto__] the assignment to that name runs the setter of the
    prototype and creates no property: a primitive is ignored, an object
    or null becomes the prototype of [o].  What the code finds under
    that name on an object whose prototype it has changed so is not
    followed here: what is stated below of the objects the code builds
    leaves the property named [__proto__] out. *)
Definition objAssign (k : string) (v : json) (o : list (string * json))
  : list (string * json) :=
  if String.eqb k protoKey && negb (objHas k o) then o else objSet k v o.

(** ** [JSON.stringify] *)

Definition hexDigit (n : nat) : nat := if n <? 10 then 48 + n else 87 + n.

Definition escapeChar (c : ascii) : string :=
  let n := code c in
  if n =? 34 then ofCodes [92; 34]
  else if n =? 92 then ofCodes [92; 92]
  else if n =? 8 then ofCodes [92; 98]
  else if n =? 9 then ofCodes [92; 116]
  else if n =? 10 then ofCodes [92; 110]
  else if n =? 12 then ofCodes [92; 102]
  else if n =? 13 then ofCodes [92; 114]
  else if n <? 32 then
    ofCodes [92; 117; 48; 48; hexDigit (n / 16); hexDigit (n mod 16)]
  else String c "".

Fixpoint escapeBody (s : string) : string :=
  match s with
  | "" => ""
  | String c r => escapeChar c +:+ escapeBody r
  end.

(** QuoteJSONString. *)
Definition quote (s : string) : string := dquote +:+ escapeBody s +:+ dquote.

(** [JSON.stringify(v, null, 2)] when [pretty], [JSON.stringify(v)]
    otherwise; [indent] is the current indentation. *)
Fixpoint stringifyAt (pretty : bool) (indent : string) (v : json) : string :=
  let inner := if pretty then indent +:+ "  " else indent in
  let opening := if pretty then LF +:+ inner else "" in
  let sep := if pretty then "," +:+ LF +:+ inner else "," in
  let closing := if pretty then LF +:+ indent else "" in
  match v with
  | JNull => "null"
  | JBool b => if b then "true" else "false"
  | JNum n => if isFinite n then toString n else "null"
  | JStr s => quote s
  | JArr [] => "[]"
  | JArr items =>
      "[" +:+ opening +:+ join sep (map (stringifyAt pretty inner) items)
      +:+ closing +:+ "]"
  | JObj [] => "{}"
  | JObj props =>
      "{" +:+ opening
      +:+ join sep
            (map (fun p => quote (fst p) +:+ (if pretty then ": " else ":")
                           +:+ stringifyAt pretty inner (snd p)) props)
      +:+ closing +:+ "}"
  end.

Definition stringify (v : json) : string := stringifyAt false "" v.
Definition stringifyPretty (v : json) : string := stringifyAt true "" v.

(** [String(v)]. *)
Fixpoint toStr (v : json) : string :=
  match v with
  | JNull => "null"
  | JBool b => if b then "true" else "false"
  | JNum n => toString n
  | JStr s => s
  | JArr items =>
      join "," (map (fun x => match x with JNull => "" | _ => toStr x end) items)
  | JObj _ => "[object Object]"
  end.

(** [Boolean(v)]. *)
Definition truthy (v : json) : bool :=
  match v with
  | JNull => false
  | JBool b => b
  | JNum n => negb (isFalsy n)
  | JStr s => negb (String.eqb s "")
  | JArr _ | JObj _ => true
  end.

End Json.

(** ** json-sheet-rules.js *)

Module Rules.
Import JsString JsNumber Json.

Record rules := {
  optionalArrayWrapperProperty : string;
  allowArrayOfPrimitives : bool
}.

Definition RULES : rules :=
  {| optionalArrayWrapperProperty := "data"; allowArrayOfPrimitives := true |}.

(** [undefined] is a primitive too; a parsed document holds none. *)
Definition isPrimitive (value : json) : bool :=
  match value with
  | JNull | JBool _ | JNum _ | JStr _ => true
  | JArr _ | JObj _ => false
  end.

Definition isPlainObject (value : json) : bool :=
  match value with JObj _ => true | _ => false end.

Definition isArrayOfPrimitives (value : json) : bool :=
  match value with
  | JArr items => forallb isPrimitive items
  | _ => false
  end.

(** What [validateAndExtract] returns when [ok] is true, by [kind]. *)
Inductive extracted : Set :=
| WrappedArray (data : list json) (meta : list (string * json)) (dataProp : string)
| TopArray (data : list json)
| ObjectKV (object : list (string * json))
| ObjectOfObjects (object : list (string * json)).

Inductive validation : Set :=
| Ok (e : extracted)
| NotOk (reason : string).

Definition kind (e : extracted) : string :=
  match e with
  | WrappedArray _ _ _ => "wrappedArray"
  | TopArray _ => "array"
  | ObjectKV _ => "objectKV"
  | ObjectOfObjects _ => "objectOfObjects"
  end.

Definition ok (v : validation) : bool :=
  match v with Ok _ => true | NotOk _ => false end.

Definition unsupportedRootObject : string :=
  "Unsupported JSON root object. Use either (1) key/value pairs with primitive values, or (2) key/object pairs where the inner objects only contain primitive fields.".

Definition unsupportedJson : string :=
  "Unsupported JSON. Expected an array or an object.".

(** [isPlainObject(content) && Array.isArray(content[dataProp])]: the
    object and the array when the test holds. *)
Definition wrapperArray (dataProp : string) (content : json)
  : option (list (string * json) * list json) :=
  match content with
  | JObj o =>
      match objGet dataProp o with
      | Some (JArr data) => Some (o, data)
      | _ => None
      end
  | _ => None
  end.

Definition validateAndExtract (content : json) : validation :=
  let dataProp := optionalArrayWrapperProperty RULES in
  match wrapperArray dataProp content with
  | Some (o, data) => Ok (WrappedArray data (objDelete dataProp o) dataProp)
  | None =>
      match content with
      | JArr data => Ok (TopArray data)
      | JObj o =>
          let values := objValues o in
          let allPrimitivesOrPrimitiveArrays :=
            forallb (fun v => isPrimitive v
                              || (allowArrayOfPrimitives RULES && isArrayOfPrimitives v))
                    values in
          if allPrimitivesOrPrimitiveArrays then Ok (ObjectKV o)
          else
            let allObjects := forallb isPlainObject values in
            if allObjects then Ok (ObjectOfObjects o)
            else NotOk unsupportedRootObject
      | _ => NotOk unsupportedJson
      end
  end.

Inductive flattened : Set :=
| FlatOk (flat : list (string * json))
| FlatErrors (errors : list string).

Definition quoted (s : string) : string := dquote +:+ s +:+ dquote.

Definition unsupportedArrayAt (key : string) : string :=
  "Unsupported array value at " +:+ quoted key
  +:+ ". Only arrays of primitive values are supported.".

Definition nestedObjectAt (key : string) : string :=
  "Nested object at " +:+ quoted key
  +:+ " is not supported in table rows. Flatten it first (e.g. use "
  +:+ quoted (key +:+ ".field") +:+ " columns) or change your JSON shape.".

Definition unsupportedTypeAt (key : string) : string :=
  "Unsupported value type at " +:+ quoted key +:+ ".".

Definition nestedTooDeepAt (fullKey : string) : string :=
  "Nested object too deep at " +:+ quoted fullKey
  +:+ ". Inner objects must be flat.".

Definition mustBeObjectAt (parentKey : string) : string :=
  "Value at " +:+ quoted parentKey +:+ " must be an object.".

(** The body of the [forEach] of [flattenRowObject]: [out] and [errors]
    after the field [key] of [row]. *)
Definition flattenRowField (row : list (string * json))
    (acc : list (string * json) * list string) (key : string)
  : list (string * json) * list string :=
  let '(out, errors) := acc in
  match objGet key row with
  | None => (out, errors)
  | Some value =>
      if isPrimitive value then (objAssign key value out, errors)
      else if isArray value then
        if allowArrayOfPrimitives RULES && isArrayOfPrimitives value
        then (objAssign key (JStr (stringify value)) out, errors)
        else (out, errors ++ [unsupportedArrayAt key])
      else if isPlainObject value then (out, errors ++ [nestedObjectAt key])
      else (out, errors ++ [unsupportedTypeAt key])
  end.

Definition flattenRowObject (row : json) : flattened :=
  match row with
  | JObj o =>
      let '(out, errors) := fold_left (flattenRowField o) (objKeys o) ([], []) in
      match errors with
      | [] => FlatOk out
      | _ => FlatErrors errors
      end
  | _ => FlatErrors ["Each row must be an object."]
  end.

Definition flattenInnerField (inner : list (string * json)) (parentKeyForError : string)
    (acc : list (string * json) * list string) (key : string)
  : list (string * json) * list string :=
  let '(out, errors) := acc in
  let fullKey := parentKeyForError +:+ "." +:+ key in
  match objGet key inner with
  | None => (out, errors)
  | Some value =>
      if isPrimitive value then (objAssign key value out, errors)
      else if isArray value then
        if allowArrayOfPrimitives RULES && isArrayOfPrimitives value
        then (objAssign key (JStr (stringify value)) out, errors)
        else (out, errors ++ [unsupportedArrayAt fullKey])
      else if isPlainObject value then (out, errors ++ [nestedTooDeepAt fullKey])
      else (out, errors ++ [unsupportedTypeAt fullKey])
  end.

Definition flattenInnerObject (inner : json) (parentKeyForError : string)
  : flattened :=
  match inner with
  | JObj o =>
      let '(out, errors) :=
        fold_left (flattenInnerField o parentKeyForError) (objKeys o) ([], []) in
      match errors with
      | [] => FlatOk out
      | _ => FlatErrors errors
      end
  | _ => FlatErrors [mustBeObjectAt parentKeyForError]
  end.

End Rules.

(** ** The grid data shared by the extension host and the webview *)

Module Grid.
Import JsString JsNumber Json.

(** The type tags the code stores in a type map: the four primitive tags
    of [castWithType] and [inferSimpleHint], and the two container tags
    [buildTypeMap] adds. *)
Inductive typeTag : Set := HString | HNumber | HBoolean | HNull | HArray | HObject.

Definition hintName (h : typeTag) : string :=
  match h with
  | HString => "string"
  | HNumber => "number"
  | HBoolean => "boolean"
  | HNull => "null"
  | HArray => "array"
  | HObject => "object"
  end.

Definition hint_eqb (a b : typeTag) : bool :=
  match a, b with
  | HString, HString | HNumber, HNumber | HBoolean, HBoolean
  | HNull, HNull | HArray, HArray | HObject, HObject => true
  | _, _ => false
  end.

(** The [dataKind] tags the payload carries. *)
Inductive dataKind : Set :=
| KArray | KWrappedArray | KObjectOfObjects | KCsv | KXlsx | KObject | KUnsupported.

Definition dataKindName (k : dataKind) : string :=
  match k with
  | KArray => "array"
  | KWrappedArray => "wrappedArray"
  | KObjectOfObjects => "objectOfObjects"
  | KCsv => "csv"
  | KXlsx => "xlsx"
  | KObject => "object"
  | KUnsupported => "unsupported"
  end.

(** An entry of [celldata]: row, column and the cell, an object with the
    raw value [v] and the display text [m]. *)
Record celldatum : Set := { cd_r : nat; cd_c : nat; cd_v : option json }.

(** An array element is [None] where the array has a hole (or holds
    [undefined]); [matrix[r]] and [row[c]] read [undefined] there and past
    the end. *)
Definition slots (A : Type) : Type := list (option A).
Definition matrix : Type := slots (slots json).

Record sheet : Type := {
  sheet_name : option json;
  sheet_order : nat;
  sheet_celldata : option (list celldatum);
  sheet_data : option matrix
}.

Definition at_ {A : Type} (l : slots A) (i : nat) : option A :=
  match l !! i with Some x => x | None => None end.

(** [l[i] = x]: the array grows, leaving holes, when [i] is past its end. *)
Fixpoint setAt {A : Type} (l : slots A) (i : nat) (x : option A) : slots A :=
  match i, l with
  | 0, [] => [x]
  | 0, _ :: t => x :: t
  | S i', [] => None :: setAt [] i' x
  | S i', h :: t => h :: setAt t i' x
  end.

(** [if (!matrix[r]) matrix[r] = []; matrix[r][c] = value]. *)
Definition applyValue (m : matrix) (r c : nat) (value : option json) : matrix :=
  let row := match at_ m r with Some row => row | None => [] end in
  setAt m r (Some (setAt row c value)).

(** A left fold that also passes the index, as [forEach((x, i) => ...)]
    does. *)
Fixpoint foldIndexed {A St : Type} (f : St -> nat -> A -> St) (i : nat)
    (l : list A) (s : St) : St :=
  match l with
  | [] => s
  | x :: l' => foldIndexed f (S i) l' (f s i x)
  end.

(** [l.map((x, i) => f(i, x))], counting from [i]. *)
Fixpoint mapIndexed {A B : Type} (f : nat -> A -> B) (i : nat) (l : list A) : list B :=
  match l with
  | [] => []
  | x :: l' => f i x :: mapIndexed f (S i) l'
  end.

(** The same over an array with holes: [forEach] skips them. *)
Definition foldSlots {A St : Type} (f : St -> nat -> A -> St) (l : slots A)
    (s : St) : St :=
  foldIndexed (fun s i x => match x with Some a => f s i a | None => s end) 0 l s.

End Grid.

(** ** extension.js: the grid builder *)

Module Extension.
Import JsString JsNumber Json Rules Grid.

Definition createCell (r c : nat) (value : option json) : celldatum :=
  let '(display, rawValue) :=
    match value with
    | Some JNull => ("null", JNull)
    | None => ("", JStr "")
    | Some (JArr _ as v) | Some (JObj _ as v) =>
        let display := stringify v in (display, JStr display)
    | Some v => (toStr v, v)
    end in
  {| cd_r := r; cd_c := c;
     cd_v := Some (JObj [("v", rawValue); ("m", JStr display)]) |}.

Definition celldataToMatrixFromCells (cells : list celldatum) : matrix :=
  fold_left (fun m cell => applyValue m (cd_r cell) (cd_c cell) (cd_v cell)) cells [].

Definition sheet1 (celldata : list celldatum) : sheet :=
  {| sheet_name := Some (JStr "Sheet1"); sheet_order := 0;
     sheet_celldata := Some celldata;
     sheet_data := Some (celldataToMatrixFromCells celldata) |}.

(** The cells of one header row. *)
Definition headerCells (headers : list string) : list celldatum :=
  mapIndexed (fun c h => createCell 0 c (Some (JStr h))) 0 headers.

(** [hasOwnProperty(row, key) ? row[key] : ''] *)
Definition ownOrEmpty (o : list (string * json)) (key : string) : json :=
  match objGet key o with Some v => v | None => JStr "" end.

Definition createSheetFromFlatRows (headers : list string)
    (rows : list (list (string * json))) : list sheet :=
  let celldata :=
    headerCells headers
    ++ concat (mapIndexed (fun rowIndex rowObj =>
                             mapIndexed (fun c key =>
                                           createCell (rowIndex + 1) c
                                                      (Some (ownOrEmpty rowObj key)))
                                        0 headers) 0 rows) in
  [sheet1 celldata].

Definition createSheetFromObjectOfObjects (keys fieldHeaders : list string)
    (rows : list (string * list (string * json))) : list sheet :=
  let headers := "key" :: fieldHeaders in
  let celldata :=
    headerCells headers
    ++ concat (mapIndexed (fun idx row =>
                             createCell (idx + 1) 0 (Some (JStr (fst row)))
                             :: mapIndexed (fun cIdx field =>
                                              createCell (idx + 1) (cIdx + 1)
                                                         (Some (ownOrEmpty (snd row) field)))
                                           0 fieldHeaders) 0 rows) in
  [sheet1 celldata].

(** The keys of [flat] not seen yet, appended in order. *)
Definition addHeaders (headers : list string) (keys : list string) : list string :=
  fold_left (fun hs key => if existsb (String.eqb key) hs then hs else hs ++ [key])
            keys headers.

Inductive prepared : Set :=
| Prepared (keys fieldHeaders : list string)
           (rows : list (string * list (string * json)))
| NotPrepared (reason : string).

Fixpoint prepareRows (obj : list (string * json)) (keys : list string)
    (fieldHeaders : list string) (rows : list (string * list (string * json)))
  : (list string * list (string * list (string * json))) + string :=
  match keys with
  | [] => inl (fieldHeaders, rows)
  | k :: keys' =>
      match flattenInnerObject (match objGet k obj with Some v => v | None => JNull end) k with
      | FlatErrors errors => inr (join " " errors)
      | FlatOk flat =>
          prepareRows obj keys' (addHeaders fieldHeaders (objKeys flat))
                      (rows ++ [(k, flat)])
      end
  end.

Definition prepareObjectOfObjects (obj : list (string * json)) : prepared :=
  let keys := objKeys obj in
  match prepareRows obj keys [] [] with
  | inl (fieldHeaders, rows) => Prepared keys fieldHeaders rows
  | inr reason => NotPrepared reason
  end.

Definition inferSimpleHint (value : json) : typeTag :=
  match value with
  | JNull => HNull
  | JNum _ => HNumber
  | JBool _ => HBoolean
  | _ => HString
  end.

Definition csvPath (r c : nat) : string := ofNat r +:+ "," +:+ ofNat c.

(** The cells of one row of [createSheetFromMatrix]: [None] when the row
    is neither falsy nor an array, where [forEach] is not a function. *)
Definition matrixRowValues (row : json) : option (list json) :=
  match row with
  | JArr values => Some values
  | _ => if truthy row then None else Some []
  end.

Definition matrixCell (r : nat) (acc : gmap string typeTag * list celldatum)
    (c : nat) (value : json) : gmap string typeTag * list celldatum :=
  let '(typeMap, celldata) := acc in
  let hint := inferSimpleHint value in
  let cellValue := match value with JNull => JStr "" | _ => value end in
  (<[csvPath r c := hint]> typeMap, celldata ++ [createCell r c (Some cellValue)]).

Fixpoint matrixRows (r : nat) (rows : list json)
    (acc : gmap string typeTag * list celldatum)
  : option (gmap string typeTag * list celldatum) :=
  match rows with
  | [] => Some acc
  | row :: rows' =>
      match matrixRowValues row with
      | None => None
      | Some values => matrixRows (S r) rows' (foldIndexed (matrixCell r) 0 values acc)
      end
  end.

(** [createSheetFromMatrix(matrix, sheetName)]; [None] stands for the
    TypeError the code raises on a matrix that is [undefined], [null], or
    a truthy value that is not an array of rows.  The [row] and [column]
    sizes of the sheet, which only size the widget, are left out. *)
Definition createSheetFromMatrix (matrix : option json) (sheetName : json)
  : option (list sheet * gmap string typeTag) :=
  let rows :=
    match matrix with
    | Some (JArr rows) => Some rows
    | Some JNull | None => None
    | Some m => if truthy m then None else Some []
    end in
  match rows with
  | None => None
  | Some rows =>
      match matrixRows 0 rows (∅, []) with
      | None => None
      | Some (typeMap, celldata) =>
          Some ([ {| sheet_name := Some sheetName; sheet_order := 0;
                     sheet_celldata := Some celldata;
                     sheet_data := Some (celldataToMatrixFromCells celldata) |} ],
                typeMap)
      end
  end.

Definition collectHeaders (arr : list json) : list string :=
  let headers :=
    fold_left (fun hs item =>
                 match item with
                 | JObj o => addHeaders hs (objKeys o)
                 | _ => hs
                 end) arr [] in
  match headers with
  | [] => ["index"; "value"]
  | _ => headers
  end.

Definition createSheetFromArray (arr : list json) : list sheet * dataKind :=
  let headers := collectHeaders arr in
  let celldata :=
    headerCells headers
    ++ concat (mapIndexed (fun rowIndex row =>
                             match row with
                             | JObj o =>
                                 mapIndexed (fun colIndex key =>
                                               createCell (rowIndex + 1) colIndex
                                                          (objGet key o))
                                            0 headers
                             | _ =>
                                 [createCell (rowIndex + 1) 0
                                    (Some (JNum (ofRatio false (Z.of_nat rowIndex) 1)));
                                  createCell (rowIndex + 1) 1 (Some row)]
                             end) 0 arr) in
  ([sheet1 celldata], KArray).

Definition createSheetFromObject (obj : list (string * json)) : list sheet * dataKind :=
  let entries := obj in
  let celldata :=
    concat (mapIndexed (fun rowIndex entry =>
                          [createCell rowIndex 0 (Some (JStr (fst entry)));
                           createCell rowIndex 1 (Some (snd entry))]) 0 entries) in
  let celldata :=
    match entries with
    | [] => celldata ++ [createCell 0 0 (Some (JStr "key"));
                         createCell 0 1 (Some (JStr "value"))]
    | _ => celldata
    end in
  ([sheet1 celldata], KObject).

Definition createSheetsFromJson (json : json) : list sheet * dataKind :=
  match json with
  | JArr arr => createSheetFromArray arr
  | JObj obj => createSheetFromObject obj
  | _ => createSheetFromObject []
  end.

Definition orRoot (pathPrefix : string) : string :=
  if String.eqb pathPrefix "" then "$root" else pathPrefix.

(** [buildTypeMap(value, pathPrefix, typeMap)], returning the map it
    fills. *)
Fixpoint buildTypeMap (value : json) (pathPrefix : string)
    (typeMap : gmap string typeTag) : gmap string typeTag :=
  match value with
  | JNull => <[orRoot pathPrefix := HNull]> typeMap
  | JNum _ => <[orRoot pathPrefix := HNumber]> typeMap
  | JBool _ => <[orRoot pathPrefix := HBoolean]> typeMap
  | JStr _ => <[orRoot pathPrefix := HString]> typeMap
  | JArr items =>
      (fix each (index : nat) (items : list json) (typeMap : gmap string typeTag) :=
         match items with
         | [] => typeMap
         | item :: items' =>
             let nextPrefix := pathPrefix +:+ "[" +:+ ofNat index +:+ "]" in
             each (S index) items' (buildTypeMap item nextPrefix typeMap)
         end) 0 items (<[orRoot pathPrefix := HArray]> typeMap)
  | JObj props =>
      (fix each (props : list (string * json)) (typeMap : gmap string typeTag) :=
         match props with
         | [] => typeMap
         | (key, val) :: props' =>
             let nextPrefix :=
               if String.eqb pathPrefix "" then key
               else pathPrefix +:+ "." +:+ key in
             each props' (buildTypeMap val nextPrefix typeMap)
         end) props (<[orRoot pathPrefix := HObject]> typeMap)
  end.

Record wrapper : Set := { wrapper_meta : list (string * json); wrapper_dataProp : string }.

Record payload : Type := {
  sheets : list sheet;
  typeMap : gmap string typeTag;
  dataKind_ : dataKind;
  wrapper_ : option wrapper;
  error : option string;
  text : option json
}.

(** No caller is left for this one: it is the only user of
    [buildTypeMap]. *)
Definition toSheetPayloadFromObject (obj : json) : payload :=
  let typeMap := buildTypeMap obj "" ∅ in
  let '(sheets, dataKind) := createSheetsFromJson obj in
  {| sheets := sheets; typeMap := typeMap; dataKind_ := dataKind;
     wrapper_ := None; error := None; text := None |}.

Definition unsupported (error : string) (text : string) : payload :=
  {| sheets := []; typeMap := ∅; dataKind_ := KUnsupported; wrapper_ := None;
     error := Some error; text := Some (JStr text) |}.

(** The loop over [inputRows]: the index and errors of the first row that
    does not flatten, or the headers and the flattened rows. *)
Fixpoint flattenRows (i : nat) (inputRows : list json) (headers : list string)
    (flattenedRows : list (list (string * json)))
  : (nat * list string) + (list string * list (list (string * json))) :=
  match inputRows with
  | [] => inr (headers, flattenedRows)
  | row :: rest =>
      match flattenRowObject row with
      | FlatErrors errors => inl (i, errors)
      | FlatOk flat =>
          flattenRows (S i) rest (addHeaders headers (objKeys flat))
                      (flattenedRows ++ [flat])
      end
  end.

Definition dataKindIs (tag : string) (content : json) : bool :=
  match content with
  | JObj o =>
      match objGet "dataKind" o with
      | Some (JStr k) => String.eqb k tag
      | _ => false
      end
  | _ => false
  end.

Definition prop (key : string) (v : json) : option json :=
  match v with
  | JObj o => objGet key o
  | _ => None
  end.

(** The xlsx branch, one sheet after the other; [None] for the TypeError
    on a sheet entry that is [null] or has no matrix. *)
Fixpoint xlsxSheetsFrom (idx : nat) (rawSheets : list json) : option (list sheet) :=
  match rawSheets with
  | [] => Some []
  | s :: rest =>
      match s with
      | JNull => None
      | _ =>
          let name := match prop "name" s with Some n => n | None => JStr "Sheet1" end in
          match createSheetFromMatrix (prop "matrix" s) name with
          | Some (sheetObj :: _, _) =>
              match xlsxSheetsFrom (S idx) rest with
              | Some sheets =>
                  Some ({| sheet_name := sheet_name sheetObj; sheet_order := idx;
                           sheet_celldata := sheet_celldata sheetObj;
                           sheet_data := sheet_data sheetObj |} :: sheets)
              | None => None
              end
          | _ => None
          end
      end
  end.

(** [toSheetPayloadFromContent(content)].  The content is the value
    [openCustomDocument] stored: the parsed JSON document, or the object
    [parseCsv] or the xlsx reader built.  [None] stands for a TypeError of
    [createSheetFromMatrix]. *)
Definition toSheetPayloadFromContent (content : json) : option payload :=
  if dataKindIs "csv" content then
    match createSheetFromMatrix (prop "matrix" content) (JStr "Sheet1") with
    | Some (sheets, typeMap) =>
        Some {| sheets := sheets; typeMap := typeMap; dataKind_ := KCsv;
                wrapper_ := None; error := None; text := prop "text" content |}
    | None => None
    end
  else if dataKindIs "xlsx" content then
    let rawSheets :=
      match prop "sheets" content with
      | Some (JArr l) => l
      | _ =>
          match prop "matrix" content with
          | Some (JArr m) => [JObj [("name", JStr "Sheet1"); ("matrix", JArr m)]]
          | _ => [JObj [("name", JStr "Sheet1"); ("matrix", JArr [JArr []])]]
          end
      end in
    match xlsxSheetsFrom 0 rawSheets with
    | Some sheets =>
        Some {| sheets := sheets; typeMap := ∅; dataKind_ := KXlsx;
                wrapper_ := None; error := None; text := Some (JStr "") |}
    | None => None
    end
  else
    let extracted := validateAndExtract content in
    let text :=
      stringifyPretty (match content with JNull => JObj [] | _ => content end) in
    match extracted with
    | NotOk reason => Some (unsupported reason text)
    | Ok (ObjectKV object) =>
        let '(sheets, dataKind) := createSheetsFromJson (JObj object) in
        Some {| sheets := sheets; typeMap := ∅; dataKind_ := dataKind;
                wrapper_ := None; error := None; text := Some (JStr text) |}
    | Ok (ObjectOfObjects object) =>
        match prepareObjectOfObjects object with
        | NotPrepared reason => Some (unsupported reason text)
        | Prepared keys fieldHeaders rows =>
            Some {| sheets := createSheetFromObjectOfObjects keys fieldHeaders rows;
                    typeMap := ∅; dataKind_ := KObjectOfObjects;
                    wrapper_ := None; error := None; text := Some (JStr text) |}
        end
    | Ok (WrappedArray inputRows _ _ as e) | Ok (TopArray inputRows as e) =>
        match flattenRows 0 inputRows [] [] with
        | inl (i, errors) =>
            Some (unsupported ("Unsupported JSON at row[" +:+ ofNat i +:+ "]: "
                               +:+ join " " errors) text)
        | inr (headers, flattenedRows) =>
            let sheets := createSheetFromFlatRows headers flattenedRows in
            match e with
            | WrappedArray _ meta dataProp =>
                Some {| sheets := sheets; typeMap := ∅; dataKind_ := KWrappedArray;
                        wrapper_ := Some {| wrapper_meta := meta;
                                            wrapper_dataProp := dataProp |};
                        error := None; text := Some (JStr text) |}
            | _ =>
                Some {| sheets := sheets; typeMap := ∅; dataKind_ := KArray;
                        wrapper_ := None; error := None; text := Some (JStr text) |}
            end
        end
    end.

(** [parseCsv(text)]: the rows of trimmed tokens. *)
Definition parseCsvMatrix (text : string) : list (list string) :=
  let lines := splitLines text in
  let kept := mapIndexed (fun idx line => (idx, line)) 0 lines in
  let kept :=
    filter (fun p => negb ((fst p =? length lines - 1)
                           && String.eqb (trim (snd p)) "")) kept in
  map (fun p => map trim (split "," (snd p))) kept.

Definition parseCsv (text : string) : json :=
  JObj [("dataKind", JStr "csv");
        ("matrix", JArr (map (fun row => JArr (map JStr row)) (parseCsvMatrix text)));
        ("text", JStr text)].

(** [detectKind(fsPath)].  [toLowerCase] is modelled by its action on
    ASCII letters: no other character has a lower case among the
    characters of the two suffixes. *)
Inductive fileKind : Set := FCsv | FXlsx | FJson.

Definition detectKind (fsPath : string) : fileKind :=
  let lower := toLowerAscii fsPath in
  if endsWith ".csv" lower then FCsv
  else if endsWith ".xlsx" lower then FXlsx
  else FJson.

(** [a ?? b]. *)
Definition orElse (a : option json) (b : json) : json :=
  match a with
  | Some JNull | None => b
  | Some v => v
  end.

(** One cell of [normalizeMatrixForXlsx]. *)
Definition normalizeCell (cell : json) : json :=
  match cell with
  | JNull => JStr ""
  | JObj o =>
      match objGet "v" o with
      | Some maybeVal =>
          match maybeVal with
          | JObj inner => orElse (objGet "v" inner) (orElse (objGet "m" inner) (JStr ""))
          | JArr _ => JStr ""
          | _ => orElse (Some maybeVal) (JStr "")
          end
      | None =>
          match objGet "m" o with
          | Some m => orElse (Some m) (JStr "")
          | None => JStr ""
          end
      end
  | JArr _ => JStr ""
  | _ => cell
  end.

(** [x || []] followed by [forEach]: the items, or [None] for the
    TypeError on a truthy value that is not an array. *)
Definition itemsOrNone (x : json) : option (list json) :=
  match x with
  | JArr items => Some items
  | _ => if truthy x then None else Some []
  end.

Fixpoint normalizeRows (rows : list json) : option (list json) :=
  match rows with
  | [] => Some []
  | row :: rest =>
      match itemsOrNone row, normalizeRows rest with
      | Some cells, Some out => Some (JArr (map normalizeCell cells) :: out)
      | _, _ => None
      end
  end.

(** [normalizeMatrixForXlsx(matrix)] on a matrix as it comes in a message:
    arrays without holes. *)
Definition normalizeMatrixForXlsx (matrix : json) : option json :=
  match itemsOrNone matrix with
  | Some rows => option_map JArr (normalizeRows rows)
  | None => None
  end.

End Extension.

(** ** webview-src/main.jsx: the cast engine and the serializer *)

Module Webview.
Import JsString JsNumber Json Rules Grid Extension.

(** [cell.v ?? cell] of an entry of [celldata]: the entry itself stands in
    for a missing cell. *)
Definition cellOrEntry (cell : celldatum) : json :=
  match cd_v cell with
  | Some JNull | None =>
      JObj ([("r", JNum (ofRatio false (Z.of_nat (cd_r cell)) 1));
             ("c", JNum (ofRatio false (Z.of_nat (cd_c cell)) 1))]
            ++ match cd_v cell with Some v => [("v", v)] | None => [] end)
  | Some v => v
  end.

Definition celldataToMatrix (s : option sheet) : matrix :=
  match s with
  | None => []
  | Some sheet =>
      let m :=
        match sheet_data sheet with
        | Some ((_ :: _) as data) =>
            foldSlots (fun m r row =>
                         foldSlots (fun m c cell => applyValue m r c (Some cell)) row m)
                      data []
        | _ => []
        end in
      match sheet_celldata sheet with
      | Some celldata =>
          fold_left (fun m cell =>
                       applyValue m (cd_r cell) (cd_c cell) (Some (cellOrEntry cell)))
                    celldata m
      | None => m
      end
  end.

(** [String(x ?? '')] *)
Definition textOr (x : json) : string :=
  match x with JNull => "" | _ => toStr x end.

Definition getCellText (cell : option json) : string :=
  match cell with
  | None => ""
  | Some v =>
      if negb (truthy v) then ""
      else match v with
           | JStr _ | JNum _ | JBool _ => toStr v
           | JObj o =>
               match objGet "m" o with
               | Some m => textOr m
               | None =>
                   match objGet "v" o with
                   | Some x => textOr x
                   | None => ""
                   end
               end
           | _ => ""
           end
  end.

Definition inferType (raw : string) : json * typeTag :=
  if String.eqb raw "" then (JStr "", HString)
  else if matchesWordI "true" raw then (JBool true, HBoolean)
  else if matchesWordI "false" raw then (JBool false, HBoolean)
  else if matchesWordI "null" raw then (JNull, HNull)
  else
    let num := Number raw in
    if isFinite num then (JNum num, HNumber)
    else (JStr raw, HString).

(** [castWithType(raw, hint)], returning [casted] and [type]. *)
Definition castWithType (raw : string) (hint : option typeTag) : json * typeTag :=
  let trimmed := trim raw in
  if String.eqb trimmed (dquote +:+ dquote) || String.eqb trimmed (squote +:+ squote)
  then (JStr "", HString)
  else if String.eqb trimmed "" then (JStr "", HString)
  else
    match hint with
    | None | Some HString => inferType trimmed
    | Some HNumber =>
        let n := Number trimmed in
        if negb (isFinite n) then (JStr trimmed, HString)
        else (JNum n, HNumber)
    | Some HBoolean =>
        if matchesWordI "true" trimmed then (JBool true, HBoolean)
        else if matchesWordI "false" trimmed then (JBool false, HBoolean)
        else (JBool (truthy (JStr trimmed)), HBoolean)
    | Some HNull => (JNull, HNull)
    | Some _ => (JStr trimmed, HString)
    end.

(** The names every plain object inherits from [Object.prototype]. *)
Definition inheritedNames : list string :=
  ["constructor"; "hasOwnProperty"; "isPrototypeOf"; "propertyIsEnumerable";
   "toLocaleString"; "toString"; "valueOf"; "__proto__";
   "__defineGetter__"; "__defineSetter__"; "__lookupGetter__"; "__lookupSetter__"].

Definition inherited (path : string) : bool :=
  existsb (String.eqb path) inheritedNames.

(** [nextTypeMap[path]] as the hint the cast engine is given.  The type
    map is a plain object: where it has no entry of its own under an
    inherited name, the read finds the inherited member, a function (the
    prototype itself for [__proto__]).  The member is truthy and equal to
    no type name, so [castWithType] takes it as it takes ['object']: by
    its last line. *)
Definition hintAt (typeMap : gmap string typeTag) (path : string) : option typeTag :=
  match typeMap !! path with
  | Some h => Some h
  | None => if inherited path then Some HObject else None
  end.

(** The two lines every branch of [sheetToText] runs on a cell:
    [castWithType(raw, nextTypeMap[path])], then
    [nextTypeMap[path] = nextTypeMap[path] || type].  Where the read finds
    an inherited member, the assignment stores the member itself, not a
    type name (and nothing for [__proto__]): the map of type names is
    left as it is, and a later read finds the member again. *)
Definition castCell (raw path : string) (nextTypeMap : gmap string typeTag)
  : json * gmap string typeTag :=
  let '(casted, type) := castWithType raw (hintAt nextTypeMap path) in
  (casted,
   match hintAt nextTypeMap path with
   | Some _ => nextTypeMap
   | None => <[path := type]> nextTypeMap
   end).

Definition nonEmpty (s : string) : bool := negb (String.eqb s "").

(** The walk of [setNestedValue] along the parts.  A part [__proto__]
    that is not the last leads the code out of the row, into the
    prototype all objects share, where what it writes is found by every
    later read of an absent property.  The model does not follow it
    there: every function is taken as called with that prototype as the
    engine provides it, and what is stated of [setNestedValue] and of the
    wrapped array branch leaves such paths out. *)
Fixpoint setNestedParts (parts : list string) (obj : list (string * json))
    (value : json) : list (string * json) :=
  match parts with
  | [] => obj
  | [key] => objAssign key value obj
  | key :: rest =>
      let child :=
        match objGet key obj with
        | Some (JObj o) => o
        | _ => []
        end in
      objSet key (JObj (setNestedParts rest child value)) obj
  end.

(** [setNestedValue(target, dottedPath, value)], returning the target.
    The rows it is called on hold no arrays. *)
Definition setNestedValue (target : list (string * json)) (dottedPath : string)
    (value : json) : list (string * json) :=
  let parts := filter (fun p => nonEmpty p = true) (split "." dottedPath) in
  setNestedParts parts target value.

Definition escapeCsv (value : json) : string :=
  match value with
  | JNull => ""
  | _ =>
      let str := toStr value in
      if containsChar (fun c => (code c =? 34) || (code c =? 44) || (code c =? 10)) str
      then dquote +:+ doubleQuotes str +:+ dquote
      else str
  end.

(** The texts of the header row, empty ones dropped. *)
Definition headerTexts (m : matrix) : list string :=
  let row0 := match at_ m 0 with Some row => row | None => [] end in
  filter (fun value => nonEmpty value = true)
         (omap (fun cell => match cell with
                            | Some c => Some (getCellText (Some c))
                            | None => None
                            end) row0).

Definition rowPath (r : nat) : string := "[" +:+ ofNat (r - 1) +:+ "]".
Definition fieldPath (r : nat) (header : string) : string :=
  rowPath r +:+ "." +:+ header.

Definition rowOf (row : option (slots json)) : slots json :=
  match row with Some row => row | None => [] end.

(** [row[1] ?? row[0]] *)
Definition secondOrFirst (row : slots json) : option json :=
  match at_ row 1 with
  | Some JNull | None => at_ row 0
  | Some v => Some v
  end.

(** The state of the loops of [sheetToText]: the rows pushed so far and
    the type map. *)
Definition arrayField (r : nat) (row : slots json)
    (acc : list (string * json) * bool * gmap string typeTag) (c : nat) (header : string)
  : list (string * json) * bool * gmap string typeTag :=
  let '(rowObj, hasValue, nextTypeMap) := acc in
  let raw := getCellText (at_ row c) in
  let '(casted, nextTypeMap) := castCell raw (fieldPath r header) nextTypeMap in
  if nonEmpty raw then (objAssign header casted rowObj, true, nextTypeMap)
  else (rowObj, hasValue, nextTypeMap).

(** One turn of the row loop of the array branch. *)
Definition arrayRow (scalars : bool) (headers : list string)
    (acc : list json * gmap string typeTag) (r : nat) (row : option (slots json))
  : list json * gmap string typeTag :=
  let '(rows, nextTypeMap) := acc in
  let row := rowOf row in
  if scalars then
    let raw := getCellText (secondOrFirst row) in
    let '(casted, nextTypeMap) := castCell raw (rowPath r) nextTypeMap in
    if nonEmpty raw then (rows ++ [casted], nextTypeMap) else (rows, nextTypeMap)
  else
    let '(rowObj, hasValue, nextTypeMap) :=
      foldIndexed (arrayField r row) 0 headers ([], false, nextTypeMap) in
    if hasValue then (rows ++ [JObj rowObj], nextTypeMap) else (rows, nextTypeMap).

(** [firstElementType && firstElementType !== 'object'] *)
Definition scalarRows (currentTypeMap : gmap string typeTag) : bool :=
  match currentTypeMap !! "[0]" with
  | Some h => negb (hint_eqb h HObject)
  | None => false
  end.

Definition arrayRows (m : matrix) (currentTypeMap : gmap string typeTag)
  : list json * gmap string typeTag :=
  foldIndexed (arrayRow (scalarRows currentTypeMap) (headerTexts m)) 1 (drop 1 m)
              ([], currentTypeMap).

Definition wrappedField (r : nat) (row : slots json)
    (acc : list (string * json) * bool * gmap string typeTag) (c : nat) (header : string)
  : list (string * json) * bool * gmap string typeTag :=
  let '(rowObj, hasValue, nextTypeMap) := acc in
  let raw := getCellText (at_ row c) in
  let '(casted, nextTypeMap) := castCell raw (fieldPath r header) nextTypeMap in
  (setNestedValue rowObj header casted, hasValue || nonEmpty raw, nextTypeMap).

Definition wrappedRow (headers : list string)
    (acc : list json * gmap string typeTag) (r : nat) (row : option (slots json))
  : list json * gmap string typeTag :=
  let '(rows, nextTypeMap) := acc in
  let row := rowOf row in
  let '(rowObj, hasValue, nextTypeMap) :=
    foldIndexed (wrappedField r row) 0 headers ([], false, nextTypeMap) in
  if hasValue then (rows ++ [JObj rowObj], nextTypeMap) else (rows, nextTypeMap).

Definition wrappedRows (m : matrix) (currentTypeMap : gmap string typeTag)
  : list json * gmap string typeTag :=
  foldIndexed (wrappedRow (headerTexts m)) 1 (drop 1 m) ([], currentTypeMap).

(** [{ ...meta, [dataProp]: rows }] *)
Definition wrappedOut (w : option wrapper) (rows : list json) : json :=
  let dataProp :=
    match w with
    | Some w => if nonEmpty (wrapper_dataProp w) then wrapper_dataProp w else "data"
    | None => "data"
    end in
  let meta := match w with Some w => wrapper_meta w | None => [] end in
  JObj (objSet dataProp (JArr rows) meta).

(** The header texts of the objectOfObjects branch, holes kept. *)
Definition allHeaderTexts (m : matrix) : slots string :=
  let row0 := match at_ m 0 with Some row => row | None => [] end in
  map (fun cell => match cell with
                   | Some c => Some (getCellText (Some c))
                   | None => None
                   end) row0.

Fixpoint findIndexFrom {A : Type} (p : A -> bool) (i : nat) (l : list A) : option nat :=
  match l with
  | [] => None
  | x :: l' => if p x then Some i else findIndexFrom p (S i) l'
  end.

Definition isText (s : string) (h : option string) : bool :=
  match h with Some t => String.eqb t s | None => false end.

(** [headers.filter((h, idx) => idx !== keyColIndex && h)] *)
Definition fieldHeadersOf (headers : slots string) (keyColIndex : option nat)
  : list string :=
  omap (fun p => match snd p with
                 | Some h =>
                     if negb (match keyColIndex with
                              | Some k => fst p =? k
                              | None => false
                              end) && nonEmpty h
                     then Some h else None
                 | None => None
                 end)
       (mapIndexed (fun idx h => (idx, h)) 0 headers).

Definition innerField (headers : slots string) (keyColIndex : option nat)
    (key : string) (row : slots json)
    (acc : list (string * json) * gmap string typeTag) (c : nat) (field : string)
  : list (string * json) * gmap string typeTag :=
  let '(inner, nextTypeMap) := acc in
  let cell :=
    match keyColIndex with
    | Some 0 => at_ row (c + 1)
    | _ =>
        match findIndexFrom (isText field) 0 headers with
        | Some cellIndex => at_ row cellIndex
        | None => None
        end
    end in
  let raw := getCellText cell in
  let '(casted, nextTypeMap) := castCell raw (key +:+ "." +:+ field) nextTypeMap in
  (objAssign field casted inner, nextTypeMap).

Definition objectRow (headers : slots string) (keyColIndex : option nat)
    (fieldHeaders : list string)
    (acc : list (string * json) * gmap string typeTag) (r : nat) (row : option (slots json))
  : list (string * json) * gmap string typeTag :=
  let '(out, nextTypeMap) := acc in
  let row := rowOf row in
  let key := getCellText (at_ row (match keyColIndex with Some k => k | None => 0 end)) in
  if nonEmpty key then
    let '(inner, nextTypeMap) :=
      foldIndexed (innerField headers keyColIndex key row) 0 fieldHeaders
                  ([], nextTypeMap) in
    (objAssign key (JObj inner) out, nextTypeMap)
  else (out, nextTypeMap).

Definition objectOfObjectsOut (m : matrix) (currentTypeMap : gmap string typeTag)
  : list (string * json) * gmap string typeTag :=
  let headers := allHeaderTexts m in
  let keyColIndex := findIndexFrom (isText "key") 0 headers in
  let fieldHeaders := fieldHeadersOf headers keyColIndex in
  foldIndexed (objectRow headers keyColIndex fieldHeaders) 1 (drop 1 m)
              ([], currentTypeMap).

(** One cell of the csv branch: [row.map] does not visit a hole, and
    [join] prints it as the empty text. *)
Definition csvCell (r : nat) (acc : list string * gmap string typeTag) (c : nat)
    (cell : option json) : list string * gmap string typeTag :=
  let '(outRow, nextTypeMap) := acc in
  match cell with
  | None => (outRow ++ [""], nextTypeMap)
  | Some v =>
      let raw := getCellText (Some v) in
      let '(casted, nextTypeMap) := castCell raw (csvPath r c) nextTypeMap in
      (outRow ++ [escapeCsv casted], nextTypeMap)
  end.

Definition csvRow (acc : list string * gmap string typeTag) (r : nat)
    (row : option (slots json)) : list string * gmap string typeTag :=
  let '(csvRows, nextTypeMap) := acc in
  let '(outRow, nextTypeMap) :=
    foldIndexed (csvCell r) 0 (rowOf row) ([], nextTypeMap) in
  (csvRows ++ [join "," outRow], nextTypeMap).

Definition csvRows (m : matrix) (currentTypeMap : gmap string typeTag)
  : list string * gmap string typeTag :=
  foldIndexed csvRow 0 m ([], currentTypeMap).

(** One turn of the loop of the last branch, the key/value sheet. *)
Definition keyValueRow (acc : list (string * json) * gmap string typeTag) (r : nat)
    (row : option (slots json)) : list (string * json) * gmap string typeTag :=
  let '(result, nextTypeMap) := acc in
  let key := getCellText (match row with Some row => at_ row 0 | None => None end) in
  if nonEmpty key then
    let rawValue := getCellText (match row with Some row => at_ row 1 | None => None end) in
    let '(casted, nextTypeMap) := castCell rawValue key nextTypeMap in
    (objAssign key casted result, nextTypeMap)
  else (result, nextTypeMap).

Definition keyValueResult (m : matrix) (currentTypeMap : gmap string typeTag)
  : list (string * json) * gmap string typeTag :=
  foldIndexed keyValueRow 0 m ([], currentTypeMap).

Definition xlsxSheetName (idx : nat) (s : sheet) : string :=
  match sheet_name s with
  | Some n => if truthy n then toStr n else "Sheet" +:+ ofNat (idx + 1)
  | None => "Sheet" +:+ ofNat (idx + 1)
  end.

Definition xlsxSheetsOf (sheets : list sheet) : list (string * matrix) :=
  mapIndexed (fun idx s => (xlsxSheetName idx s, celldataToMatrix (Some s))) 0 sheets.

(** The value whose JSON text the xlsx branch compares for changes. *)
Definition xlsxDigest (xlsxSheets : list (string * matrix)) : json :=
  JArr (map (fun s =>
               JObj [("name", JStr (fst s));
                     ("matrix",
                      JArr (map (fun row =>
                                   match row with
                                   | None => JNull
                                   | Some cells =>
                                       JArr (map (fun cell =>
                                                    match cell with
                                                    | None => JNull
                                                    | Some c => JStr (getCellText (Some c))
                                                    end) cells)
                                   end) (snd s)))])
            xlsxSheets).

Record serialized : Type := {
  textOut : string;
  nextTypeMap : gmap string typeTag;
  matrix_ : matrix;
  xlsxSheets : option (list (string * matrix))
}.

Definition sheetToText (sheets : list sheet) (currentTypeMap : gmap string typeTag)
    (dataKind : dataKind) (wrapper : option wrapper) : serialized :=
  let m := celldataToMatrix (head sheets) in
  match dataKind with
  | KArray =>
      let '(rows, nextTypeMap) := arrayRows m currentTypeMap in
      {| textOut := stringifyPretty (JArr rows); nextTypeMap := nextTypeMap;
         matrix_ := m; xlsxSheets := None |}
  | KWrappedArray =>
      let '(rows, nextTypeMap) := wrappedRows m currentTypeMap in
      {| textOut := stringifyPretty (wrappedOut wrapper rows);
         nextTypeMap := nextTypeMap; matrix_ := m; xlsxSheets := None |}
  | KObjectOfObjects =>
      let '(out, nextTypeMap) := objectOfObjectsOut m currentTypeMap in
      {| textOut := stringifyPretty (JObj out); nextTypeMap := nextTypeMap;
         matrix_ := m; xlsxSheets := None |}
  | KCsv =>
      let '(csvRows, nextTypeMap) := csvRows m currentTypeMap in
      {| textOut := join LF csvRows; nextTypeMap := nextTypeMap;
         matrix_ := m; xlsxSheets := None |}
  | KXlsx =>
      let xlsxSheets := xlsxSheetsOf sheets in
      {| textOut := stringify (xlsxDigest xlsxSheets); nextTypeMap := currentTypeMap;
         matrix_ := m; xlsxSheets := Some xlsxSheets |}
  | KObject | KUnsupported =>
      let '(result, nextTypeMap) := keyValueResult m currentTypeMap in
      {| textOut := stringifyPretty (JObj result); nextTypeMap := nextTypeMap;
         matrix_ := m; xlsxSheets := None |}
  end.

(** What the init handler computes as the baseline text of a payload. *)
Definition serializeLoaded (p : payload) : serialized :=
  sheetToText (sheets p) (typeMap p) (dataKind_ p) (wrapper_ p).

End Webview.

(** * What the specification says, in its own words

    The definitions of this module follow the wording of the
    specification, not the code; the theorems below compare the two. *)

Module Statement.
Import JsString JsNumber Json Rules Grid Extension Webview.

(** ** The cast rules (specification, 4.5) *)

(** Free-form inference: [true] and [false] in any case give a boolean,
    [null] in any case gives null, a text that reads fully as a finite
    number gives that number, anything else stays a string. *)
Definition freeForm (text : string) : json * typeTag :=
  if matchesWordI "true" text then (JBool true, HBoolean)
  else if matchesWordI "false" text then (JBool false, HBoolean)
  else if matchesWordI "null" text then (JNull, HNull)
  else if isFinite (Number text) then (JNum (Number text), HNumber)
  else (JStr text, HString).

(** The prioritized rules 1 to 6 for a text and a remembered hint.  The
    rules name the hints string, number, boolean and null only. *)
Definition castRules (text : string) (hint : option typeTag) : option (json * typeTag) :=
  if String.eqb text (dquote +:+ dquote) || String.eqb text (squote +:+ squote)
  then Some (JStr "", HString)
  else if String.eqb text "" then Some (JStr "", HString)
  else
    match hint with
    | None | Some HString => Some (freeForm text)
    | Some HNumber =>
        Some (if isFinite (Number text) then (JNum (Number text), HNumber)
              else (JStr text, HString))
    | Some HBoolean =>
        Some (if matchesWordI "true" text then (JBool true, HBoolean)
              else if matchesWordI "false" text then (JBool false, HBoolean)
              else (JBool true, HBoolean))
    | Some HNull => Some (JNull, HNull)
    | Some HArray | Some HObject => None
    end.

(** The hints the rules name. *)
Definition ruleHints : list (option typeTag) :=
  [None; Some HString; Some HNumber; Some HBoolean; Some HNull].

(** No white space at either end of [s]. *)
Definition noOuterSpace (s : string) : Prop :=
  stripWs s = None /\ forall p w, s = p +:+ w -> isBlank w = true -> w = "".

(** ** Shape detection (specification, 4.2) and flattening (4.3) *)

Definition Primitive (v : json) : Prop :=
  match v with
  | JNull | JBool _ | JNum _ | JStr _ => True
  | JArr _ | JObj _ => False
  end.

Definition PrimitiveArray (v : json) : Prop :=
  exists items, v = JArr items /\ Forall Primitive items.

Definition PlainObject (v : json) : Prop := exists o, v = JObj o.

(** A primitive or an array of primitives: what a table cell may hold. *)
Definition CellValue (v : json) : Prop := Primitive v \/ PrimitiveArray v.

(** The object has an array-valued property named [name]. *)
Definition HasArrayAt (name : string) (o : list (string * json)) : Prop :=
  exists data, objGet name o = Some (JArr data).

(** Every own property but the one named [name]. *)
Definition otherProperties (name : string) (o : list (string * json))
  : list (string * json) :=
  filter (fun p => fst p <> name) o.

(** The precedence order of the shape detector, first match first. *)
Inductive Detects : json -> validation -> Prop :=
| detects_wrapped o data :
    objGet "data" o = Some (JArr data) ->
    Detects (JObj o) (Ok (WrappedArray data (otherProperties "data" o) "data"))
| detects_array data :
    Detects (JArr data) (Ok (TopArray data))
| detects_keyValue o :
    ~ HasArrayAt "data" o ->
    Forall CellValue (objValues o) ->
    Detects (JObj o) (Ok (ObjectKV o))
| detects_objectOfObjects o :
    ~ HasArrayAt "data" o ->
    ~ Forall CellValue (objValues o) ->
    Forall PlainObject (objValues o) ->
    Detects (JObj o) (Ok (ObjectOfObjects o))
| detects_mixed o :
    ~ HasArrayAt "data" o ->
    ~ Forall CellValue (objValues o) ->
    ~ Forall PlainObject (objValues o) ->
    Detects (JObj o) (NotOk unsupportedRootObject)
| detects_other v :
    Primitive v ->
    Detects v (NotOk unsupportedJson).


(** What a flattener stores for a field it accepts. *)
Definition flatValue (v : json) : json :=
  match v with
  | JArr _ => JStr (stringify v)
  | _ => v
  end.

(** A flattener rejects the field [key]: its value is neither a
    primitive nor an array of primitives. *)
Definition Refused (o : list (string * json)) (key : string) : Prop :=
  exists v, objGet key o = Some v /\ ~ CellValue v.

(** [bad] holds, in key order, the keys among [keys] whose field a
    flattener rejects. *)
Inductive RejectedAmong (o : list (string * json)) : list string -> list string -> Prop :=
| rejected_none : RejectedAmong o [] []
| rejected_this key keys bad :
    Refused o key -> RejectedAmong o keys bad ->
    RejectedAmong o (key :: keys) (key :: bad)
| rejected_next key keys bad :
    ~ Refused o key -> RejectedAmong o keys bad ->
    RejectedAmong o (key :: keys) bad.

(** The message names the key path. *)
Definition mentions (keyPath msg : string) : Prop :=
  exists before after, msg = before +:+ keyPath +:+ after.

(** The row of the nested-object law. *)
Definition nestedRow : json := JObj [("a", JObj [("b", JNum (Number "1"))])].

(** A row with a primitive field named as the accessor of the prototype,
    as [JSON.parse] reads it from a document. *)
Definition protoRow : json :=
  JObj [("__proto__", JNum (Number "1")); ("a", JNum (Number "2"))].

(** ** Blank rows (specification, 4.6 and 8) *)

(** The headers of a table, each with its column: the cells of the first
    row that show a text. *)
Definition headerColumns (m : matrix) : list (nat * string) :=
  filter (fun p => nonEmpty (snd p) = true)
         (mapIndexed (fun c cell => (c, getCellText cell)) 0
                     (match at_ m 0 with Some row => row | None => [] end)).

Definition headerNames (m : matrix) : list string := map snd (headerColumns m).

(** The headers stand in the first columns of the table, side by side:
    no column without a header text comes before a header. *)
Definition HeadersAligned (m : matrix) : Prop :=
  map fst (headerColumns m) = seq 0 (length (headerColumns m)).

(** Every cell of the row that stands under a header has empty text. *)
Definition blankRow (m : matrix) (row : slots json) : bool :=
  forallb (fun p => String.eqb (getCellText (at_ row (fst p))) "") (headerColumns m).

(** The data rows with at least one cell under a header that is not
    empty. *)
Definition filledRows (m : matrix) : list (slots json) :=
  List.filter (fun row => negb (blankRow m row))
              (map (fun row => match row with Some row => row | None => [] end)
                   (drop 1 m)).

(** The element an array-shaped table emits for a row: an object whose
    keys are the headers with a cell that is not empty.  Nothing is said
    of the name of the prototype accessor as a header. *)
Definition ArrayRowOf (m : matrix) (row : slots json) (out : json) : Prop :=
  exists o, out = JObj o
    /\ forall h, h <> protoKey ->
                 (objHas h o = true
                  <-> exists c, In (c, h) (headerColumns m)
                                /\ getCellText (at_ row c) <> "").

Definition dotFree (h : string) : bool := negb (containsChar (fun c => Ascii.eqb c ".") h).

(** The non-empty parts of a dotted path. *)
Definition pathParts (h : string) : list string :=
  filter (fun p => nonEmpty p = true) (split "." h).

(** The element a wrapped-array table emits for a row: an object that
    holds the first part of every header path; when no header has a dot,
    every header is a key, and the key of an empty cell holds the empty
    string. *)
Definition WrappedRowOf (m : matrix) (row : slots json) (out : json) : Prop :=
  exists o, out = JObj o
    /\ (forall h p rest, In h (headerNames m) -> pathParts h = p :: rest -> objHas p o = true)
    /\ (forallb dotFree (headerNames m) = true ->
        (forall h, In h (headerNames m) -> objHas h o = true)
        /\ (NoDup (headerNames m) ->
            forall c h, In (c, h) (headerColumns m) -> getCellText (at_ row c) = "" ->
                        objGet h o = Some (JStr ""))).

(** No header names the prototype accessor in one of its parts. *)
Definition NoProtoPart (hs : list string) : Prop :=
  Forall (fun h => ~ In protoKey (pathParts h)) hs.

(** The grid of a table with a filled row and a blank row. *)
Definition sampleMatrix : matrix :=
  celldataToMatrix
    (head (createSheetFromFlatRows ["id"; "name"]
             [[("id", JNum (Number "1"))]; []])).

(** The wrapped document with a dotted key. *)
Definition dottedDocument : json :=
  JObj [("data", JArr [JObj [("a.b", JNum (Number "1"))]])].

(** ** The type map at load time *)

(** The document whose one value is a string of digits. *)
Definition digitsDocument : json := JObj [("a", JStr "123")].

(** The runtime primitive type of a leaf: number, boolean, null or
    string. *)
Inductive LeafType : json -> typeTag -> Prop :=
| leaf_number n : LeafType (JNum n) HNumber
| leaf_boolean b : LeafType (JBool b) HBoolean
| leaf_null : LeafType JNull HNull
| leaf_string s : LeafType (JStr s) HString.

(** ** The unedited round trip (specification, 8) *)

(** A leaf that the prioritized rules of the specification, with no
    hint, read back from the text its cell shows, white space at the
    ends removed.  So it is no string that the rules read as a boolean,
    as null or as a number, that has white space at an end or that is a
    quoted-empty marker, and it is not the value null, whose cell shows
    no text. *)
Definition stableLeaf (v : json) : Prop :=
  Primitive v /\ exists type, castRules (trim (toStr v)) None = Some (v, type).

(** The keys are distinct and none is the empty text. *)
Definition plainKeys (o : list (string * json)) : Prop :=
  NoDup (objKeys o) /\ Forall (fun k => k <> "") (objKeys o).

(** No key is the name of the prototype accessor. *)
Definition ordinaryKeys (o : list (string * json)) : Prop :=
  Forall (fun k => k <> protoKey) (objKeys o).

Definition StableObject (o : list (string * json)) : Prop :=
  plainKeys o /\ Forall stableLeaf (objValues o) /\ ordinaryKeys o.

Definition StableRow (row : json) : Prop := exists o, row = JObj o /\ StableObject o.

Definition DotFreeRow (row : json) : Prop :=
  match row with
  | JObj o => Forall (fun k => dotFree k = true) (objKeys o)
  | _ => True
  end.

(** The document does not carry the tag of csv or xlsx content. *)
Definition untagged (doc : json) : Prop :=
  dataKindIs "csv" doc = false /\ dataKindIs "xlsx" doc = false.

(** [f] is a field of one of the inner objects. *)
Definition FieldOfSome (o : list (string * json)) (f : string) : Prop :=
  exists k inner, In (k, JObj inner) o /\ In f (objKeys inner).

(** [k] is a key of one of the rows. *)
Definition KeyOfSome (rows : list json) (k : string) : Prop :=
  exists o, In (JObj o) rows /\ In k (objKeys o).

(** The documents the round trip is stated for, shape by shape. *)
Inductive StableDocument : json -> Prop :=
| stable_array rows :
    Forall StableRow rows ->
    StableDocument (JArr rows)
| stable_wrapped o rows :
    untagged (JObj o) ->
    objGet "data" o = Some (JArr rows) ->
    Forall StableRow rows ->
    Forall DotFreeRow rows ->
    StableDocument (JObj o)
| stable_keyValue o :
    untagged (JObj o) ->
    o <> [] ->
    StableObject o ->
    Forall (fun k => ~ In k inheritedNames) (objKeys o) ->
    StableDocument (JObj o)
| stable_objects o :
    untagged (JObj o) ->
    o <> [] ->
    plainKeys o ->
    ordinaryKeys o ->
    Forall (fun v => exists inner, v = JObj inner /\ StableObject inner) (objValues o) ->
    Forall (fun k => dotFree k = true) (objKeys o) ->
    StableDocument (JObj o).

Definition blankValue (v : json) : bool :=
  match v with JStr s => String.eqb s "" | _ => false end.

(** Every field of the row is the empty string. *)
Definition blankFields (row : json) : bool :=
  match row with
  | JObj o => forallb blankValue (objValues o)
  | _ => true
  end.

Definition keptRows (rows : list json) : list json :=
  List.filter (fun row => negb (blankFields row)) rows.

(** The row of an array document comes back without its fields that are
    the empty string. *)
Definition ArrayTrip (row out : json) : Prop :=
  exists ro oo, row = JObj ro /\ out = JObj oo
    /\ forall k, objGet k oo
                 = match objGet k ro with
                   | Some v => if blankValue v then None else Some v
                   | None => None
                   end.

(** An object comes back with every key of the table: its own value, or
    the empty string for a key it lacks. *)
Definition Padded (IsKey : string -> Prop) (o oo : list (string * json)) : Prop :=
  forall k, (IsKey k -> objGet k oo = Some (ownOrEmpty o k))
            /\ (~ IsKey k -> objGet k oo = None).

Definition WrappedTrip (rows : list json) (row out : json) : Prop :=
  exists ro oo, row = JObj ro /\ out = JObj oo /\ Padded (KeyOfSome rows) ro oo.

(** What serializing the unedited grid of a document gives back. *)
Inductive Reserialized : json -> json -> Prop :=
| reserialized_array rows outs :
    Forall2 ArrayTrip (keptRows rows) outs ->
    Reserialized (JArr rows) (JArr outs)
| reserialized_wrapped o rows oo outs :
    objGet "data" o = Some (JArr rows) ->
    objGet "data" oo = Some (JArr outs) ->
    (forall k, k <> "data" -> objGet k oo = objGet k o) ->
    Forall2 (WrappedTrip rows) (keptRows rows) outs ->
    Reserialized (JObj o) (JObj oo)
| reserialized_keyValue o oo :
    Forall Primitive (objValues o) ->
    (forall k, objGet k oo = objGet k o) ->
    Reserialized (JObj o) (JObj oo)
| reserialized_objects o oo :
    Forall PlainObject (objValues o) ->
    (forall k,
        match objGet k o with
        | Some v => exists inner io, v = JObj inner /\ objGet k oo = Some (JObj io)
                                     /\ Padded (FieldOfSome o) inner io
        | None => objGet k oo = None
        end) ->
    Reserialized (JObj o) (JObj oo).

(** An array document with a number, a string, a boolean, null, and a row
    of empty strings. *)
Definition sampleTable : json :=
  JArr [JObj [("id", JNum (Number "1")); ("name", JStr "x");
              ("ok", JBool true); ("gone", JNull)];
        JObj [("id", JStr ""); ("name", JStr "")]].

(** ** Reading CSV *)

(** The cells of one source line: the comma-separated tokens, each
    without its leading and trailing white space. *)
Definition csvTokens (line : string) : list string := map trim (split "," line).

(** The source lines that become rows: all of them, but for a last line
    that is blank. *)
Definition csvLines (lines : list string) : list string :=
  if String.eqb (trim (List.last lines "")) "" then removelast lines else lines.

Definition jsonMatrix (rows : list (list string)) : json :=
  JArr (map (fun row => JArr (map JStr row)) rows).

End Statement.

(** * Definitions the proofs use *)

Module Support.
Import JsString JsNumber Json Rules Grid Extension Webview Statement.

(** ** The cells a serialize pass visits, as the pass pairs them *)

(** A visit: the path of a cell and the text found in it. *)
Definition visit : Set := string * string.

(** The texts the pass reads for the headers: the header texts are the
    non-empty ones, and the pass reads cell [c] of the row for the header
    it counts as number [c]. *)
Definition headerCellTexts (headers : list string) (row : slots json) : list (string * string) :=
  mapIndexed (fun c header => (header, getCellText (at_ row c))) 0 headers.

(** The data rows of a table with their row numbers: the rows after the
    header row. *)
Definition dataRows (m : matrix) : list (nat * slots json) :=
  mapIndexed (fun r row => (r, rowOf row)) 1 (drop 1 m).

Definition allRows (m : matrix) : list (nat * slots json) :=
  mapIndexed (fun r row => (r, rowOf row)) 0 m.

Definition tableVisits (headers : list string) (r : nat) (row : slots json) : list visit :=
  map (fun p => (fieldPath r (fst p), snd p)) (headerCellTexts headers row).

Definition arrayVisits (m : matrix) (currentTypeMap : gmap string typeTag) : list visit :=
  concat (map (fun p =>
                 if scalarRows currentTypeMap
                 then [(rowPath (fst p), getCellText (secondOrFirst (snd p)))]
                 else tableVisits (headerTexts m) (fst p) (snd p))
              (dataRows m)).

Definition wrappedVisits (m : matrix) : list visit :=
  concat (map (fun p => tableVisits (headerTexts m) (fst p) (snd p)) (dataRows m)).

Definition objectVisits (m : matrix) : list visit :=
  let headers := allHeaderTexts m in
  let keyColIndex := findIndexFrom (isText "key") 0 headers in
  let fieldHeaders := fieldHeadersOf headers keyColIndex in
  concat (map (fun p =>
                 let row := snd p in
                 let key := getCellText (at_ row (match keyColIndex with
                                                  | Some k => k
                                                  | None => 0
                                                  end)) in
                 if nonEmpty key then
                   mapIndexed (fun c field =>
                                 (key +:+ "." +:+ field,
                                  getCellText
                                    (match keyColIndex with
                                     | Some 0 => at_ row (c + 1)
                                     | _ =>
                                         match findIndexFrom (isText field) 0 headers with
                                         | Some cellIndex => at_ row cellIndex
                                         | None => None
                                         end
                                     end))) 0 fieldHeaders
                 else [])
              (dataRows m)).

Definition csvVisits (m : matrix) : list visit :=
  concat (map (fun p =>
                 concat (mapIndexed (fun c cell =>
                                       match cell with
                                       | Some v => [(csvPath (fst p) c, getCellText (Some v))]
                                       | None => []
                                       end) 0 (snd p)))
              (allRows m)).

Definition keyValueVisits (m : matrix) : list visit :=
  concat (map (fun p =>
                 let key := getCellText (at_ (snd p) 0) in
                 if nonEmpty key then [(key, getCellText (at_ (snd p) 1))] else [])
              (allRows m)).

(** The cells [sheetToText] casts, in the order it casts them. *)
Definition visits (dataKind : dataKind) (m : matrix)
    (currentTypeMap : gmap string typeTag) : list visit :=
  match dataKind with
  | KArray => arrayVisits m currentTypeMap
  | KWrappedArray => wrappedVisits m
  | KObjectOfObjects => objectVisits m
  | KCsv => csvVisits m
  | KXlsx => []
  | KObject | KUnsupported => keyValueVisits m
  end.

(** The text of the first visit to [path]. *)
Fixpoint firstVisit (path : string) (vs : list visit) : option string :=
  match vs with
  | [] => None
  | (p, raw) :: vs' => if String.eqb p path then Some raw else firstVisit path vs'
  end.

(** ** Blank rows, as the pass pairs headers and cells *)

(** Every header cell of the row has empty text. *)
Definition pairedBlank (headers : list string) (row : slots json) : bool :=
  forallb (fun p => String.eqb (snd p) "") (headerCellTexts headers row).

(** The data rows with at least one header cell that is not empty. *)
Definition pairedFilled (m : matrix) : list (slots json) :=
  List.filter (fun row => negb (pairedBlank (headerTexts m) row)) (map rowOf (drop 1 m)).

(** The element an array-shaped table emits for a row: an object whose
    keys are the headers with a cell that is not empty. *)
Definition PairedArrayRow (headers : list string) (row : slots json) (out : json) : Prop :=
  exists o, out = JObj o
    /\ forall h, h <> protoKey ->
                 (objHas h o = true
                  <-> exists c, headers !! c = Some h /\ getCellText (at_ row c) <> "").

Definition PairedWrappedRow (headers : list string) (row : slots json) (out : json) : Prop :=
  exists o, out = JObj o
    /\ (forall h p rest, In h headers -> pathParts h = p :: rest -> objHas p o = true)
    /\ (forallb dotFree headers = true ->
        (forall h, In h headers -> objHas h o = true)
        /\ (NoDup headers ->
            forall c h, headers !! c = Some h -> getCellText (at_ row c) = "" ->
                        objGet h o = Some (JStr ""))).


Fixpoint mapLast {A : Type} (f : A -> A) (l : list A) : list A :=
  match l with
  | [] => []
  | [x] => [f x]
  | x :: l' => x :: mapLast f l'
  end.

(** [s] without a carriage return that ends it. *)
Fixpoint dropFinalCR (s : string) : string :=
  match s with
  | "" => ""
  | String c r =>
      if isCR c && String.eqb r "" then "" else String c (dropFinalCR r)
  end.

(** The message a flattener pushes for a rejected field, given how it
    words a nested object; [keyPath] is the key as the message names it. *)
Definition rejection (nested : string -> string) (keyPath : string) (v : json) : string :=
  match v with
  | JArr _ => unsupportedArrayAt keyPath
  | JObj _ => nested keyPath
  | _ => unsupportedTypeAt keyPath
  end.

Definition rejected (o : list (string * json)) (key : string) : bool :=
  match objGet key o with
  | Some v => negb (isPrimitive v || isArrayOfPrimitives v)
  | None => false
  end.

Definition storeFlat (o : list (string * json)) (out : list (string * json))
    (key : string) : list (string * json) :=
  match objGet key o with
  | Some v => objAssign key (flatValue v) out
  | None => out
  end.

Definition rejectionAt (nested : string -> string) (path : string -> string)
    (o : list (string * json)) (key : string) : string :=
  match objGet key o with
  | Some v => rejection nested (path key) v
  | None => ""
  end.

Definition isComma (c : ascii) : bool := Ascii.eqb c ",".
Definition isBracket (c : ascii) : bool := Ascii.eqb c "]".

(** The value [sheetToText] pretty-prints for a JSON kind. *)
Definition serializedValue (sheets : list sheet) (tm : gmap string typeTag)
    (kind : dataKind) (w : option wrapper) : json :=
  let m := celldataToMatrix (head sheets) in
  match kind with
  | KArray => JArr (fst (arrayRows m tm))
  | KWrappedArray => wrappedOut w (fst (wrappedRows m tm))
  | KObjectOfObjects => JObj (fst (objectOfObjectsOut m tm))
  | _ => JObj (fst (keyValueResult m tm))
  end.

(** The cell object [createCell] builds for a value. *)
Definition cellOf (value : option json) : json :=
  match cd_v (createCell 0 0 value) with
  | Some cell => cell
  | None => JNull
  end.

(** The entries of [celldata] for a grid of cells, row by row, the first
    row at [r0]. *)
Definition gridCells (r0 : nat) (grid : list (list json)) : list celldatum :=
  concat (mapIndexed (fun r row =>
                        mapIndexed (fun c cell =>
                                      {| cd_r := r; cd_c := c; cd_v := Some cell |})
                                   0 row) r0 grid).

(** The matrix without holes that holds the grid. *)
Definition dense (grid : list (list json)) : matrix :=
  map (fun row => Some (map Some row)) grid.

Definition applyCell (m : matrix) (cell : celldatum) : matrix :=
  applyValue m (cd_r cell) (cd_c cell) (cd_v cell).

(** The rows of cells of the key/value sheet of an object. *)
Definition keyValueGrid (o : list (string * json)) : list (list json) :=
  map (fun entry => [cellOf (Some (JStr (fst entry))); cellOf (Some (snd entry))]) o.

(** The rows of cells of a table: the header row, then a row of cells
    per object, with the empty string where the object lacks the key. *)
Definition tableGrid (headers : list string) (rows : list (list (string * json)))
  : list (list json) :=
  map (fun h => cellOf (Some (JStr h))) headers
  :: map (fun row => map (fun h => cellOf (Some (ownOrEmpty row h))) headers) rows.

(** The same with the key column of a key/object document in front. *)
Definition keyedGrid (fields : list string) (rows : list (string * list (string * json)))
  : list (list json) :=
  map (fun h => cellOf (Some (JStr h))) ("key" :: fields)
  :: map (fun row => cellOf (Some (JStr (fst row)))
                     :: map (fun f => cellOf (Some (ownOrEmpty (snd row) f))) fields) rows.

(** The flattened row holds what the row holds. *)
Definition FlatOf (row : json) (flat : list (string * json)) : Prop :=
  exists ro, row = JObj ro /\ forall k, objGet k flat = objGet k ro.

Definition PrimitiveRow (row : json) : Prop :=
  exists ro, row = JObj ro /\ Forall (fun v => isPrimitive v = true) (objValues ro)
             /\ ordinaryKeys ro.

(** Every cell of the row of a flattened row shows a stable leaf. *)
Definition StableFlat (flat : list (string * json)) : Prop :=
  forall h, stableLeaf (ownOrEmpty flat h).

(** The cells of the row of a table for a flattened row. *)
Definition rowCells (headers : list string) (flat : list (string * json)) : slots json :=
  map Some (map (fun h => cellOf (Some (ownOrEmpty flat h))) headers).

Definition setFilled (flat : list (string * json)) (o : list (string * json))
    (h : string) : list (string * json) :=
  if blankValue (ownOrEmpty flat h) then o else objSet h (ownOrEmpty flat h) o.

Definition setOwn (flat : list (string * json)) (o : list (string * json))
    (h : string) : list (string * json) :=
  objSet h (ownOrEmpty flat h) o.

Definition anyFilled (headers : list string) (flat : list (string * json)) : bool :=
  existsb (fun h => negb (blankValue (ownOrEmpty flat h))) headers.

(** The cells of the row of a key/object table: the key, then the
    fields. *)
Definition keyedCells (fields : list string) (row : string * list (string * json))
  : slots json :=
  Some (cellOf (Some (JStr (fst row)))) :: rowCells fields (snd row).

(** The entry the key/object loop stores for a row. *)
Definition innerEntry (fields : list string) (row : string * list (string * json))
  : string * json :=
  (fst row, JObj (fold_left (setOwn (snd row)) fields [])).

(** The cells the key/object loop visits in a row. *)
Definition keyedVisits (fields : list string) (row : string * list (string * json))
  : list visit :=
  mapIndexed (fun c field =>
                (fst row +:+ "." +:+ field,
                 getCellText (at_ (keyedCells fields row) (c + 1)))) 0 fields.

(** The flattened inner object of an entry, under its key. *)
Definition KeyedFlatOf (entry : string * json) (row : string * list (string * json))
  : Prop :=
  fst row = fst entry /\ FlatOf (snd entry) (snd row).

Definition setEntry (res : list (string * json)) (entry : string * json)
  : list (string * json) :=
  objSet (fst entry) (snd entry) res.

(** The type map after one visit. *)
Definition record (tm : gmap string typeTag) (v : visit) : gmap string typeTag :=
  snd (castCell (snd v) (fst v) tm).

(** The rows of cells of the sheet of a matrix of csv tokens. *)
Definition tokenGrid (rows : list (list string)) : list (list json) :=
  map (map (fun t => cellOf (Some (JStr t)))) rows.

(** The field the csv branch writes for the unedited cell of a token. *)
Definition csvField (t : string) : string := escapeCsv (fst (castWithType t None)).

(** [cellValue] of [createSheetFromMatrix]: the value, or the empty string
    for null. *)
Definition orEmpty (v : json) : json :=
  match v with JNull => JStr "" | _ => v end.

Definition isSpecial (c : ascii) : bool :=
  (code c =? 34) || (code c =? 44) || (code c =? 10).

Definition isSeparator (c : ascii) : bool := isComma c || isLF c.
Definition isQuote (c : ascii) : bool := code c =? 34.

(** [content ?? {}]. *)
Definition orEmptyObject (content : json) : json :=
  match content with JNull => JObj [] | _ => content end.

(** The message of the load error for the row [i]. *)
Definition rowError (i : nat) (errors : list string) : string :=
  "Unsupported JSON at row[" +:+ ofNat i +:+ "]: " +:+ join " " errors.

Definition Flattens (row : json) : Prop := exists flat, flattenRowObject row = FlatOk flat.

Definition InnerFlattens (entry : string * json) : Prop :=
  exists flat, flattenInnerObject (snd entry) (fst entry) = FlatOk flat.

(** [matrix[r]?.[c]]: the cell read at a position, [None] for a hole or a
    position outside the matrix. *)
Definition cellAt (m : matrix) (r c : nat) : option json :=
  match at_ m r with Some row => at_ row c | None => None end.

(** The entries of [celldata] for one position. *)
Definition entryAt (r c : nat) (cell : celldatum) : bool :=
  (cd_r cell =? r) && (cd_c cell =? c).

(** The text of the key column of a row. *)
Definition keyText (keyColIndex : option nat) (row : option (slots json)) : string :=
  getCellText (at_ (rowOf row) (match keyColIndex with Some k => k | None => 0 end)).

(** An object whose keys are the fields. *)
Definition HoldsFields (fields : list string) (v : json) : Prop :=
  exists inner, v = JObj inner /\ forall f, objHas f inner = true <-> In f fields.

(** Reading [o[k1][k2]...] along the parts of a path. *)
Fixpoint getPath (parts : list string) (o : list (string * json)) : option json :=
  match parts with
  | [] => None
  | [key] => objGet key o
  | key :: rest =>
      match objGet key o with
      | Some (JObj child) => getPath rest child
      | _ => None
      end
  end.

(** An array stands where the path goes through. *)
Fixpoint arrayOnPath (parts : list string) (o : list (string * json)) : bool :=
  match parts with
  | [] => false
  | [_] => false
  | key :: rest =>
      match objGet key o with
      | Some (JArr _) => true
      | Some (JObj child) => arrayOnPath rest child
      | _ => false
      end
  end.

(** What a cell built for a value shows to the xlsx writer. *)
Definition shown (v : json) : json :=
  match v with
  | JNull => JStr ""
  | JArr _ | JObj _ => JStr (stringify v)
  | _ => v
  end.

(** The rows of cells of the sheet of a matrix of values. *)
Definition valueGrid (rows : list (list json)) : list (list json) :=
  map (map (fun v => cellOf (Some (orEmpty v)))) rows.

(** The content [openCustomDocument] builds for a workbook: its sheets by
    name, each with its matrix of values. *)
Definition workbook (book : list (string * list (list json))) : json :=
  JObj [("dataKind", JStr "xlsx");
        ("sheets",
         JArr (map (fun w => JObj [("name", JStr (fst w));
                                   ("matrix", JArr (map JArr (snd w)))]) book))].

(** The sheet built for one entry of a workbook. *)
Definition bookSheet (idx : nat) (w : string * list (list json)) : sheet :=
  {| sheet_name := Some (JStr (fst w)); sheet_order := idx;
     sheet_celldata := Some (gridCells 0 (valueGrid (snd w)));
     sheet_data := Some (celldataToMatrixFromCells (gridCells 0 (valueGrid (snd w)))) |}.

(** The cells the loops of the key/object, csv and key/value branches
    visit in one turn. *)
Definition innerVisit (headers : slots string) (keyColIndex : option nat)
    (key : string) (row : slots json) (c : nat) (field : string) : visit :=
  (key +:+ "." +:+ field,
   getCellText
     (match keyColIndex with
      | Some 0 => at_ row (c + 1)
      | _ =>
          match findIndexFrom (isText field) 0 headers with
          | Some cellIndex => at_ row cellIndex
          | None => None
          end
      end)).

Definition objectRowVisits (headers : slots string) (keyColIndex : option nat)
    (fieldHeaders : list string) (r : nat) (row : option (slots json)) : list visit :=
  let key := getCellText (at_ (rowOf row) (match keyColIndex with
                                           | Some k => k
                                           | None => 0
                                           end)) in
  if nonEmpty key
  then mapIndexed (innerVisit headers keyColIndex key (rowOf row)) 0 fieldHeaders
  else [].

Definition csvCellVisits (r c : nat) (cell : option json) : list visit :=
  match cell with
  | Some v => [(csvPath r c, getCellText (Some v))]
  | None => []
  end.

Definition csvRowVisits (r : nat) (row : option (slots json)) : list visit :=
  concat (mapIndexed (csvCellVisits r) 0 (rowOf row)).

Definition keyValueRowVisits (r : nat) (row : option (slots json)) : list visit :=
  let key := getCellText (at_ (rowOf row) 0) in
  if nonEmpty key then [(key, getCellText (at_ (rowOf row) 1))] else [].

(** A step of a serialize loop replays under a later type map: run with
    the map [tm2] that the pass reaches from [tm1] through the cells of
    the step and the cells [rest] after it, the step gives what it gives
    with [tm1], and leaves [tm2] as it is. *)
Definition Replays {A Acc : Type}
    (step : Acc * gmap string typeTag -> nat -> A -> Acc * gmap string typeTag)
    (vis : nat -> A -> list visit) : Prop :=
  forall acc tm1 tm2 i x rest,
    tm2 = fold_left record (vis i x ++ rest) tm1 ->
    step (acc, tm2) i x = (fst (step (acc, tm1) i x), tm2).

End Support.

(** Turning boolean tests on character codes into arithmetic. *)
Ltac codes :=
  repeat match goal with
         | H : (_ || _) = true |- _ => apply orb_prop in H; destruct H
         | H : (_ && _) = true |- _ => apply andb_prop in H; destruct H
         | H : (_ =? _)%nat = true |- _ => apply Nat.eqb_eq in H
         | H : (_ <=? _)%nat = true |- _ => apply Nat.leb_le in H
         end.

(** * Facts about the string builtins *)

Import JsString JsNumber Json Rules Grid Extension Webview Statement Support.

#[local] Arguments String.append !_ _ : simpl nomatch.

Lemma append_nil_r (s : string) : s +:+ "" = s.
Proof. induction s as [|c s IH]; simpl; [reflexivity | f_equal; exact IH]. Qed.

Lemma append_assoc (a b c : string) : (a +:+ b) +:+ c = a +:+ (b +:+ c).
Proof. induction a as [|x a IH]; simpl; [reflexivity | f_equal; exact IH]. Qed.

Lemma eqb_empty_iff (s : string) : String.eqb s "" = true <-> s = "".
Proof. apply String.eqb_eq. Qed.

Lemma stripWs_shorter (s r : string) :
  stripWs s = Some r -> String.length r < String.length s.
Proof.
  destruct s as [|a [|b [|c s]]]; simpl;
    repeat (match goal with |- context [if ?b then _ else _] => destruct b end);
    intros H; inversion H; subst; simpl; lia.
Qed.

Lemma stripWs_app (s r x : string) :
  stripWs s = Some r -> stripWs (s +:+ x) = Some (r +:+ x).
Proof.
  destruct s as [|a [|b [|c s]]]; simpl;
    repeat (match goal with |- context [if ?b then _ else _] => destruct b end);
    intros H; inversion H; subst; simpl; reflexivity.
Qed.

Lemma trimStartFuel_stable (n m : nat) (s : string) :
  String.length s <= n -> String.length s <= m ->
  trimStartFuel n s = trimStartFuel m s.
Proof.
  revert m s. induction n as [|n IH]; intros m s Hn Hm.
  - destruct s; simpl in Hn; [|lia]. destruct m; reflexivity.
  - destruct m as [|m].
    + destruct s; simpl in Hm; [|lia]. reflexivity.
    + simpl. destruct (stripWs s) as [r|] eqn:E; [|reflexivity].
      apply stripWs_shorter in E. apply IH; lia.
Qed.

Lemma trimStart_strip (s r : string) :
  stripWs s = Some r -> trimStart s = trimStart r.
Proof.
  intros E. unfold trimStart.
  pose proof (stripWs_shorter _ _ E) as Hlt.
  destruct (String.length s) as [|n] eqn:L; [lia|].
  simpl. rewrite E. apply trimStartFuel_stable; lia.
Qed.

Lemma trimStart_clean (s : string) : stripWs s = None -> trimStart s = s.
Proof.
  intros E. unfold trimStart. destruct (String.length s); simpl; [reflexivity|].
  now rewrite E.
Qed.

(** Induction along the steps of [trimStart]. *)
Lemma trimStart_ind (P : string -> Prop) :
  (forall s, stripWs s = None -> P s) ->
  (forall s r, stripWs s = Some r -> P r -> P s) ->
  forall s, P s.
Proof.
  intros Hstop Hstep s.
  remember (String.length s) as n eqn:L.
  revert s L. induction n as [n IH] using lt_wf_ind. intros s L.
  destruct (stripWs s) as [r|] eqn:E.
  - apply (Hstep s r E). apply (IH (String.length r)); [|reflexivity].
    subst n. now apply stripWs_shorter.
  - now apply Hstop.
Qed.

Lemma stripWs_trimStart (s : string) : stripWs (trimStart s) = None.
Proof.
  induction s as [s E | s r E IH] using trimStart_ind.
  - now rewrite trimStart_clean.
  - now rewrite (trimStart_strip _ _ E).
Qed.

Lemma isBlank_true (s : string) : isBlank s = true <-> trimStart s = "".
Proof. unfold isBlank. apply String.eqb_eq. Qed.

Lemma isBlank_empty : isBlank "" = true.
Proof. reflexivity. Qed.

Lemma trimStart_blank_app (a b : string) :
  isBlank a = true -> trimStart (a +:+ b) = trimStart b.
Proof.
  induction a as [a E | a r E IH] using trimStart_ind; intros B.
  - apply isBlank_true in B. rewrite (trimStart_clean _ E) in B. now subst a.
  - rewrite (trimStart_strip _ _ (stripWs_app _ _ b E)). apply IH.
    apply isBlank_true. rewrite <- (trimStart_strip _ _ E). now apply isBlank_true.
Qed.

Lemma isBlank_app (a b : string) :
  isBlank a = true -> isBlank b = true -> isBlank (a +:+ b) = true.
Proof.
  intros A B. apply isBlank_true. rewrite trimStart_blank_app by exact A.
  now apply isBlank_true.
Qed.

Lemma trimEnd_blank (s : string) : isBlank s = true -> trimEnd s = "".
Proof. intros B. destruct s; simpl; [reflexivity | now rewrite B]. Qed.

Lemma trimEnd_cons (c : ascii) (r : string) :
  isBlank (String c r) = false -> trimEnd (String c r) = String c (trimEnd r).
Proof. intros B. simpl trimEnd. now rewrite B. Qed.

(** What [trimEnd] cuts off is white space. *)
Lemma trimEnd_split (s : string) :
  exists w, s = trimEnd s +:+ w /\ isBlank w = true.
Proof.
  induction s as [|c r [w [Hw Bw]]].
  - exists "". split; reflexivity.
  - destruct (isBlank (String c r)) eqn:B.
    + exists (String c r). rewrite (trimEnd_blank _ B). split; [reflexivity | exact B].
    + exists w. rewrite (trimEnd_cons _ _ B). simpl. split; [now rewrite <- Hw | exact Bw].
Qed.

Lemma trimEnd_blank_inv (s : string) : isBlank (trimEnd s) = true -> isBlank s = true.
Proof.
  intros B. destruct (trimEnd_split s) as [w [Hw Bw]].
  rewrite Hw. now apply isBlank_app.
Qed.

Lemma trimEnd_idem (s : string) : trimEnd (trimEnd s) = trimEnd s.
Proof.
  induction s as [|c r IH]; [reflexivity|].
  destruct (isBlank (String c r)) eqn:B.
  - now rewrite (trimEnd_blank _ B).
  - rewrite (trimEnd_cons _ _ B).
    destruct (isBlank (String c (trimEnd r))) eqn:B'.
    + exfalso. rewrite <- (trimEnd_cons _ _ B) in B'.
      apply trimEnd_blank_inv in B'. congruence.
    + rewrite (trimEnd_cons _ _ B'). now rewrite IH.
Qed.

(** No white space is left at the end of [trimEnd s]. *)
Lemma trimEnd_clean (s p w : string) :
  trimEnd s = p +:+ w -> isBlank w = true -> w = "".
Proof.
  revert p. induction s as [|c r IH]; intros p E B.
  - simpl in E. destruct p; simpl in E; [now subst w | discriminate].
  - destruct (isBlank (String c r)) eqn:Bs.
    + rewrite (trimEnd_blank _ Bs) in E.
      destruct p; simpl in E; [now subst w | discriminate].
    + rewrite (trimEnd_cons _ _ Bs) in E. destruct p as [|c' p].
      * simpl in E. subst w. rewrite <- (trimEnd_cons _ _ Bs) in B.
        apply trimEnd_blank_inv in B. congruence.
      * simpl in E. injection E as -> E. now apply (IH p).
Qed.

Lemma stripWs_trimEnd (s : string) : stripWs s = None -> stripWs (trimEnd s) = None.
Proof.
  intros E. destruct (stripWs (trimEnd s)) as [r|] eqn:E'; [|reflexivity].
  destruct (trimEnd_split s) as [w [Hw _]].
  apply (stripWs_app _ _ w) in E'. rewrite <- Hw in E'. congruence.
Qed.

Lemma stripWs_trim (s : string) : stripWs (trim s) = None.
Proof. apply stripWs_trimEnd, stripWs_trimStart. Qed.

Lemma trim_clean_end (s p w : string) :
  trim s = p +:+ w -> isBlank w = true -> w = "".
Proof. apply trimEnd_clean. Qed.

Lemma trim_idem (s : string) : trim (trim s) = trim s.
Proof.
  unfold trim at 1. rewrite (trimStart_clean _ (stripWs_trim s)).
  unfold trim. apply trimEnd_idem.
Qed.

Lemma trim_blank (s : string) : isBlank s = true -> trim s = "".
Proof. intros B. unfold trim. apply isBlank_true in B. now rewrite B. Qed.


(** * The cast engine *)


Lemma trim_noOuterSpace (s : string) : noOuterSpace (trim s).
Proof.
  split; [apply stripWs_trim|]. intros p w E B. exact (trim_clean_end s p w E B).
Qed.

Lemma noOuterSpace_empty : noOuterSpace "".
Proof. exact (trim_noOuterSpace ""). Qed.

Lemma inferType_freeForm (t : string) :
  String.eqb t "" = false -> inferType t = freeForm t.
Proof.
  intros E. unfold inferType, freeForm. rewrite E.
  repeat (match goal with |- context [if ?b then _ else _] => destruct b end);
    reflexivity.
Qed.

(** On a text that is not empty, [castWithType] is the rule the hint
    selects. *)
Lemma castWithType_rules (raw : string) (hint : option typeTag) :
  In hint ruleHints -> castRules (trim raw) hint = Some (castWithType raw hint).
Proof.
  intros Hin. unfold castRules, castWithType.
  destruct (String.eqb (trim raw) (dquote +:+ dquote)
            || String.eqb (trim raw) (squote +:+ squote)); [reflexivity|].
  destruct (String.eqb (trim raw) "") eqn:E; [reflexivity|].
  simpl in Hin.
  destruct Hin as [<-|[<-|[<-|[<-|[<-|[]]]]]]; simpl.
  - now rewrite inferType_freeForm.
  - now rewrite inferType_freeForm.
  - destruct (isFinite (Number (trim raw))); reflexivity.
  - unfold truthy. rewrite E. simpl.
    repeat (match goal with |- context [if ?b then _ else _] => destruct b end);
      reflexivity.
  - reflexivity.
Qed.

(** The results of type string are the trimmed text or the empty text. *)
Lemma castWithType_string (raw : string) (hint : option typeTag) (v : json) :
  castWithType raw hint = (v, HString) -> v = JStr (trim raw) \/ v = JStr "".
Proof.
  unfold castWithType, inferType.
  repeat (match goal with
          | |- context [if ?b then _ else _] => destruct b
          | |- context [match ?h with None => _ | Some _ => _ end] => destruct h
          | |- context [match ?h with HString => _ | _ => _ end] => destruct h
          end);
    intros H; inversion H; auto.
Qed.

Lemma castWithType_trimmed (raw : string) (hint : option typeTag) :
  castWithType raw hint = castWithType (trim raw) hint.
Proof. unfold castWithType. now rewrite trim_idem. Qed.

Lemma castWithType_blank (raw : string) (hint : option typeTag) :
  isBlank raw = true -> castWithType raw hint = (JStr "", HString).
Proof.
  intros B. unfold castWithType. rewrite (trim_blank _ B). reflexivity.
Qed.

Lemma castWithType_marker (raw : string) (hint : option typeTag) :
  trim raw = dquote +:+ dquote \/ trim raw = squote +:+ squote ->
  castWithType raw hint = (JStr "", HString).
Proof.
  intros [E|E]; unfold castWithType; rewrite E; reflexivity.
Qed.

(** C4, as the claim words it, fails: the rules are applied to the text
    after [trim], so the text [ true] with a leading blank is the boolean
    and not, as the rules on the text itself say, a string. *)
Lemma castWithType_rules_untrimmed_counterexample :
  castWithType " true" None = (JBool true, HBoolean)
  /\ castRules " true" None = Some (JStr " true", HString).
Proof. split; vm_compute; reflexivity. Qed.

(** C4 (amended): for every cell text and every hint the rules name,
    [castWithType] returns exactly what the prioritized rules give for the
    text with its leading and trailing white space removed; it returns a
    value and type for every input. *)
Theorem castWithType_follows_rules_on_trimmed_text :
  Forall (fun hint => forall raw,
            castRules (trim raw) hint = Some (castWithType raw hint)) ruleHints
  /\ forall raw hint, exists casted type, castWithType raw hint = (casted, type).
Proof.
  split.
  - apply Forall_forall. intros hint Hin raw. apply castWithType_rules.
    apply list_elem_of_In. exact Hin.
  - intros raw hint. destruct (castWithType raw hint) as [casted type].
    now exists casted, type.
Qed.

(** C9: [castWithType] does not see white space around its text.  A
    text of white space only is a cleared cell, a padded quoted-empty
    marker still gives the empty string, and a result of type string
    carries no white space at either end. *)
Theorem castWithType_ignores_outer_space (raw : string) (hint : option typeTag) :
  castWithType raw hint = castWithType (trim raw) hint
  /\ (isBlank raw = true -> castWithType raw hint = (JStr "", HString))
  /\ (trim raw = dquote +:+ dquote \/ trim raw = squote +:+ squote ->
      castWithType raw hint = (JStr "", HString))
  /\ castWithType ("  " +:+ dquote +:+ dquote +:+ "  ") hint = (JStr "", HString)
  /\ (forall v, castWithType raw hint = (v, HString) ->
      exists t, v = JStr t /\ noOuterSpace t).
Proof.
  split; [apply castWithType_trimmed|].
  split; [apply castWithType_blank|].
  split; [apply castWithType_marker|].
  split; [apply castWithType_marker; left; vm_compute; reflexivity|].
  intros v H. destruct (castWithType_string _ _ _ H) as [->| ->].
  - exists (trim raw). split; [reflexivity | apply trim_noOuterSpace].
  - exists "". split; [reflexivity | apply noOuterSpace_empty].
Qed.

(** * Reading CSV *)


Lemma stripWs_snoc_ws1 (t : string) (w : ascii) :
  isWs1 w = true -> stripWs t = None -> t <> "" ->
  stripWs (t +:+ String w "") = None.
Proof.
  intros W E N.
  assert (W2 : forall a, isWs2 a w = false).
  { intros a. unfold isWs2, isWs1 in *.
    destruct (code w =? 160) eqn:X; [|now rewrite andb_false_r].
    apply Nat.eqb_eq in X. rewrite X in W. discriminate. }
  assert (W3 : forall a b, isWs3 a b w = false).
  { intros a b. unfold isWs3, isWs1 in *.
    destruct (code w) as [|n] eqn:Cw; [discriminate|].
    do 13 (destruct n as [|n]; [vm_compute in W; try discriminate;
              repeat rewrite andb_false_r; simpl;
              repeat rewrite andb_false_r; reflexivity|]).
    do 18 (destruct n as [|n]; [vm_compute in W; discriminate|]).
    destruct n as [|n];
      [repeat rewrite andb_false_r; simpl; repeat rewrite andb_false_r; reflexivity|].
    exfalso. clear -W. simpl in W. discriminate. }
  destruct t as [|a [|b [|c t]]]; [congruence| | |]; simpl in *.
  - destruct (isWs1 a); [discriminate|]. now rewrite W2.
  - destruct (isWs1 a); [discriminate|]. destruct (isWs2 a b); [discriminate|].
    now rewrite W3.
  - destruct (isWs1 a); [discriminate|]. destruct (isWs2 a b); [discriminate|].
    destruct (isWs3 a b c); [discriminate | reflexivity].
Qed.

Lemma isBlank_snoc_ws1 (s : string) (w : ascii) :
  isWs1 w = true -> isBlank (s +:+ String w "") = isBlank s.
Proof.
  intros W.
  assert (Bw : isBlank (String w "") = true).
  { apply isBlank_true. rewrite (trimStart_strip (String w "") "").
    - reflexivity.
    - simpl. now rewrite W. }
  destruct (isBlank s) eqn:B; [now apply isBlank_app|].
  induction s as [s E | s r E IH] using trimStart_ind.
  - destruct s as [|c s].
    + discriminate.
    + apply not_true_iff_false. intros B'. apply isBlank_true in B'.
      rewrite trimStart_clean in B'.
      * destruct s; discriminate.
      * apply stripWs_snoc_ws1; [exact W | exact E | discriminate].
  - unfold isBlank in *. rewrite (trimStart_strip _ _ (stripWs_app _ _ _ E)).
    rewrite (trimStart_strip _ _ E) in B. now apply IH.
Qed.

Lemma trimStart_snoc_ws1 (s : string) (w : ascii) :
  isWs1 w = true -> isBlank s = false ->
  trimStart (s +:+ String w "") = trimStart s +:+ String w "".
Proof.
  intros W. induction s as [s E | s r E IH] using trimStart_ind; intros B.
  - rewrite (trimStart_clean _ E). apply trimStart_clean.
    apply stripWs_snoc_ws1; [exact W | exact E |]. intros ->. discriminate.
  - rewrite (trimStart_strip _ _ (stripWs_app _ _ _ E)), (trimStart_strip _ _ E).
    apply IH. unfold isBlank in *. now rewrite <- (trimStart_strip _ _ E).
Qed.

Lemma trimEnd_snoc_ws1 (s : string) (w : ascii) :
  isWs1 w = true -> trimEnd (s +:+ String w "") = trimEnd s.
Proof.
  intros W. induction s as [|c r IH].
  - apply trimEnd_blank. change (isBlank ("" +:+ String w "") = true).
    now rewrite (isBlank_snoc_ws1 "" w W).
  - change (String c r +:+ String w "") with (String c (r +:+ String w "")).
    simpl trimEnd.
    change (String c (r +:+ String w "")) with (String c r +:+ String w "").
    rewrite (isBlank_snoc_ws1 _ w W). rewrite IH. reflexivity.
Qed.

(** A white-space character of one byte after the text is trimmed away. *)
Lemma trim_snoc_ws1 (s : string) (w : ascii) :
  isWs1 w = true -> trim (s +:+ String w "") = trim s.
Proof.
  intros W. destruct (isBlank s) eqn:B.
  - rewrite (trim_blank _ B). apply trim_blank.
    now rewrite (isBlank_snoc_ws1 _ _ W).
  - unfold trim. rewrite (trimStart_snoc_ws1 _ _ W B). now apply trimEnd_snoc_ws1.
Qed.

Lemma mapLast_cons {A : Type} (f : A -> A) (x : A) (l : list A) :
  l <> [] -> mapLast f (x :: l) = x :: mapLast f l.
Proof. destruct l; [congruence | reflexivity]. Qed.

Lemma mapLast_nonempty {A : Type} (f : A -> A) (l : list A) :
  l <> [] -> mapLast f l <> [].
Proof. destruct l as [|x [|y l]]; simpl; congruence. Qed.

Lemma map_mapLast {A B : Type} (g : A -> B) (f : A -> A) (l : list A) :
  (forall x, g (f x) = g x) -> map g (mapLast f l) = map g l.
Proof.
  intros H. induction l as [|x [|y l] IH]; simpl in *; [reflexivity| |].
  - now rewrite H.
  - now rewrite IH.
Qed.

Lemma split_nonempty (sep : ascii) (s : string) : split sep s <> [].
Proof.
  induction s as [|c s IH]; simpl; [discriminate|].
  destruct (Ascii.eqb c sep); [discriminate|].
  destruct (split sep s); [congruence | discriminate].
Qed.

Lemma consHead_mapLast_snoc (c w : ascii) (l : list string) :
  l <> [] ->
  consHead c (mapLast (fun t => t +:+ String w "") l)
  = mapLast (fun t => t +:+ String w "") (consHead c l).
Proof. destruct l as [|x [|y l]]; [congruence | reflexivity | reflexivity]. Qed.

Lemma split_snoc (sep w : ascii) (s : string) :
  Ascii.eqb w sep = false ->
  split sep (s +:+ String w "") = mapLast (fun t => t +:+ String w "") (split sep s).
Proof.
  intros N. induction s as [|c s IH].
  - simpl. now rewrite N.
  - change (String c s +:+ String w "") with (String c (s +:+ String w "")).
    simpl. destruct (Ascii.eqb c sep).
    + rewrite IH. rewrite mapLast_cons; [reflexivity | apply split_nonempty].
    + rewrite IH. apply consHead_mapLast_snoc, split_nonempty.
Qed.

Lemma isCR_ws1 (c : ascii) : isCR c = true -> isWs1 c = true.
Proof.
  unfold isCR, isWs1. intros H. apply Nat.eqb_eq in H. rewrite H. reflexivity.
Qed.

Lemma isCR_not_comma (c : ascii) : isCR c = true -> Ascii.eqb c "," = false.
Proof.
  unfold isCR. intros H. apply Nat.eqb_eq in H.
  destruct (Ascii.eqb c ",") eqn:E; [|reflexivity].
  apply Ascii.eqb_eq in E. subst c. discriminate.
Qed.

Lemma dropFinalCR_cases (s : string) :
  dropFinalCR s = s
  \/ exists c, isCR c = true /\ s = dropFinalCR s +:+ String c "".
Proof.
  induction s as [|c r IH]; [now left|].
  simpl. destruct (isCR c && String.eqb r "") eqn:E.
  - right. apply andb_true_iff in E as [C R]. apply String.eqb_eq in R. subst r.
    exists c. now split.
  - destruct IH as [IH | [d [D IH]]].
    + left. now rewrite IH.
    + right. exists d. split; [exact D|]. simpl. now rewrite <- IH.
Qed.

Lemma csvTokens_dropFinalCR (line : string) :
  csvTokens (dropFinalCR line) = csvTokens line.
Proof.
  destruct (dropFinalCR_cases line) as [-> | [c [C E]]]; [reflexivity|].
  rewrite E at 2. unfold csvTokens.
  rewrite (split_snoc _ _ _ (isCR_not_comma _ C)).
  symmetry. apply map_mapLast. intros x. apply trim_snoc_ws1, isCR_ws1, C.
Qed.

Lemma splitLines_ind (P : string -> Prop) :
  P "" ->
  (forall c, P (String c "")) ->
  (forall c d r, P r -> P (String d r) -> P (String c (String d r))) ->
  forall s, P s.
Proof.
  intros H0 H1 H2 s.
  assert (H : P s /\ forall c, P (String c s)); [|exact (proj1 H)].
  induction s as [|d r [IHr IHd]]; split; auto.
Qed.

Lemma splitLines_two (c d : ascii) (r : string) :
  splitLines (String c (String d r))
  = if isLF c then "" :: splitLines (String d r)
    else if isCR c && isLF d then "" :: splitLines r
    else consHead c (splitLines (String d r)).
Proof. reflexivity. Qed.

Lemma splitLines_one (c : ascii) :
  splitLines (String c "") = if isLF c then [""; ""] else [String c ""].
Proof. reflexivity. Qed.

Lemma consHead_nonempty (c : ascii) (l : list string) : consHead c l <> [].
Proof. destruct l; discriminate. Qed.

Lemma splitLines_nonempty (s : string) : splitLines s <> [].
Proof.
  induction s as [|c|c d r _ IH] using splitLines_ind.
  - discriminate.
  - rewrite splitLines_one. destruct (isLF c); discriminate.
  - rewrite splitLines_two. destruct (isLF c); [discriminate|].
    destruct (isCR c && isLF d); [discriminate | apply consHead_nonempty].
Qed.

Lemma splitLines_single (s x : string) : splitLines s = [x] -> x = s.
Proof.
  revert x. induction s as [|c|c d r IHr IH] using splitLines_ind; intros x.
  - simpl. congruence.
  - rewrite splitLines_one. destruct (isLF c); congruence.
  - rewrite splitLines_two. destruct (isLF c).
    + intros H. injection H as _ H. destruct (splitLines_nonempty (String d r) H).
    + destruct (isCR c && isLF d).
      * intros H. injection H as _ H. destruct (splitLines_nonempty r H).
      * destruct (splitLines (String d r)) as [|y [|z l]] eqn:E; simpl; intros H.
        -- now apply splitLines_nonempty in E.
        -- injection H as <-. f_equal. now apply IH.
        -- discriminate.
Qed.

Lemma dropFinalCR_cons (c : ascii) (x : string) :
  x <> "" -> dropFinalCR (String c x) = String c (dropFinalCR x).
Proof.
  intros N. simpl. destruct (String.eqb x "") eqn:E.
  - apply String.eqb_eq in E. congruence.
  - now rewrite andb_false_r.
Qed.

Lemma consHead_mapLast_dropFinalCR (c : ascii) (s : string) :
  s <> "" ->
  consHead c (mapLast dropFinalCR (splitLines s) ++ [""])
  = mapLast dropFinalCR (consHead c (splitLines s)) ++ [""].
Proof.
  intros N. destruct (splitLines s) as [|x [|y l]] eqn:E.
  - now apply splitLines_nonempty in E.
  - apply splitLines_single in E. subst x.
    change (String c (dropFinalCR s) :: [""] = [dropFinalCR (String c s)] ++ [""]).
    rewrite (dropFinalCR_cons _ _ N). reflexivity.
  - reflexivity.
Qed.

(** A line feed after the text ends its last line, taking a carriage
    return before it along, and opens an empty one. *)
Lemma splitLines_snoc_LF (t : string) :
  splitLines (t +:+ LF) = mapLast dropFinalCR (splitLines t) ++ [""].
Proof.
  induction t as [|c|c d r IHr IH] using splitLines_ind.
  - reflexivity.
  - change (String c "" +:+ LF) with (String c LF).
    unfold LF, ofCodes. simpl fold_right.
    rewrite splitLines_two, (splitLines_one c).
    change (splitLines (String (ascii_of_nat 10) "")) with [""; ""].
    change (isLF (ascii_of_nat 10)) with true. rewrite andb_true_r.
    destruct (isLF c); [reflexivity|].
    simpl. destruct (isCR c); reflexivity.
  - change (String c (String d r) +:+ LF) with (String c (String d (r +:+ LF))).
    rewrite !splitLines_two.
    change (String d (r +:+ LF)) with (String d r +:+ LF).
    destruct (isLF c).
    + rewrite IH. rewrite mapLast_cons by apply splitLines_nonempty. reflexivity.
    + destruct (isCR c && isLF d).
      * rewrite IHr. rewrite mapLast_cons by apply splitLines_nonempty. reflexivity.
      * rewrite IH. apply consHead_mapLast_dropFinalCR. discriminate.
Qed.

Lemma last_snoc {A : Type} (l : list A) (x d : A) : List.last (l ++ [x]) d = x.
Proof.
  induction l as [|y l IH]; [reflexivity|].
  simpl app. destruct (l ++ [x]) eqn:E; [destruct l; discriminate|].
  simpl. exact IH.
Qed.

Lemma removelast_snoc {A : Type} (l : list A) (x : A) : removelast (l ++ [x]) = l.
Proof.
  induction l as [|y l IH]; [reflexivity|].
  simpl app. simpl. destruct (l ++ [x]) eqn:E; [destruct l; discriminate|].
  now rewrite IH.
Qed.

Lemma keptLines (P : string -> bool) (i n : nat) (l : list string) :
  l <> [] -> n = i + length l ->
  map snd (filter (fun p : nat * string => negb ((fst p =? n - 1) && P (snd p)))
                  (mapIndexed (fun idx line => (idx, line)) i l))
  = if P (List.last l "") then removelast l else l.
Proof.
  revert i. induction l as [|x [|y l] IH]; intros i N E; [congruence| |].
  - simpl. rewrite filter_cons. simpl.
    replace (i =? n - 1) with true by (symmetry; apply Nat.eqb_eq; simpl in E; lia).
    simpl. destruct (P x); simpl; reflexivity.
  - change (mapIndexed (fun idx line => (idx, line)) i (x :: y :: l))
      with ((i, x) :: mapIndexed (fun idx line => (idx, line)) (S i) (y :: l)).
    rewrite filter_cons. simpl fst. simpl snd.
    replace (i =? n - 1) with false
      by (symmetry; apply Nat.eqb_neq; simpl in E; lia).
    simpl negb. destruct (decide (Is_true true)) as [_|F]; [|exfalso; apply F; exact I].
    rewrite map_cons. rewrite (IH (S i)); [|discriminate | simpl in *; lia].
    simpl snd.
    change (List.last (x :: y :: l) "") with (List.last (y :: l) "").
    destruct (P (List.last (y :: l) "")); reflexivity.
Qed.

Lemma parseCsvMatrix_lines (text : string) :
  parseCsvMatrix text = map csvTokens (csvLines (splitLines text)).
Proof.
  unfold parseCsvMatrix, csvLines.
  rewrite <- (keptLines (fun line => String.eqb (trim line) "") 0
                (length (splitLines text)) (splitLines text)
                (splitLines_nonempty text) eq_refl).
  rewrite map_map. reflexivity.
Qed.

Lemma csvTokens_clean (line : string) : Forall noOuterSpace (csvTokens line).
Proof.
  unfold csvTokens. apply Forall_forall. intros x Hx.
  apply list_elem_of_In, in_map_iff in Hx. destruct Hx as [y [<- _]].
  apply trim_noOuterSpace.
Qed.

(** C10: [parseCsv] trims every cell token and leaves out the last source
    line exactly when it is blank after trimming; so no cell of the matrix
    has white space at either end, and a text that ends in a line feed
    gets the rows of the lines before it and none for the empty line after
    it. *)
Theorem parseCsv_trims_cells_and_drops_blank_last_line (text : string) :
  parseCsv text
  = JObj [("dataKind", JStr "csv");
          ("matrix", jsonMatrix
                       (map csvTokens (csvLines (splitLines text))));
          ("text", JStr text)]
  /\ Forall (Forall noOuterSpace) (parseCsvMatrix text)
  /\ parseCsvMatrix (text +:+ LF) = map csvTokens (splitLines text).
Proof.
  split; [|split].
  - unfold parseCsv. now rewrite parseCsvMatrix_lines.
  - rewrite parseCsvMatrix_lines. apply Forall_forall. intros row Hrow.
    apply list_elem_of_In, in_map_iff in Hrow. destruct Hrow as [line [<- _]].
    apply csvTokens_clean.
  - rewrite parseCsvMatrix_lines, splitLines_snoc_LF. unfold csvLines.
    rewrite last_snoc, removelast_snoc. simpl.
    apply map_mapLast, csvTokens_dropFinalCR.
Qed.

(** * Objects *)


Lemma objGet_objUpdate (k j : string) (v : json) (o : list (string * json)) :
  objGet j (objUpdate k v o)
  = if String.eqb k j then (if objHas k o then Some v else None) else objGet j o.
Proof.
  unfold objHas. induction o as [|[k' v'] o IH]; simpl.
  - now destruct (String.eqb k j).
  - destruct (String.eqb k' k) eqn:E.
    + apply String.eqb_eq in E. subst k'. simpl.
      destruct (String.eqb k j); reflexivity.
    + simpl. rewrite IH. destruct (String.eqb k j) eqn:E2; [|reflexivity].
      apply String.eqb_eq in E2. subst j. now rewrite E.
Qed.

Lemma objGet_objInsert (k j : string) (v : json) (o : list (string * json)) :
  objHas k o = false ->
  objGet j (objInsert k v o) = if String.eqb k j then Some v else objGet j o.
Proof.
  unfold objHas. induction o as [|[k' v'] o IH]; simpl; intros H.
  - reflexivity.
  - destruct (String.eqb k' k) eqn:E; [discriminate|].
    destruct (precedes k k'); simpl.
    + destruct (String.eqb k j) eqn:E2; [reflexivity|]. reflexivity.
    + rewrite (IH H). destruct (String.eqb k j) eqn:E2; [|reflexivity].
      apply String.eqb_eq in E2. subst j. now rewrite E.
Qed.

(** Reading a property after an assignment. *)
Lemma objGet_objSet (k j : string) (v : json) (o : list (string * json)) :
  objGet j (objSet k v o) = if String.eqb k j then Some v else objGet j o.
Proof.
  unfold objSet. destruct (objHas k o) eqn:H.
  - rewrite objGet_objUpdate, H. reflexivity.
  - now apply objGet_objInsert.
Qed.

Lemma objGet_objSet_eq (k : string) (v : json) (o : list (string * json)) :
  objGet k (objSet k v o) = Some v.
Proof. rewrite objGet_objSet. now rewrite String.eqb_refl. Qed.

Lemma objGet_objSet_ne (k j : string) (v : json) (o : list (string * json)) :
  k <> j -> objGet j (objSet k v o) = objGet j o.
Proof.
  intros N. rewrite objGet_objSet. destruct (String.eqb k j) eqn:E; [|reflexivity].
  apply String.eqb_eq in E. congruence.
Qed.

Lemma objGet_Some_In (k : string) (v : json) (o : list (string * json)) :
  objGet k o = Some v -> In (k, v) o.
Proof.
  induction o as [|[k' v'] o IH]; simpl; [discriminate|].
  destruct (String.eqb k' k) eqn:E.
  - apply String.eqb_eq in E. intros H. injection H as ->. subst. now left.
  - intros H. right. now apply IH.
Qed.

Lemma objGet_None_iff (k : string) (o : list (string * json)) :
  objGet k o = None <-> ~ In k (objKeys o).
Proof.
  unfold objKeys. induction o as [|[k' v'] o IH]; simpl.
  - tauto.
  - destruct (String.eqb k' k) eqn:E.
    + apply String.eqb_eq in E. subst. split; [discriminate | tauto].
    + apply String.eqb_neq in E. rewrite IH. tauto.
Qed.

Lemma objGet_key (k : string) (o : list (string * json)) :
  In k (objKeys o) -> exists v, objGet k o = Some v.
Proof.
  intros H. destruct (objGet k o) as [v|] eqn:E; [now exists v|].
  now apply objGet_None_iff in E.
Qed.

Lemma objGet_objDelete (k j : string) (o : list (string * json)) :
  objGet j (objDelete k o) = if String.eqb k j then None else objGet j o.
Proof.
  unfold objDelete. induction o as [|[k' v'] o IH].
  - now destruct (String.eqb k j).
  - rewrite filter_cons. simpl fst.
    destruct (String.eqb k' k) eqn:E; simpl.
    + apply String.eqb_eq in E. subst k'.
      destruct (decide (Is_true false)) as [F|_]; [destruct F|].
      rewrite IH. destruct (String.eqb k j); reflexivity.
    + destruct (decide (Is_true true)) as [_|F]; [|exfalso; apply F; exact I].
      simpl. rewrite IH. destruct (String.eqb k' j) eqn:E2; [|reflexivity].
      apply String.eqb_eq in E2. subst j.
      rewrite String.eqb_sym, E. reflexivity.
Qed.

(** ** Assignment *)

Lemma objAssign_proto (v : json) (o : list (string * json)) :
  objHas protoKey o = false -> objAssign protoKey v o = o.
Proof. unfold objAssign. intros ->. now rewrite String.eqb_refl. Qed.

Lemma objAssign_other (k : string) (v : json) (o : list (string * json)) :
  k <> protoKey -> objAssign k v o = objSet k v o.
Proof.
  unfold objAssign. intros N. apply String.eqb_neq in N. now rewrite N.
Qed.

(** Reading a property of an object that does not own the prototype
    name, after an assignment. *)
Lemma objGet_objAssign (k j : string) (v : json) (o : list (string * json)) :
  objHas protoKey o = false ->
  objGet j (objAssign k v o)
  = if String.eqb k protoKey then objGet j o
    else if String.eqb k j then Some v else objGet j o.
Proof.
  intros H. destruct (String.eqb k protoKey) eqn:E.
  - apply String.eqb_eq in E. subst k. now rewrite objAssign_proto.
  - apply String.eqb_neq in E. rewrite objAssign_other by exact E. apply objGet_objSet.
Qed.

Lemma objAssign_keeps_no_proto (k : string) (v : json) (o : list (string * json)) :
  objHas protoKey o = false -> objHas protoKey (objAssign k v o) = false.
Proof.
  intros H. unfold objHas. rewrite objGet_objAssign by exact H.
  destruct (String.eqb k protoKey); exact H.
Qed.

(** * The shape detector *)


Lemma isPrimitive_iff (v : json) : isPrimitive v = true <-> Primitive v.
Proof. destruct v; simpl; intuition discriminate. Qed.

Lemma forallb_Forall {A : Type} (p : A -> bool) (P : A -> Prop) (l : list A) :
  (forall x, p x = true <-> P x) -> forallb p l = true <-> Forall P l.
Proof.
  intros H. induction l as [|x l IH]; simpl.
  - split; [constructor | reflexivity].
  - rewrite andb_true_iff, H, IH. split.
    + intros [? ?]. now constructor.
    + intros F. inversion F. now split.
Qed.

Lemma isArrayOfPrimitives_iff (v : json) :
  isArrayOfPrimitives v = true <-> PrimitiveArray v.
Proof.
  unfold PrimitiveArray. destruct v; simpl;
    try (split; [discriminate | intros [items [E _]]; discriminate]).
  rewrite (forallb_Forall isPrimitive Primitive items isPrimitive_iff).
  split.
  - intros F. now exists items.
  - intros [l [E F]]. now injection E as ->.
Qed.

Lemma cellValue_iff (v : json) :
  isPrimitive v || (allowArrayOfPrimitives RULES && isArrayOfPrimitives v) = true
  <-> CellValue v.
Proof.
  unfold CellValue. simpl. rewrite orb_true_iff, isPrimitive_iff, isArrayOfPrimitives_iff.
  reflexivity.
Qed.

Lemma isPlainObject_iff (v : json) : isPlainObject v = true <-> PlainObject v.
Proof.
  unfold PlainObject. destruct v; simpl;
    try (split; [discriminate | intros [o E]; discriminate]).
  split; [intros _; now exists props | reflexivity].
Qed.

Lemma objDelete_otherProperties (name : string) (o : list (string * json)) :
  objDelete name o = otherProperties name o.
Proof.
  unfold objDelete, otherProperties. induction o as [|[k v] o IH]; [reflexivity|].
  rewrite !filter_cons. simpl fst. rewrite IH.
  destruct (String.eqb k name) eqn:E; simpl.
  - apply String.eqb_eq in E. subst k.
    destruct (decide (Is_true false)) as [F|_]; [destruct F|].
    destruct (decide (name <> name)); [congruence | reflexivity].
  - apply String.eqb_neq in E.
    destruct (decide (Is_true true)) as [_|F]; [|exfalso; apply F; exact I].
    destruct (decide (k <> name)); [reflexivity | contradiction].
Qed.

Lemma wrapperArray_Some (content : json) o data :
  wrapperArray "data" content = Some (o, data)
  <-> content = JObj o /\ objGet "data" o = Some (JArr data).
Proof.
  unfold wrapperArray. destruct content; try (split; [discriminate | intros [? ?]; discriminate]).
  destruct (objGet "data" props) as [[]|] eqn:E; split;
    try discriminate; try (intros [H1 H2]; injection H1 as ->; congruence).
  intros H. injection H as <- <-. now split.
Qed.

Lemma wrapperArray_None (o : list (string * json)) :
  wrapperArray "data" (JObj o) = None <-> ~ HasArrayAt "data" o.
Proof.
  unfold wrapperArray, HasArrayAt.
  destruct (objGet "data" o) as [[]|]; split; try discriminate; try reflexivity;
    try (intros _ [data E]; discriminate).
  intros H. exfalso. apply H. now exists items.
Qed.

Lemma detects_validateAndExtract (content : json) :
  Detects content (validateAndExtract content).
Proof.
  unfold validateAndExtract. simpl optionalArrayWrapperProperty.
  destruct (wrapperArray "data" content) as [[o data]|] eqn:W.
  - apply wrapperArray_Some in W as [-> W]. rewrite objDelete_otherProperties.
    now constructor.
  - destruct content; try (now apply detects_other).
    + apply detects_array.
    + apply wrapperArray_None in W.
      destruct (forallb _ (objValues props)) eqn:F1.
      * apply detects_keyValue; [exact W|].
        now apply (forallb_Forall _ _ _ cellValue_iff).
      * assert (N1 : ~ Forall CellValue (objValues props)).
        { intros F. apply (forallb_Forall _ _ _ cellValue_iff) in F. congruence. }
        destruct (forallb isPlainObject (objValues props)) eqn:F2.
        -- apply detects_objectOfObjects; [exact W | exact N1 |].
           now apply (forallb_Forall _ _ _ isPlainObject_iff).
        -- apply detects_mixed; [exact W | exact N1 |].
           intros F. apply (forallb_Forall _ _ _ isPlainObject_iff) in F. congruence.
Qed.

Lemma detects_functional (content : json) (r1 r2 : validation) :
  Detects content r1 -> Detects content r2 -> r1 = r2.
Proof.
  intros D1 D2.
  destruct D1; inversion D2; subst; try reflexivity;
    try contradiction;
    try match goal with H : Primitive (JObj _) |- _ => destruct H end;
    try match goal with H : Primitive (JArr _) |- _ => destruct H end;
    try (exfalso; match goal with
                  | H : ~ HasArrayAt _ _ |- _ => apply H; eexists; eassumption
                  end).
  congruence.
Qed.


(** * The flatteners *)

Lemma flattenRowField_cases (o : list (string * json)) out errors key :
  flattenRowField o (out, errors) key
  = if rejected o key
    then (out, errors ++ [rejectionAt nestedObjectAt (fun k => k) o key])
    else (storeFlat o out key, errors).
Proof.
  unfold flattenRowField, rejected, storeFlat, rejectionAt.
  destruct (objGet key o) as [v|]; [|reflexivity].
  destruct v as [| | | |items|props]; simpl; try reflexivity.
  destruct (forallb isPrimitive items); reflexivity.
Qed.

Lemma flattenInnerField_cases (o : list (string * json)) parent out errors key :
  flattenInnerField o parent (out, errors) key
  = if rejected o key
    then (out, errors ++ [rejectionAt nestedTooDeepAt
                            (fun k => parent +:+ "." +:+ k) o key])
    else (storeFlat o out key, errors).
Proof.
  unfold flattenInnerField, rejected, storeFlat, rejectionAt.
  destruct (objGet key o) as [v|]; [|reflexivity].
  destruct v as [| | | |items|props]; simpl; try reflexivity.
  destruct (forallb isPrimitive items); reflexivity.
Qed.

(** The loop of a flattener keeps the accepted fields and collects one
    message for every rejected one. *)
Lemma flatten_fold (step : list (string * json) * list string -> string
                           -> list (string * json) * list string)
    (msg : string -> string) (o : list (string * json)) :
  (forall out errors key,
      step (out, errors) key
      = if rejected o key then (out, errors ++ [msg key])
        else (storeFlat o out key, errors)) ->
  forall keys out errors,
    fold_left step keys (out, errors)
    = (fold_left (storeFlat o) (List.filter (fun k => negb (rejected o k)) keys) out,
       errors ++ map msg (List.filter (rejected o) keys)).
Proof.
  intros Hstep keys. induction keys as [|k keys IH]; intros out errors; simpl.
  - now rewrite app_nil_r.
  - rewrite Hstep. destruct (rejected o k); simpl.
    + rewrite IH. now rewrite <- app_assoc.
    + now rewrite IH.
Qed.

Lemma storeFlat_keeps_no_proto (o out : list (string * json)) (k : string) :
  objHas protoKey out = false -> objHas protoKey (storeFlat o out k) = false.
Proof.
  intros H. unfold storeFlat. destruct (objGet k o); [|exact H].
  now apply objAssign_keeps_no_proto.
Qed.

Lemma storeFlat_fold_no_proto (o : list (string * json)) (keys : list string) :
  forall out,
    objHas protoKey out = false ->
    objHas protoKey (fold_left (storeFlat o) keys out) = false.
Proof.
  induction keys as [|k keys IH]; intros out H; [exact H|].
  simpl. apply IH. now apply storeFlat_keeps_no_proto.
Qed.

Lemma storeFlat_fold_get (o : list (string * json)) (keys : list string) :
  (forall k, In k keys -> In k (objKeys o)) ->
  forall out j,
    objHas protoKey out = false ->
    j <> protoKey ->
    objGet j (fold_left (storeFlat o) keys out)
    = if existsb (String.eqb j) keys then flatValue <$> objGet j o else objGet j out.
Proof.
  induction keys as [|k keys IH]; intros Hkeys out j P N; [reflexivity|].
  simpl fold_left. simpl existsb.
  rewrite IH;
    [|intros; apply Hkeys; now right | now apply storeFlat_keeps_no_proto | exact N].
  destruct (objGet_key k o (Hkeys k (or_introl eq_refl))) as [v Ev].
  assert (S : storeFlat o out k = objAssign k (flatValue v) out)
    by (unfold storeFlat; now rewrite Ev).
  rewrite S. destruct (existsb (String.eqb j) keys); [now rewrite orb_true_r|].
  rewrite orb_false_r. rewrite objGet_objAssign by exact P.
  rewrite (String.eqb_sym k j).
  destruct (String.eqb j k) eqn:E.
  - apply String.eqb_eq in E. subst k. apply String.eqb_neq in N.
    now rewrite N, Ev.
  - now destruct (String.eqb k protoKey).
Qed.

Lemma existsb_eqb_In (j : string) (keys : list string) :
  existsb (String.eqb j) keys = true <-> In j keys.
Proof.
  rewrite existsb_exists. split.
  - intros [x [I E]]. apply String.eqb_eq in E. now subst.
  - intros I. exists j. split; [exact I | apply String.eqb_refl].
Qed.

Lemma filter_all {A : Type} (p : A -> bool) (l : list A) :
  List.filter p l = [] -> List.filter (fun x => negb (p x)) l = l.
Proof.
  induction l as [|x l IH]; simpl; [reflexivity|].
  destruct (p x); simpl; [discriminate|]. intros H. now rewrite IH.
Qed.

Lemma rejection_mentions (nested : string -> string) (keyPath : string) (v : json) :
  (forall k, mentions (quoted k) (nested k)) ->
  mentions (quoted keyPath) (rejection nested keyPath v).
Proof.
  intros Hn. destruct v; simpl; try apply Hn;
    try (now exists "Unsupported value type at ", ".").
  now exists "Unsupported array value at ",
             ". Only arrays of primitive values are supported.".
Qed.

Lemma nestedObjectAt_mentions (k : string) : mentions (quoted k) (nestedObjectAt k).
Proof. unfold nestedObjectAt. eexists _, _. reflexivity. Qed.

Lemma nestedTooDeepAt_mentions (k : string) : mentions (quoted k) (nestedTooDeepAt k).
Proof. unfold nestedTooDeepAt. eexists _, _. reflexivity. Qed.

Lemma rejected_messages (nested : string -> string) (path : string -> string)
    (o : list (string * json)) (keys : list string) :
  (forall k, mentions (quoted k) (nested k)) ->
  Forall2 (fun key msg => mentions (quoted (path key)) msg)
          (List.filter (rejected o) keys)
          (map (rejectionAt nested path o) (List.filter (rejected o) keys)).
Proof.
  intros Hn. induction keys as [|k keys IH]; simpl; [constructor|].
  destruct (rejected o k) eqn:R; [|exact IH].
  simpl. constructor; [|exact IH].
  unfold rejectionAt. unfold rejected in R.
  destruct (objGet k o); [|discriminate]. now apply rejection_mentions.
Qed.

(** The test of the code and the words of the specification agree on the
    fields that are rejected. *)
Lemma rejected_Refused (o : list (string * json)) (key : string) :
  rejected o key = true <-> Refused o key.
Proof.
  unfold rejected, Refused. destruct (objGet key o) as [v|].
  - pose proof (cellValue_iff v) as C. simpl in C.
    destruct (isPrimitive v || isArrayOfPrimitives v) eqn:B; simpl; split.
    + discriminate.
    + intros [v' [E N]]. injection E as <-. exfalso. apply N, C. reflexivity.
    + intros _. exists v. split; [reflexivity|]. intros H. apply C in H. discriminate.
    + reflexivity.
  - split; [discriminate | intros [v [E _]]; discriminate].
Qed.

Lemma rejectedAmong_filter (o : list (string * json)) (keys : list string) :
  RejectedAmong o keys (List.filter (rejected o) keys).
Proof.
  induction keys as [|k keys IH]; simpl; [constructor|].
  destruct (rejected o k) eqn:R.
  - apply rejected_this; [now apply rejected_Refused | exact IH].
  - apply rejected_next; [|exact IH]. intros H. apply rejected_Refused in H. congruence.
Qed.

(** What a flattener returns for an object, by its rejected keys. *)
Lemma flatten_outcome (nested : string -> string) (path : string -> string)
    (o : list (string * json)) (res : list (string * json) * list string) :
  (forall k, mentions (quoted k) (nested k)) ->
  res = (fold_left (storeFlat o)
           (List.filter (fun k => negb (rejected o k)) (objKeys o)) [],
         [] ++ map (rejectionAt nested path o) (List.filter (rejected o) (objKeys o))) ->
  exists bad,
    RejectedAmong o (objKeys o) bad
    /\ match (let '(out, errors) := res in
              match errors with [] => FlatOk out | _ => FlatErrors errors end) with
       | FlatOk flat =>
           bad = []
           /\ objGet protoKey flat = None
           /\ forall key, key <> protoKey -> objGet key flat = flatValue <$> objGet key o
       | FlatErrors errors =>
           bad <> []
           /\ Forall2 (fun key msg => mentions (quoted (path key)) msg) bad errors
       end.
Proof.
  intros Hn ->. simpl app. exists (List.filter (rejected o) (objKeys o)).
  split; [apply rejectedAmong_filter|].
  pose proof (rejected_messages nested path o (objKeys o) Hn) as HF.
  pose proof (filter_all (rejected o) (objKeys o)) as HA.
  destruct (List.filter (rejected o) (objKeys o)) as [|k bad].
  - simpl. split; [reflexivity|]. rewrite (HA eq_refl). split.
    + pose proof (storeFlat_fold_no_proto o (objKeys o) [] eq_refl) as P.
      unfold objHas in P. now destruct (objGet protoKey _).
    + intros key N. rewrite storeFlat_fold_get by (auto || reflexivity).
      destruct (existsb (String.eqb key) (objKeys o)) eqn:I; [reflexivity|].
      assert (E : objGet key o = None).
      { apply objGet_None_iff. intros H. apply existsb_eqb_In in H. congruence. }
      now rewrite E.
  - simpl map in *. cbv iota. split; [discriminate | exact HF].
Qed.

(** X19: the flatteners on an object.  The fields rejected are those
    whose value is neither a primitive nor an array of primitives.  When
    there is none, the flattener succeeds, and the flat object holds
    every field of the object under its key, a primitive as it is and an
    array of primitives as its JSON text; the field named as the
    accessor of the prototype is set apart: the flat object never holds
    it.  When there are some, the flattener fails with one error for
    each rejected field, in the order of the keys, and each error names
    in quotes the key ([flattenRowObject]) or the parent, a dot and the
    key ([flattenInnerObject]).  So the row with an object at [a] is
    refused with one error that names [a]. *)
Theorem flatteners_collect_errors_naming_the_key :
  (forall v, Primitive v -> flatValue v = v)
  /\ (forall items, flatValue (JArr items) = JStr (stringify (JArr items)))
  /\ (forall o,
        exists bad,
          RejectedAmong o (objKeys o) bad
          /\ match flattenRowObject (JObj o) with
             | FlatOk flat =>
                 bad = []
                 /\ objGet protoKey flat = None
                 /\ forall key, key <> protoKey ->
                                objGet key flat = flatValue <$> objGet key o
             | FlatErrors errors =>
                 bad <> []
                 /\ Forall2 (fun key msg => mentions (quoted key) msg) bad errors
             end)
  /\ (forall o parent,
        exists bad,
          RejectedAmong o (objKeys o) bad
          /\ match flattenInnerObject (JObj o) parent with
             | FlatOk flat =>
                 bad = []
                 /\ objGet protoKey flat = None
                 /\ forall key, key <> protoKey ->
                                objGet key flat = flatValue <$> objGet key o
             | FlatErrors errors =>
                 bad <> []
                 /\ Forall2 (fun key msg => mentions (quoted (parent +:+ "." +:+ key)) msg)
                            bad errors
             end)
  /\ (exists msg, flattenRowObject nestedRow = FlatErrors [msg]
                  /\ mentions (quoted "a") msg).
Proof.
  split; [intros v; destruct v; simpl; tauto|].
  split; [reflexivity|].
  split; [|split].
  - intros o. unfold flattenRowObject.
    apply (flatten_outcome nestedObjectAt (fun k => k) o _ nestedObjectAt_mentions).
    apply flatten_fold. intros. apply flattenRowField_cases.
  - intros o parent. unfold flattenInnerObject.
    apply (flatten_outcome nestedTooDeepAt (fun k => parent +:+ "." +:+ k) o _
             nestedTooDeepAt_mentions).
    apply flatten_fold. intros. apply flattenInnerField_cases.
  - eexists. split; [vm_compute; reflexivity|]. apply nestedObjectAt_mentions.
Qed.

(** C7: at a row that holds a primitive field under the name of the
    prototype accessor, as a JSON document can, both flatteners succeed
    and the flat object they return does not hold that field: the
    assignment that should copy it creates no property.  The claim has
    every primitive field copied unchanged. *)
Theorem flatteners_drop_the_proto_field :
  flattenRowObject protoRow = FlatOk [("a", JNum (Number "2"))]
  /\ flattenInnerObject protoRow "k" = FlatOk [("a", JNum (Number "2"))]
  /\ exists o, protoRow = JObj o
               /\ objGet protoKey o = Some (JNum (Number "1"))
               /\ Primitive (JNum (Number "1")).
Proof.
  split; [vm_compute; reflexivity|]. split; [vm_compute; reflexivity|].
  eexists. split; [reflexivity|]. split; [vm_compute; reflexivity | exact I].
Qed.

(** * The type map across a serialize pass *)

Lemma foldIndexed_visits {A St : Type} (step : St -> nat -> A -> St)
    (tmOf : St -> gmap string typeTag) (vis : nat -> A -> list visit) :
  (forall s i x, tmOf (step s i x) = fold_left record (vis i x) (tmOf s)) ->
  forall l i s,
    tmOf (foldIndexed step i l s)
    = fold_left record (concat (mapIndexed vis i l)) (tmOf s).
Proof.
  intros H l. induction l as [|x l IH]; intros i s; simpl; [reflexivity|].
  rewrite IH, H. now rewrite fold_left_app.
Qed.

Lemma mapIndexed_map {A B C : Type} (f : nat -> A -> B) (g : B -> C) (i : nat) (l : list A) :
  map g (mapIndexed f i l) = mapIndexed (fun i x => g (f i x)) i l.
Proof.
  revert i. induction l as [|x l IH]; intros i; simpl; [reflexivity | now rewrite IH].
Qed.

Lemma mapIndexed_ext {A B : Type} (f g : nat -> A -> B) (i : nat) (l : list A) :
  (forall i x, f i x = g i x) -> mapIndexed f i l = mapIndexed g i l.
Proof.
  intros H. revert i. induction l as [|x l IH]; intros i; simpl; [reflexivity|].
  now rewrite H, IH.
Qed.

Lemma mapIndexed_length {A B : Type} (f : nat -> A -> B) (i : nat) (l : list A) :
  length (mapIndexed f i l) = length l.
Proof.
  revert i. induction l as [|x l IH]; intros i; simpl; [reflexivity | now rewrite IH].
Qed.

Lemma concat_singletons {A B : Type} (f : nat -> A -> B) (i : nat) (l : list A) :
  concat (mapIndexed (fun i x => [f i x]) i l) = mapIndexed f i l.
Proof.
  revert i. induction l as [|x l IH]; intros i; simpl; [reflexivity | now rewrite IH].
Qed.

Lemma castCell_record (raw path : string) (tm : gmap string typeTag) :
  snd (castCell raw path tm) = record tm (path, raw).
Proof. reflexivity. Qed.

Lemma castCell_fst (raw path : string) (tm : gmap string typeTag) :
  fst (castCell raw path tm) = fst (castWithType raw (hintAt tm path)).
Proof. unfold castCell. now destruct (castWithType raw (hintAt tm path)). Qed.

Lemma castCell_pair (raw path : string) (tm : gmap string typeTag) :
  castCell raw path tm
  = (fst (castWithType raw (hintAt tm path)), record tm (path, raw)).
Proof.
  rewrite <- castCell_fst, <- castCell_record. now destruct (castCell raw path tm).
Qed.

Lemma hintAt_own (tm : gmap string typeTag) (path : string) (h : typeTag) :
  tm !! path = Some h -> hintAt tm path = Some h.
Proof. unfold hintAt. now intros ->. Qed.

Lemma hintAt_plain (tm : gmap string typeTag) (path : string) :
  inherited path = false -> hintAt tm path = tm !! path.
Proof. unfold hintAt. intros ->. now destruct (tm !! path). Qed.

Lemma inherited_false (path : string) :
  inherited path = false <-> ~ In path inheritedNames.
Proof.
  unfold inherited. destruct (existsb (String.eqb path) inheritedNames) eqn:E.
  - apply existsb_eqb_In in E. split; [discriminate | contradiction].
  - split; [|reflexivity]. intros _ H. apply existsb_eqb_In in H. congruence.
Qed.

Lemma inherited_proto (path : string) : inherited path = false -> path <> protoKey.
Proof. intros H ->. discriminate H. Qed.

(** No inherited name holds a dot, a comma or a bracket: the paths of
    the table, key/object and csv branches are never inherited names. *)
Lemma inherited_letters (path : string) (sep : ascii) :
  In sep ["."; ","; "["]%char ->
  containsChar (fun c => Ascii.eqb c sep) path = true ->
  inherited path = false.
Proof.
  intros S C. apply inherited_false. intros H.
  simpl in H, S.
  repeat (destruct H as [<-|H]; [destruct S as [<-|[<-|[<-|[]]]]; discriminate C|]).
  destruct H.
Qed.

Lemma containsChar_append (p : ascii -> bool) (a b : string) :
  containsChar p (a +:+ b) = containsChar p a || containsChar p b.
Proof.
  induction a as [|c a IH]; simpl; [reflexivity|]. now rewrite IH, orb_assoc.
Qed.

Lemma fieldPath_plain (r : nat) (header : string) : inherited (fieldPath r header) = false.
Proof. reflexivity. Qed.

Lemma rowPath_plain (r : nat) : inherited (rowPath r) = false.
Proof. reflexivity. Qed.

Lemma dotted_plain (key field : string) : inherited (key +:+ "." +:+ field) = false.
Proof.
  apply (inherited_letters _ "."%char); [now left|].
  rewrite containsChar_append. simpl. apply orb_true_r.
Qed.

Lemma csvPath_plain (r c : nat) : inherited (csvPath r c) = false.
Proof.
  apply (inherited_letters _ ","%char); [right; now left|].
  unfold csvPath. rewrite containsChar_append. simpl. apply orb_true_r.
Qed.

(** ** The rows of a table, array shape *)

Lemma arrayField_typeMap (r : nat) (row : slots json) acc (c : nat) (header : string) :
  snd (arrayField r row acc c header)
  = record (snd acc) (fieldPath r header, getCellText (at_ row c)).
Proof.
  destruct acc as [[rowObj hasValue] tm]. unfold arrayField.
  rewrite castCell_pair. now destruct (nonEmpty _).
Qed.

Lemma wrappedField_typeMap (r : nat) (row : slots json) acc (c : nat) (header : string) :
  snd (wrappedField r row acc c header)
  = record (snd acc) (fieldPath r header, getCellText (at_ row c)).
Proof.
  destruct acc as [[rowObj hasValue] tm]. unfold wrappedField.
  now rewrite castCell_pair.
Qed.

Lemma tableVisits_concat (headers : list string) (r : nat) (row : slots json) :
  concat (mapIndexed (fun c header => [(fieldPath r header, getCellText (at_ row c))])
                     0 headers)
  = tableVisits headers r row.
Proof.
  unfold tableVisits, headerCellTexts. rewrite concat_singletons, mapIndexed_map.
  reflexivity.
Qed.

Lemma arrayFields_typeMap (r : nat) (row : slots json) (headers : list string) acc :
  snd (foldIndexed (arrayField r row) 0 headers acc)
  = fold_left record (tableVisits headers r row) (snd acc).
Proof.
  rewrite <- tableVisits_concat.
  apply (foldIndexed_visits (arrayField r row) snd
           (fun c header => [(fieldPath r header, getCellText (at_ row c))])).
  intros s i x. now rewrite arrayField_typeMap.
Qed.

Lemma wrappedFields_typeMap (r : nat) (row : slots json) (headers : list string) acc :
  snd (foldIndexed (wrappedField r row) 0 headers acc)
  = fold_left record (tableVisits headers r row) (snd acc).
Proof.
  rewrite <- tableVisits_concat.
  apply (foldIndexed_visits (wrappedField r row) snd
           (fun c header => [(fieldPath r header, getCellText (at_ row c))])).
  intros s i x. now rewrite wrappedField_typeMap.
Qed.

Lemma arrayRow_typeMap (scalars : bool) (headers : list string) acc (r : nat) row :
  snd (arrayRow scalars headers acc r row)
  = fold_left record
      (if scalars then [(rowPath r, getCellText (secondOrFirst (rowOf row)))]
       else tableVisits headers r (rowOf row)) (snd acc).
Proof.
  destruct acc as [rows tm]. unfold arrayRow. destruct scalars.
  - rewrite castCell_pair. now destruct (nonEmpty _).
  - pose proof (arrayFields_typeMap r (rowOf row) headers ([], false, tm)) as H.
    destruct (foldIndexed _ 0 headers _) as [[rowObj hasValue] tm'].
    simpl in H. now destruct hasValue.
Qed.

Lemma wrappedRow_typeMap (headers : list string) acc (r : nat) row :
  snd (wrappedRow headers acc r row)
  = fold_left record (tableVisits headers r (rowOf row)) (snd acc).
Proof.
  destruct acc as [rows tm]. unfold wrappedRow.
  pose proof (wrappedFields_typeMap r (rowOf row) headers ([], false, tm)) as H.
  destruct (foldIndexed _ 0 headers _) as [[rowObj hasValue] tm'].
  simpl in H. now destruct hasValue.
Qed.

Lemma arrayRows_typeMap (m : matrix) (tm : gmap string typeTag) :
  snd (arrayRows m tm) = fold_left record (arrayVisits m tm) tm.
Proof.
  unfold arrayRows, arrayVisits, dataRows. rewrite mapIndexed_map.
  apply (foldIndexed_visits (arrayRow (scalarRows tm) (headerTexts m)) snd).
  intros s i x. apply arrayRow_typeMap.
Qed.

Lemma wrappedRows_typeMap (m : matrix) (tm : gmap string typeTag) :
  snd (wrappedRows m tm) = fold_left record (wrappedVisits m) tm.
Proof.
  unfold wrappedRows, wrappedVisits, dataRows. rewrite mapIndexed_map.
  apply (foldIndexed_visits (wrappedRow (headerTexts m)) snd).
  intros s i x. apply wrappedRow_typeMap.
Qed.

(** ** Object of objects *)

Lemma innerField_typeMap headers keyColIndex key row acc (c : nat) (field : string) :
  snd (innerField headers keyColIndex key row acc c field)
  = record (snd acc)
      (key +:+ "." +:+ field,
       getCellText
         (match keyColIndex with
          | Some 0 => at_ row (c + 1)
          | _ =>
              match findIndexFrom (isText field) 0 headers with
              | Some cellIndex => at_ row cellIndex
              | None => None
              end
          end)).
Proof.
  destruct acc as [inner tm]. unfold innerField. now rewrite castCell_pair.
Qed.

Lemma objectRow_typeMap headers keyColIndex fieldHeaders acc (r : nat) row :
  snd (objectRow headers keyColIndex fieldHeaders acc r row)
  = fold_left record
      (let key := getCellText (at_ (rowOf row) (match keyColIndex with
                                                | Some k => k
                                                | None => 0
                                                end)) in
       if nonEmpty key then
         mapIndexed (fun c field =>
                       (key +:+ "." +:+ field,
                        getCellText
                          (match keyColIndex with
                           | Some 0 => at_ (rowOf row) (c + 1)
                           | _ =>
                               match findIndexFrom (isText field) 0 headers with
                               | Some cellIndex => at_ (rowOf row) cellIndex
                               | None => None
                               end
                           end))) 0 fieldHeaders
       else []) (snd acc).
Proof.
  destruct acc as [out tm]. unfold objectRow. cbv zeta.
  set (key := getCellText (at_ (rowOf row)
                             (match keyColIndex with Some k => k | None => 0 end))).
  destruct (nonEmpty key); [|reflexivity].
  rewrite <- concat_singletons.
  assert (H := foldIndexed_visits (innerField headers keyColIndex key (rowOf row)) snd
                 (fun c field =>
                    [(key +:+ "." +:+ field,
                      getCellText
                        (match keyColIndex with
                         | Some 0 => at_ (rowOf row) (c + 1)
                         | _ =>
                             match findIndexFrom (isText field) 0 headers with
                             | Some cellIndex => at_ (rowOf row) cellIndex
                             | None => None
                             end
                         end))])).
  specialize (H (fun s i x => innerField_typeMap headers keyColIndex key (rowOf row) s i x)
                fieldHeaders 0 ([], tm)).
  destruct (foldIndexed _ 0 fieldHeaders _) as [inner tm']. exact H.
Qed.

Lemma objectOfObjectsOut_typeMap (m : matrix) (tm : gmap string typeTag) :
  snd (objectOfObjectsOut m tm) = fold_left record (objectVisits m) tm.
Proof.
  unfold objectOfObjectsOut, objectVisits, dataRows. cbv zeta. rewrite mapIndexed_map.
  apply (foldIndexed_visits (objectRow _ _ _) snd).
  intros s i x. apply objectRow_typeMap.
Qed.

(** ** CSV and key/value *)

Lemma csvCell_typeMap (r : nat) acc (c : nat) (cell : option json) :
  snd (csvCell r acc c cell)
  = fold_left record
      (match cell with
       | Some v => [(csvPath r c, getCellText (Some v))]
       | None => []
       end) (snd acc).
Proof.
  destruct acc as [outRow tm]. unfold csvCell. destruct cell; [|reflexivity].
  now rewrite castCell_pair.
Qed.

Lemma csvRow_typeMap acc (r : nat) row :
  snd (csvRow acc r row)
  = fold_left record
      (concat (mapIndexed (fun c cell =>
                             match cell with
                             | Some v => [(csvPath r c, getCellText (Some v))]
                             | None => []
                             end) 0 (rowOf row))) (snd acc).
Proof.
  destruct acc as [rows tm]. unfold csvRow.
  pose proof (foldIndexed_visits (csvCell r) snd _ (csvCell_typeMap r)
                (rowOf row) 0 ([], tm)) as H.
  destruct (foldIndexed _ 0 (rowOf row) _) as [outRow tm']. exact H.
Qed.

Lemma csvRows_typeMap (m : matrix) (tm : gmap string typeTag) :
  snd (csvRows m tm) = fold_left record (csvVisits m) tm.
Proof.
  unfold csvRows, csvVisits, allRows. rewrite mapIndexed_map.
  apply (foldIndexed_visits csvRow snd). intros s i x. apply csvRow_typeMap.
Qed.

Lemma keyValueRow_typeMap acc (r : nat) row :
  snd (keyValueRow acc r row)
  = fold_left record
      (let key := getCellText (at_ (rowOf row) 0) in
       if nonEmpty key then [(key, getCellText (at_ (rowOf row) 1))] else [])
      (snd acc).
Proof.
  destruct acc as [result tm]. unfold keyValueRow. cbv zeta.
  assert (E : forall i, match row with Some row0 => at_ row0 i | None => None end
                        = at_ (rowOf row) i) by (intros i; destruct row; [reflexivity | now destruct i]).
  rewrite !E. destruct (nonEmpty _); [|reflexivity].
  now rewrite castCell_pair.
Qed.

Lemma keyValueResult_typeMap (m : matrix) (tm : gmap string typeTag) :
  snd (keyValueResult m tm) = fold_left record (keyValueVisits m) tm.
Proof.
  unfold keyValueResult, keyValueVisits, allRows. rewrite mapIndexed_map.
  apply (foldIndexed_visits keyValueRow snd). intros s i x. apply keyValueRow_typeMap.
Qed.

(** The type map [sheetToText] returns is the one it was given, with
    every visited cell recorded in turn. *)
Lemma sheetToText_typeMap sheets (tm : gmap string typeTag) (kind : dataKind) w :
  nextTypeMap (sheetToText sheets tm kind w)
  = fold_left record (visits kind (celldataToMatrix (head sheets)) tm) tm.
Proof.
  unfold sheetToText, visits. destruct kind.
  - rewrite <- arrayRows_typeMap. now destruct (arrayRows _ _).
  - rewrite <- wrappedRows_typeMap. now destruct (wrappedRows _ _).
  - rewrite <- objectOfObjectsOut_typeMap. now destruct (objectOfObjectsOut _ _).
  - rewrite <- csvRows_typeMap. now destruct (csvRows _ _).
  - reflexivity.
  - rewrite <- keyValueResult_typeMap. now destruct (keyValueResult _ _).
  - rewrite <- keyValueResult_typeMap. now destruct (keyValueResult _ _).
Qed.

(** ** Hints are added, never changed *)

Lemma record_lookup (tm : gmap string typeTag) (p q raw : string) :
  record tm (p, raw) !! q
  = if String.eqb p q
    then match tm !! p with
         | Some h => Some h
         | None => if inherited p then None else Some (snd (castWithType raw None))
         end
    else tm !! q.
Proof.
  unfold record, castCell, hintAt. simpl fst. simpl snd.
  destruct (String.eqb p q) eqn:E.
  - apply String.eqb_eq in E. subst q.
    destruct (tm !! p) as [h|] eqn:L;
      [destruct (castWithType raw _) as [casted type]; exact L|].
    destruct (inherited p);
      destruct (castWithType raw _) as [casted type]; simpl;
      [exact L | now rewrite lookup_insert_eq].
  - apply String.eqb_neq in E.
    destruct (tm !! p) as [h|];
      [destruct (castWithType raw _) as [casted type]; reflexivity|].
    destruct (inherited p);
      destruct (castWithType raw _) as [casted type]; simpl;
      [reflexivity | now rewrite lookup_insert_ne].
Qed.

Lemma record_keeps (tm : gmap string typeTag) (v : visit) (q : string) (h : typeTag) :
  tm !! q = Some h -> record tm v !! q = Some h.
Proof.
  destruct v as [p raw]. intros L. rewrite record_lookup.
  destruct (String.eqb p q) eqn:E; [|exact L].
  apply String.eqb_eq in E. subst q. now rewrite L.
Qed.

Lemma fold_record_keeps (vs : list visit) (tm : gmap string typeTag) (q : string) (h : typeTag) :
  tm !! q = Some h -> fold_left record vs tm !! q = Some h.
Proof.
  revert tm. induction vs as [|v vs IH]; intros tm L; simpl; [exact L|].
  apply IH. now apply record_keeps.
Qed.

Lemma fold_record_fresh (vs : list visit) (tm : gmap string typeTag) (q : string) :
  inherited q = false ->
  tm !! q = None ->
  fold_left record vs tm !! q
  = (fun raw => snd (castWithType raw None)) <$> firstVisit q vs.
Proof.
  intros P. revert tm. induction vs as [|[p raw] vs IH]; intros tm L; simpl; [exact L|].
  destruct (String.eqb p q) eqn:E.
  - apply String.eqb_eq in E. subst q. simpl.
    apply fold_record_keeps. rewrite record_lookup, String.eqb_refl. now rewrite L, P.
  - apply IH. rewrite record_lookup, E. exact L.
Qed.

(** Under an inherited name the map never gets an entry. *)
Lemma fold_record_inherited (vs : list visit) (tm : gmap string typeTag) (q : string) :
  inherited q = true ->
  tm !! q = None ->
  fold_left record vs tm !! q = None.
Proof.
  intros P. revert tm. induction vs as [|[p raw] vs IH]; intros tm L; simpl; [exact L|].
  apply IH. rewrite record_lookup. destruct (String.eqb p q) eqn:E; [|exact L].
  apply String.eqb_eq in E. subst q. now rewrite L, P.
Qed.


Lemma castWithType_string_hint (raw : string) :
  castWithType raw (Some HString) = castWithType raw None.
Proof. reflexivity. Qed.

(** C8: the type map only grows across [sheetToText]: every path of the
    map passed in is bound to the same hint in the map returned. *)
Theorem sheetToText_typeMap_append_only sheets (currentTypeMap : gmap string typeTag)
    (dataKind : dataKind) (wrapper : option wrapper) :
  currentTypeMap ⊆ nextTypeMap (sheetToText sheets currentTypeMap dataKind wrapper).
Proof.
  rewrite sheetToText_typeMap. apply map_subseteq_spec. intros path h L.
  now apply fold_record_keeps.
Qed.




(** * Blank rows and blank fields *)

Lemma objHas_objSet (k j : string) (v : json) (o : list (string * json)) :
  objHas j (objSet k v o) = String.eqb k j || objHas j o.
Proof. unfold objHas. rewrite objGet_objSet. now destruct (String.eqb k j). Qed.

Lemma nonEmpty_true (s : string) : nonEmpty s = true <-> s <> "".
Proof.
  unfold nonEmpty. destruct (String.eqb s "") eqn:E.
  - apply String.eqb_eq in E. split; [discriminate | congruence].
  - apply String.eqb_neq in E. tauto.
Qed.

Lemma nonEmpty_false (s : string) : nonEmpty s = false <-> s = "".
Proof.
  unfold nonEmpty. destruct (String.eqb s "") eqn:E.
  - apply String.eqb_eq in E. tauto.
  - apply String.eqb_neq in E. split; [discriminate | congruence].
Qed.

Lemma mapIndexed_lookup {A B : Type} (f : nat -> A -> B) (i c : nat) (l : list A) :
  mapIndexed f i l !! c = f (i + c) <$> l !! c.
Proof.
  revert i c. induction l as [|x l IH]; intros i c; [now destruct c|].
  destruct c as [|c]; simpl.
  - now rewrite Nat.add_0_r.
  - rewrite IH. now rewrite Nat.add_succ_r.
Qed.

Lemma existsb_mapIndexed {A B : Type} (f : nat -> A -> B) (p : B -> bool) (i : nat) (l : list A) :
  existsb p (mapIndexed f i l) = true
  <-> exists c a, l !! c = Some a /\ p (f (i + c) a) = true.
Proof.
  revert i. induction l as [|x l IH]; intros i; simpl.
  - split; [discriminate | intros [c [a [H _]]]; now destruct c].
  - rewrite orb_true_iff, IH. split.
    + intros [H | [c [a [L H]]]].
      * exists 0, x. rewrite Nat.add_0_r. now split.
      * exists (S c), a. rewrite Nat.add_succ_r. now split.
    + intros [[|c] [a [L H]]].
      * left. simpl in L. injection L as ->. now rewrite Nat.add_0_r in H.
      * right. exists c, a. rewrite Nat.add_succ_r in H. now split.
Qed.

Lemma objHas_objAssign (k j : string) (v : json) (o : list (string * json)) :
  objHas protoKey o = false ->
  j <> protoKey ->
  objHas j (objAssign k v o) = String.eqb k j || objHas j o.
Proof.
  intros P N. unfold objHas. rewrite objGet_objAssign by exact P.
  destruct (String.eqb k protoKey) eqn:E.
  - apply String.eqb_eq in E. subst k. apply not_eq_sym, String.eqb_neq in N.
    now rewrite N.
  - now destruct (String.eqb k j).
Qed.

Lemma pairedBlank_existsb (headers : list string) (row : slots json) :
  negb (pairedBlank headers row)
  = existsb (fun p => nonEmpty (snd p)) (headerCellTexts headers row).
Proof.
  unfold pairedBlank. induction (headerCellTexts headers row) as [|p l IH]; [reflexivity|].
  simpl. rewrite negb_andb, IH. reflexivity.
Qed.

(** ** The array shape *)

Lemma arrayField_eq (r : nat) (row : slots json) o b tm (c : nat) (header : string) :
  arrayField r row (o, b, tm) c header
  = (if nonEmpty (getCellText (at_ row c))
     then objAssign header (fst (castWithType (getCellText (at_ row c))
                                   (hintAt tm (fieldPath r header)))) o
     else o,
     nonEmpty (getCellText (at_ row c)) || b,
     record tm (fieldPath r header, getCellText (at_ row c))).
Proof.
  unfold arrayField. rewrite castCell_pair. now destruct (nonEmpty _).
Qed.

Lemma arrayFields_result (r : nat) (row : slots json) (headers : list string) :
  forall i o0 b0 tm0,
    objHas protoKey o0 = false ->
    let cells := mapIndexed (fun c header => (header, getCellText (at_ row c))) i headers in
    let res := foldIndexed (arrayField r row) i headers (o0, b0, tm0) in
    snd (fst res) = b0 || existsb (fun p => nonEmpty (snd p)) cells
    /\ forall h, h <> protoKey ->
                 objHas h (fst (fst res))
                 = objHas h o0
                   || existsb (fun p => String.eqb (fst p) h && nonEmpty (snd p)) cells.
Proof.
  induction headers as [|header headers IH]; intros i o0 b0 tm0 P.
  - cbn. split; [now rewrite orb_false_r | intros h _; now rewrite orb_false_r].
  - cbn [foldIndexed mapIndexed existsb fst snd]. rewrite arrayField_eq.
    match goal with
    | |- context [foldIndexed _ _ _ (?o, ?b, ?tm)] =>
        destruct (IH (S i) o b tm) as [Hb Ho]
    end.
    { destruct (nonEmpty _); [now apply objAssign_keeps_no_proto | exact P]. }
    cbv zeta in Hb, Ho. split.
    + rewrite Hb. destruct (nonEmpty (getCellText (at_ row i))), b0; reflexivity.
    + intros h N. rewrite (Ho h N). destruct (nonEmpty (getCellText (at_ row i))).
      * rewrite (objHas_objAssign _ _ _ _ P N), andb_true_r.
        destruct (String.eqb header h), (objHas h o0); reflexivity.
      * now rewrite andb_false_r.
Qed.

Lemma arrayRow_outcome (headers : list string) rows tm (r : nat) row :
  exists tm',
    (pairedBlank headers (rowOf row) = true
     /\ arrayRow false headers (rows, tm) r row = (rows, tm'))
    \/ (pairedBlank headers (rowOf row) = false
        /\ exists out, arrayRow false headers (rows, tm) r row = (rows ++ [out], tm')
                       /\ PairedArrayRow headers (rowOf row) out).
Proof.
  unfold arrayRow.
  destruct (arrayFields_result r (rowOf row) headers 0 [] false tm eq_refl) as [Hb Ho].
  destruct (foldIndexed _ 0 headers _) as [[rowObj hasValue] tm'].
  simpl in Hb, Ho. exists tm'.
  fold (headerCellTexts headers (rowOf row)) in Hb.
  rewrite <- pairedBlank_existsb in Hb.
  destruct (pairedBlank headers (rowOf row)); simpl in Hb; subst hasValue.
  - left. now split.
  - right. split; [reflexivity|]. exists (JObj rowObj). split; [reflexivity|].
    exists rowObj. split; [reflexivity|]. intros h N. rewrite (Ho h N).
    rewrite existsb_mapIndexed. split.
    + intros [c [a [L H]]]. simpl in H. apply andb_true_iff in H as [E Ne].
      apply String.eqb_eq in E. subst a. exists c. split; [exact L|].
      now apply nonEmpty_true.
    + intros [c [L Ne]]. exists c, h. split; [exact L|]. simpl.
      rewrite String.eqb_refl. now apply nonEmpty_true.
Qed.

(** The row loop of a table: one element for every row that is not
    blank, in order. *)
Lemma tableRows_outcome (step : list json * gmap string typeTag -> nat
                                -> option (slots json)
                                -> list json * gmap string typeTag)
    (headers : list string) (Spec : slots json -> json -> Prop) :
  (forall rows tm r row,
      exists tm',
        (pairedBlank headers (rowOf row) = true /\ step (rows, tm) r row = (rows, tm'))
        \/ (pairedBlank headers (rowOf row) = false
            /\ exists out, step (rows, tm) r row = (rows ++ [out], tm')
                           /\ Spec (rowOf row) out)) ->
  forall l i rows tm,
    exists new,
      fst (foldIndexed step i l (rows, tm)) = rows ++ new
      /\ Forall2 Spec
           (List.filter (fun row => negb (pairedBlank headers row)) (map rowOf l)) new.
Proof.
  intros Hstep l. induction l as [|row l IH]; intros i rows tm; simpl.
  - exists []. split; [now rewrite app_nil_r | constructor].
  - destruct (Hstep rows tm i row) as [tm' [[B E] | [B [out [E Sp]]]]];
      rewrite E, B; simpl.
    + apply IH.
    + destruct (IH (S i) (rows ++ [out]) tm') as [new [F H]].
      exists (out :: new). split.
      * rewrite F. now rewrite <- app_assoc.
      * now constructor.
Qed.

Lemma arrayRows_outcome (m : matrix) (tm : gmap string typeTag) :
  scalarRows tm = false ->
  Forall2 (PairedArrayRow (headerTexts m)) (pairedFilled m) (fst (arrayRows m tm)).
Proof.
  intros S. unfold arrayRows, pairedFilled. rewrite S.
  destruct (tableRows_outcome (arrayRow false (headerTexts m)) (headerTexts m)
              (PairedArrayRow (headerTexts m)) (arrayRow_outcome (headerTexts m))
              (drop 1 m) 1 [] tm) as [new [F H]].
  rewrite F. exact H.
Qed.

(** ** The wrapped-array shape *)

Lemma wrappedField_eq (r : nat) (row : slots json) o b tm (c : nat) (header : string) :
  wrappedField r row (o, b, tm) c header
  = (setNestedValue o header
       (fst (castWithType (getCellText (at_ row c)) (hintAt tm (fieldPath r header)))),
     b || nonEmpty (getCellText (at_ row c)),
     record tm (fieldPath r header, getCellText (at_ row c))).
Proof. unfold wrappedField. now rewrite castCell_pair. Qed.

Lemma objHas_objSet_keeps (k j : string) (v : json) (o : list (string * json)) :
  objHas j o = true -> objHas j (objSet k v o) = true.
Proof. intros H. rewrite objHas_objSet, H. apply orb_true_r. Qed.

Lemma objHas_objAssign_keeps (k j : string) (v : json) (o : list (string * json)) :
  objHas j o = true -> objHas j (objAssign k v o) = true.
Proof.
  intros H. unfold objAssign. destruct (_ && _); [exact H|].
  now apply objHas_objSet_keeps.
Qed.

Lemma setNestedParts_keeps (parts : list string) (o : list (string * json)) (v : json)
    (j : string) :
  objHas j o = true -> objHas j (setNestedParts parts o v) = true.
Proof.
  intros H. destruct parts as [|k [|k' rest]]; simpl; [exact H | |];
    [now apply objHas_objAssign_keeps | now apply objHas_objSet_keeps].
Qed.

Lemma setNestedParts_first (p : string) (rest : list string) (o : list (string * json))
    (v : json) :
  p <> protoKey ->
  objHas p (setNestedParts (p :: rest) o v) = true.
Proof.
  intros N. destruct rest; simpl.
  - rewrite (objAssign_other _ _ _ N), objHas_objSet, String.eqb_refl. reflexivity.
  - rewrite objHas_objSet, String.eqb_refl. reflexivity.
Qed.

Lemma split_no_separator (sep : ascii) (s : string) :
  containsChar (fun c => Ascii.eqb c sep) s = false -> split sep s = [s].
Proof.
  induction s as [|c s IH]; simpl; [reflexivity|].
  destruct (Ascii.eqb c sep); simpl; [discriminate|].
  intros H. now rewrite (IH H).
Qed.

Lemma pathParts_dotFree (h : string) :
  dotFree h = true -> h <> "" -> pathParts h = [h].
Proof.
  unfold dotFree, pathParts. intros D N. apply negb_true_iff in D.
  rewrite (split_no_separator _ _ D). rewrite filter_cons.
  destruct (decide (nonEmpty h = true)) as [_|F]; [reflexivity|].
  exfalso. apply F. now apply nonEmpty_true.
Qed.

Lemma setNestedValue_dotFree (o : list (string * json)) (h : string) (v : json) :
  dotFree h = true -> h <> "" -> h <> protoKey -> setNestedValue o h v = objSet h v o.
Proof.
  intros D N P. unfold setNestedValue. fold (pathParts h).
  rewrite (pathParts_dotFree _ D N). simpl. now apply objAssign_other.
Qed.

Lemma wrappedFields_result (r : nat) (row : slots json) (headers : list string) :
  NoProtoPart headers ->
  forall i o0 b0 tm0,
    let cells := mapIndexed (fun c header => (header, getCellText (at_ row c))) i headers in
    let res := foldIndexed (wrappedField r row) i headers (o0, b0, tm0) in
    snd (fst res) = b0 || existsb (fun p => nonEmpty (snd p)) cells
    /\ (forall p, objHas p o0 = true -> objHas p (fst (fst res)) = true)
    /\ (forall h p rest, In h headers -> pathParts h = p :: rest ->
                         objHas p (fst (fst res)) = true).
Proof.
  induction headers as [|header headers IH]; intros NP i o0 b0 tm0.
  - cbn. split; [now rewrite orb_false_r|]. split; [auto | intros ? ? ? []].
  - cbn [foldIndexed mapIndexed existsb fst snd]. rewrite wrappedField_eq.
    inversion NP as [|? ? NPh NP']; subst.
    match goal with
    | |- context [foldIndexed _ _ _ (?o, ?b, ?tm)] =>
        destruct (IH NP' (S i) o b tm) as [Hb [Hm Hf]]
    end.
    cbv zeta in Hb, Hm, Hf. split; [|split].
    + rewrite Hb. now rewrite orb_assoc.
    + intros p Hp. apply Hm. unfold setNestedValue. now apply setNestedParts_keeps.
    + intros h p rest [<-|Hin] Hparts.
      * apply Hm. unfold setNestedValue. fold (pathParts header). rewrite Hparts.
        apply setNestedParts_first. intros ->. apply NPh. rewrite Hparts. now left.
      * now apply (Hf h p rest).
Qed.

Lemma dotFree_ordinary (h : string) :
  dotFree h = true -> h <> "" -> ~ In protoKey (pathParts h) -> h <> protoKey.
Proof.
  intros D N P ->. apply P. rewrite (pathParts_dotFree _ D N). now left.
Qed.

Lemma wrappedFields_absent (r : nat) (row : slots json) (headers : list string) :
  Forall (fun h => dotFree h = true /\ h <> "" /\ h <> protoKey) headers ->
  forall i o0 b0 tm0 h,
    ~ In h headers ->
    objGet h (fst (fst (foldIndexed (wrappedField r row) i headers (o0, b0, tm0))))
    = objGet h o0.
Proof.
  induction headers as [|header headers IH]; intros F i o0 b0 tm0 h N; [reflexivity|].
  cbn [foldIndexed]. rewrite wrappedField_eq.
  inversion F as [|? ? [D [E P]] F']; subst.
  rewrite IH by (try exact F'; intros H; apply N; now right).
  rewrite (setNestedValue_dotFree _ _ _ D E P).
  apply objGet_objSet_ne. intros ->. apply N. now left.
Qed.

Lemma wrappedFields_empty_cell (r : nat) (row : slots json) (headers : list string) :
  Forall (fun h => dotFree h = true /\ h <> "" /\ h <> protoKey) headers ->
  NoDup headers ->
  forall i o0 b0 tm0 c h,
    headers !! c = Some h ->
    getCellText (at_ row (i + c)) = "" ->
    objGet h (fst (fst (foldIndexed (wrappedField r row) i headers (o0, b0, tm0))))
    = Some (JStr "").
Proof.
  induction headers as [|header headers IH]; intros F ND i o0 b0 tm0 c h L T;
    [now destruct c|].
  cbn [foldIndexed]. rewrite wrappedField_eq.
  inversion F as [|? ? [D [E P]] F']; subst.
  apply NoDup_cons in ND as [Nin ND].
  destruct c as [|c].
  - simpl in L. injection L as ->. rewrite Nat.add_0_r in T.
    rewrite (wrappedFields_absent r row headers F').
    + rewrite (setNestedValue_dotFree _ _ _ D E P), objGet_objSet_eq, T.
      now rewrite castWithType_blank.
    + intros H. apply Nin. now apply list_elem_of_In.
  - simpl in L. apply (IH F' ND (S i) _ _ _ c h L).
    now rewrite Nat.add_succ_r in T.
Qed.

Lemma headerTexts_nonEmpty (m : matrix) : Forall (fun h => h <> "") (headerTexts m).
Proof.
  unfold headerTexts. apply Forall_forall. intros h H.
  apply list_elem_of_filter in H as [H _]. now apply nonEmpty_true.
Qed.

Lemma wrappedRow_outcome (headers : list string) :
  Forall (fun h => h <> "") headers ->
  NoProtoPart headers ->
  forall rows tm (r : nat) row,
  exists tm',
    (pairedBlank headers (rowOf row) = true
     /\ wrappedRow headers (rows, tm) r row = (rows, tm'))
    \/ (pairedBlank headers (rowOf row) = false
        /\ exists out, wrappedRow headers (rows, tm) r row = (rows ++ [out], tm')
                       /\ PairedWrappedRow headers (rowOf row) out).
Proof.
  intros NE NP rows tm r row. unfold wrappedRow.
  destruct (wrappedFields_result r (rowOf row) headers NP 0 [] false tm) as [Hb [_ Hf]].
  pose proof (wrappedFields_absent r (rowOf row) headers) as Ha.
  pose proof (wrappedFields_empty_cell r (rowOf row) headers) as He.
  specialize (fun F => Ha F 0 [] false tm).
  specialize (fun F ND => He F ND 0 [] false tm).
  destruct (foldIndexed _ 0 headers _) as [[rowObj hasValue] tm'].
  simpl in Hb, Hf, Ha, He. exists tm'.
  fold (headerCellTexts headers (rowOf row)) in Hb.
  rewrite <- pairedBlank_existsb in Hb.
  destruct (pairedBlank headers (rowOf row)); simpl in Hb; subst hasValue.
  - left. now split.
  - right. split; [reflexivity|]. exists (JObj rowObj). split; [reflexivity|].
    exists rowObj. split; [reflexivity|]. split; [exact Hf|].
    intros DF.
    assert (F : Forall (fun h => dotFree h = true /\ h <> "" /\ h <> protoKey) headers).
    { apply Forall_forall. intros h Hin.
      assert (D : dotFree h = true)
        by (rewrite forallb_forall in DF; apply DF; now apply list_elem_of_In).
      assert (E : h <> "") by (rewrite Forall_forall in NE; now apply NE).
      split; [exact D|]. split; [exact E|].
      apply (dotFree_ordinary h D E). unfold NoProtoPart in NP.
      rewrite Forall_forall in NP. now apply NP. }
    split.
    + intros h Hin. apply (Hf h h []); [exact Hin|].
      rewrite Forall_forall in F. apply list_elem_of_In in Hin.
      destruct (F h Hin) as [D [E _]]. now apply pathParts_dotFree.
    + intros ND c h L T. now apply (He F ND c h L).
Qed.

Lemma wrappedRows_outcome (m : matrix) (tm : gmap string typeTag) :
  NoProtoPart (headerTexts m) ->
  Forall2 (PairedWrappedRow (headerTexts m)) (pairedFilled m) (fst (wrappedRows m tm)).
Proof.
  intros NP. unfold wrappedRows, pairedFilled.
  destruct (tableRows_outcome (wrappedRow (headerTexts m)) (headerTexts m)
              (PairedWrappedRow (headerTexts m))
              (wrappedRow_outcome (headerTexts m) (headerTexts_nonEmpty m) NP)
              (drop 1 m) 1 [] tm) as [new [F H]].
  rewrite F. exact H.
Qed.

(** ** Headers and their columns *)

Lemma headerColumns_from (row0 : slots json) :
  forall i,
    map snd (filter (fun p : nat * string => nonEmpty (snd p) = true)
                    (mapIndexed (fun c cell => (c, getCellText cell)) i row0))
    = filter (fun value => nonEmpty value = true)
             (omap (fun cell => match cell with
                                | Some c => Some (getCellText (Some c))
                                | None => None
                                end) row0).
Proof.
  induction row0 as [|cell row0 IH]; intros i; [reflexivity|].
  cbn [mapIndexed]. rewrite filter_cons. cbn [snd].
  destruct cell as [c|].
  - change (omap _ (Some c :: row0))
      with (getCellText (Some c)
            :: omap (fun cell => match cell with
                                 | Some c => Some (getCellText (Some c))
                                 | None => None
                                 end) row0).
    rewrite filter_cons.
    destruct (decide (nonEmpty (getCellText (Some c)) = true)); cbn [map];
      now rewrite IH.
  - change (omap _ (None :: row0))
      with (omap (fun cell => match cell with
                              | Some c => Some (getCellText (Some c))
                              | None => None
                              end) row0).
    destruct (decide (nonEmpty (getCellText None) = true)) as [F|_];
      [discriminate F | apply IH].
Qed.

Lemma headerTexts_headerNames (m : matrix) : headerTexts m = headerNames m.
Proof. unfold headerTexts, headerNames, headerColumns. symmetry. apply headerColumns_from. Qed.

Lemma combine_parts {A B : Type} (l : list (A * B)) :
  combine (map fst l) (map snd l) = l.
Proof. induction l as [|[a b] l IH]; simpl; [reflexivity | now rewrite IH]. Qed.

Lemma combine_seq_lookup {B : Type} (l : list B) :
  forall i c (b : B), In (c, b) (combine (seq i (length l)) l) <-> i <= c /\ l !! (c - i) = Some b.
Proof.
  induction l as [|x l IH]; intros i c b; simpl.
  - split; [tauto | intros [_ H]; discriminate].
  - rewrite IH. split.
    + intros [E|[L H]].
      * injection E as <- <-. rewrite Nat.sub_diag. split; [lia | reflexivity].
      * split; [lia|]. replace (c - i) with (S (c - S i)) by lia. exact H.
    + intros [L H]. destruct (Nat.eq_dec c i) as [->|N].
      * left. rewrite Nat.sub_diag in H. simpl in H. now injection H as ->.
      * right. split; [lia|]. replace (c - i) with (S (c - S i)) in H by lia. exact H.
Qed.

(** With the headers side by side, header number [c] stands in column
    [c]. *)
Lemma aligned_columns (m : matrix) :
  HeadersAligned m ->
  headerColumns m = mapIndexed (fun c h => (c, h)) 0 (headerTexts m)
  /\ forall c h, In (c, h) (headerColumns m) <-> headerTexts m !! c = Some h.
Proof.
  intros A. rewrite headerTexts_headerNames. unfold headerNames.
  unfold HeadersAligned in A.
  assert (C : headerColumns m
              = combine (seq 0 (length (map snd (headerColumns m))))
                        (map snd (headerColumns m))).
  { rewrite length_map, <- A. symmetry. apply combine_parts. }
  split.
  - rewrite C at 1. generalize 0. generalize (map snd (headerColumns m)).
    intros l. induction l as [|x l IH]; intros i; simpl; [reflexivity|].
    now rewrite IH.
  - intros c h. rewrite C at 1. rewrite combine_seq_lookup, Nat.sub_0_r.
    split; [tauto | split; [lia | assumption]].
Qed.

Lemma aligned_blank (m : matrix) (row : slots json) :
  HeadersAligned m -> blankRow m row = pairedBlank (headerTexts m) row.
Proof.
  intros A. destruct (aligned_columns m A) as [C _].
  unfold blankRow, pairedBlank, headerCellTexts. rewrite C. clear C.
  generalize 0. induction (headerTexts m) as [|h hs IH]; intros i; [reflexivity|].
  cbn [mapIndexed forallb fst snd]. now rewrite IH.
Qed.

Lemma aligned_filled (m : matrix) :
  HeadersAligned m -> filledRows m = pairedFilled m.
Proof.
  intros A. unfold filledRows, pairedFilled. fold rowOf.
  change (map (fun row => match row with Some row0 => row0 | None => [] end) (drop 1 m))
    with (map rowOf (drop 1 m)).
  induction (map rowOf (drop 1 m)) as [|row rows IH]; [reflexivity|].
  simpl. now rewrite (aligned_blank m row A), IH.
Qed.

Lemma aligned_arrayRow (m : matrix) (row : slots json) (out : json) :
  HeadersAligned m -> PairedArrayRow (headerTexts m) row out -> ArrayRowOf m row out.
Proof.
  intros A [o [E H]]. destruct (aligned_columns m A) as [_ C].
  exists o. split; [exact E|]. intros h N. rewrite (H h N).
  split; intros [c [L T]]; exists c; (split; [now apply C | exact T]).
Qed.

Lemma aligned_wrappedRow (m : matrix) (row : slots json) (out : json) :
  HeadersAligned m -> PairedWrappedRow (headerTexts m) row out -> WrappedRowOf m row out.
Proof.
  intros A [o [E [H1 H2]]]. destruct (aligned_columns m A) as [_ C].
  exists o. rewrite <- headerTexts_headerNames. split; [exact E|]. split; [exact H1|].
  intros DF. destruct (H2 DF) as [K1 K2]. split; [exact K1|].
  intros ND c h L T. apply (K2 ND c h); [now apply C | exact T].
Qed.

Lemma Forall2_impl_r {A B : Type} (P Q : A -> B -> Prop) (l : list A) (l' : list B) :
  (forall a b, P a b -> Q a b) -> Forall2 P l l' -> Forall2 Q l l'.
Proof. intros H F. induction F; constructor; auto. Qed.

(** C6, as the claim words it, fails for a header with a dot: loading the
    wrapped document whose one row has the key [a.b] gives the header
    [a.b], and the row emitted holds the key [a] with a nested object, not
    the header as a key. *)
Lemma wrapped_dotted_header_counterexample :
  option_map (fun p =>
                let m := celldataToMatrix (head (sheets p)) in
                (headerColumns m,
                 fst (wrappedRows m (typeMap p)),
                 map (fun row => match row with
                                 | JObj o => objHas "a.b" o
                                 | _ => false
                                 end) (fst (wrappedRows m (typeMap p)))))
             (toSheetPayloadFromContent dottedDocument)
  = Some ([(0, "a.b")], [JObj [("a", JObj [("b", JNum (Number "1"))])]], [false]).
Proof. vm_compute. reflexivity. Qed.

(** C6 (amended): when the headers stand side by side in the first
    columns, for the array shape, when rows are rebuilt as objects (the
    type map holds no scalar type for the first element), the elements
    emitted are those of the data rows that are not blank, in order, and
    the keys of each are exactly the headers with a cell that is not
    empty; for the wrapped-array shape, when no header names the
    prototype accessor in its path, a blank row is left out as well, and
    every emitted row holds the first part of every header path: when no
    header contains a dot, every header is a key and an empty cell gives
    the empty string. *)
Theorem blank_rows_dropped_and_keys_kept (m : matrix) (tm : gmap string typeTag) :
  HeadersAligned m ->
  (scalarRows tm = false ->
   Forall2 (ArrayRowOf m) (filledRows m) (fst (arrayRows m tm)))
  /\ (NoProtoPart (headerNames m) ->
      Forall2 (WrappedRowOf m) (filledRows m) (fst (wrappedRows m tm))).
Proof.
  intros A. rewrite (aligned_filled m A). split.
  - intros S. eapply Forall2_impl_r; [|exact (arrayRows_outcome m tm S)].
    intros row out. now apply aligned_arrayRow.
  - rewrite <- headerTexts_headerNames. intros NP.
    eapply Forall2_impl_r; [|exact (wrappedRows_outcome m tm NP)].
    intros row out. now apply aligned_wrappedRow.
Qed.

Lemma blank_rows_dropped_and_keys_kept_witness :
  HeadersAligned sampleMatrix
  /\ scalarRows ∅ = false
  /\ NoProtoPart (headerNames sampleMatrix)
  /\ Forall2 (ArrayRowOf sampleMatrix) (filledRows sampleMatrix)
       (fst (arrayRows sampleMatrix ∅))
  /\ Forall2 (WrappedRowOf sampleMatrix) (filledRows sampleMatrix)
       (fst (wrappedRows sampleMatrix ∅)).
Proof.
  assert (A : HeadersAligned sampleMatrix) by (vm_compute; reflexivity).
  assert (NP : NoProtoPart (headerNames sampleMatrix)).
  { apply List.Forall_forall. intros h Hh Hin. vm_compute in Hh.
    destruct Hh as [<-|[<-|[]]]; vm_compute in Hin; intuition discriminate. }
  split; [exact A|]. split; [reflexivity|]. split; [exact NP|].
  destruct (blank_rows_dropped_and_keys_kept sampleMatrix ∅ A) as [R W].
  split; [apply R; reflexivity | exact (W NP)].
Defined.

(** * The type map built at load time *)

Lemma to_uint_nonnil (n : nat) : Nat.to_uint n <> Decimal.Nil.
Proof.
  rewrite <- (DecimalNat.Unsigned.of_to n) at 1.
  rewrite DecimalNat.Unsigned.to_of. apply DecimalFacts.unorm_nonnil.
Qed.

Lemma ofNat_inj (a b : nat) : ofNat a = ofNat b -> a = b.
Proof.
  unfold ofNat. intros H. apply DecimalNat.Unsigned.to_uint_inj.
  apply (f_equal NilZero.uint_of_string) in H.
  rewrite !NilZero.usu in H by apply to_uint_nonnil. congruence.
Qed.

Lemma string_of_uint_no_comma (d : Decimal.uint) :
  containsChar isComma (NilEmpty.string_of_uint d) = false.
Proof. induction d; simpl; auto. Qed.

Lemma ofNat_no_comma (n : nat) : containsChar isComma (ofNat n) = false.
Proof.
  unfold ofNat, NilZero.string_of_uint.
  destruct (Nat.to_uint n) eqn:E; try (rewrite <- E; apply string_of_uint_no_comma);
    try reflexivity; apply string_of_uint_no_comma.
Qed.

Lemma append_comma_inj (a a' b b' : string) :
  containsChar isComma a = false -> containsChar isComma a' = false ->
  a +:+ "," +:+ b = a' +:+ "," +:+ b' -> a = a' /\ b = b'.
Proof.
  revert a'. induction a as [|x a IH]; intros [|x' a'] Ha Ha' E; simpl in *.
  - injection E as ->. now split.
  - injection E as <- _. discriminate.
  - injection E as -> _. discriminate.
  - injection E as -> E.
    apply orb_false_iff in Ha as [_ Ha]. apply orb_false_iff in Ha' as [_ Ha'].
    destruct (IH a' Ha Ha' E) as [-> ->]. now split.
Qed.

Lemma csvPath_inj (r c r' c' : nat) : csvPath r c = csvPath r' c' -> r = r' /\ c = c'.
Proof.
  unfold csvPath. intros E.
  apply append_comma_inj in E as [E1 E2]; try apply ofNat_no_comma.
  split; now apply ofNat_inj.
Qed.

Lemma matrixCell_eq (r : nat) tm cd (c : nat) (value : json) :
  fst (matrixCell r (tm, cd) c value) = <[csvPath r c := inferSimpleHint value]> tm.
Proof. reflexivity. Qed.

Lemma matrixCells_lookup (r : nat) (values : list json) :
  forall i acc,
    let res := foldIndexed (matrixCell r) i values acc in
    (forall c v, values !! c = Some v ->
                 fst res !! csvPath r (i + c) = Some (inferSimpleHint v))
    /\ (forall k, (forall c, i <= c -> k <> csvPath r c) -> fst res !! k = fst acc !! k).
Proof.
  induction values as [|x values IH]; intros i [tm cd]; cbn [foldIndexed].
  - split; [intros c v H; now destruct c | reflexivity].
  - destruct (IH (S i) (matrixCell r (tm, cd) i x)) as [H1 H2]. cbv zeta in H1, H2.
    split.
    + intros [|c] v L.
      * simpl in L. injection L as ->. rewrite Nat.add_0_r.
        rewrite H2.
        -- rewrite matrixCell_eq. apply lookup_insert_eq.
        -- intros c Hc E. apply csvPath_inj in E as [_ E]. lia.
      * simpl in L. rewrite Nat.add_succ_r. now apply H1.
    + intros k Hk. rewrite H2 by (intros c Hc; apply Hk; lia).
      rewrite matrixCell_eq. simpl fst. apply lookup_insert_ne.
      intros E. now apply (Hk i (le_n i)).
Qed.

Lemma matrixRows_lookup (rows : list json) :
  forall r0 acc tm cd,
    matrixRows r0 rows acc = Some (tm, cd) ->
    (forall r c values v,
        rows !! r = Some (JArr values) -> values !! c = Some v ->
        tm !! csvPath (r0 + r) c = Some (inferSimpleHint v))
    /\ (forall k, (forall r c, r0 <= r -> k <> csvPath r c) -> tm !! k = fst acc !! k).
Proof.
  induction rows as [|row rows IH]; intros r0 acc tm cd; cbn [matrixRows].
  - intros H. injection H as ->. split; [intros r c values v H; now destruct r | reflexivity].
  - destruct (matrixRowValues row) as [values0|] eqn:V; [|discriminate].
    intros H. apply IH in H as [H1 H2].
    destruct (matrixCells_lookup r0 values0 0 acc) as [C1 C2]. cbv zeta in C1, C2.
    split.
    + intros [|r] c values v L Lv.
      * simpl in L. injection L as ->. simpl in V. injection V as <-.
        rewrite Nat.add_0_r. rewrite H2.
        -- exact (C1 c v Lv).
        -- intros r c' Hr E. apply csvPath_inj in E as [E _]. lia.
      * simpl in L. rewrite Nat.add_succ_r. now apply (H1 r c values v).
    + intros k Hk. rewrite H2 by (intros r c Hr; apply Hk; lia).
      apply C2. intros c _. now apply Hk.
Qed.

Lemma createSheetFromMatrix_typeMap (rows : list json) (name : json) sheets tm :
  createSheetFromMatrix (Some (JArr rows)) name = Some (sheets, tm) ->
  forall r c values v,
    rows !! r = Some (JArr values) -> values !! c = Some v ->
    tm !! csvPath r c = Some (inferSimpleHint v).
Proof.
  unfold createSheetFromMatrix.
  destruct (matrixRows 0 rows (∅, [])) as [[tm' cd]|] eqn:M; [|discriminate].
  intros H. injection H as _ <-.
  apply matrixRows_lookup in M as [M _]. intros r c values v L Lv.
  exact (M r c values v L Lv).
Qed.

Lemma payload_typeMap_empty (content : json) (p : payload) :
  toSheetPayloadFromContent content = Some p ->
  dataKindIs "csv" content = false -> typeMap p = ∅.
Proof.
  unfold toSheetPayloadFromContent. intros H C. rewrite C in H.
  destruct (dataKindIs "xlsx" content).
  - destruct (xlsxSheetsFrom 0 _); [|discriminate]. now injection H as <-.
  - destruct (validateAndExtract content) as [[data meta dataProp|data|object|object]|reason].
    + destruct (flattenRows 0 data [] []) as [[i errors]|[headers rows]];
        now injection H as <-.
    + destruct (flattenRows 0 data [] []) as [[i errors]|[headers rows]];
        now injection H as <-.
    + simpl in H. now injection H as <-.
    + destruct (prepareObjectOfObjects object); now injection H as <-.
    + now injection H as <-.
Qed.

Lemma payload_dataKind_csv (content : json) (p : payload) :
  toSheetPayloadFromContent content = Some p ->
  (dataKind_ p = KCsv <-> dataKindIs "csv" content = true).
Proof.
  unfold toSheetPayloadFromContent. intros H.
  destruct (dataKindIs "csv" content).
  - destruct (createSheetFromMatrix _ _) as [[s t]|]; [|discriminate].
    injection H as <-. simpl. tauto.
  - assert (N : dataKind_ p <> KCsv); [|split; [tauto | discriminate]].
    destruct (dataKindIs "xlsx" content).
    + destruct (xlsxSheetsFrom 0 _); [|discriminate]. now injection H as <-.
    + destruct (validateAndExtract content) as [[data meta dataProp|data|object|object]|reason].
      * destruct (flattenRows 0 data [] []) as [[i errors]|[headers rows]];
          now injection H as <-.
      * destruct (flattenRows 0 data [] []) as [[i errors]|[headers rows]];
          now injection H as <-.
      * simpl in H. now injection H as <-.
      * destruct (prepareObjectOfObjects object); now injection H as <-.
      * now injection H as <-.
Qed.

Lemma payload_typeMap_csv (content : json) (p : payload) (rows : list json) :
  toSheetPayloadFromContent content = Some p ->
  dataKindIs "csv" content = true ->
  prop "matrix" content = Some (JArr rows) ->
  forall r c values v,
    rows !! r = Some (JArr values) -> values !! c = Some v ->
    typeMap p !! csvPath r c = Some (inferSimpleHint v).
Proof.
  unfold toSheetPayloadFromContent. intros H C M. rewrite C, M in H.
  destruct (createSheetFromMatrix _ _) as [[s t]|] eqn:E; [|discriminate].
  injection H as <-. simpl. now apply (createSheetFromMatrix_typeMap rows _ s t E).
Qed.

(** C1: the key/value document that holds the string [123] at key [a]
    loads as kind object with an empty type map: nothing is recorded at
    the path [a], where the claim has the type string recorded.
    Serializing the fresh grid with that map then casts the cell to the
    number 123. *)
Theorem json_load_records_no_hint :
  LeafType (JStr "123") HString
  /\ digitsDocument = JObj [("a", JStr "123")]
  /\ option_map (fun p =>
                   (dataKind_ p, typeMap p, typeMap p !! "a",
                    fst (keyValueResult (celldataToMatrix (head (sheets p))) (typeMap p))))
                (toSheetPayloadFromContent digitsDocument)
     = Some (KObject, ∅, None, [("a", JNum (Number "123"))]).
Proof.
  split; [constructor|]. split; [reflexivity|]. vm_compute. reflexivity.
Qed.

Lemma inferSimpleHint_leaf (v : json) :
  (forall t, LeafType v t -> inferSimpleHint v = t)
  /\ (~ Primitive v -> inferSimpleHint v = HString).
Proof.
  split.
  - intros t L. now destruct L.
  - intros N. destruct v; simpl in *; tauto || reflexivity.
Qed.

(** X21: the type map a load returns.  For content of any kind but csv
    (objectKV, array, wrappedArray, objectOfObjects, xlsx, unsupported)
    the map is empty.  For csv content the map holds, for every cell of
    every row of the matrix, under the path made of the row, a comma and
    the column, the runtime primitive type of a cell that is a leaf
    (number, boolean, null or string), and the type string for any other
    cell. *)
Theorem load_typeMap_seeded_for_csv_only (content : json) (p : payload) :
  toSheetPayloadFromContent content = Some p ->
  (dataKind_ p <> KCsv -> typeMap p = ∅)
  /\ (dataKind_ p = KCsv ->
      forall rows r c values v,
        prop "matrix" content = Some (JArr rows) ->
        rows !! r = Some (JArr values) -> values !! c = Some v ->
        exists t, typeMap p !! csvPath r c = Some t
                  /\ (forall t', LeafType v t' -> t = t')
                  /\ (~ Primitive v -> t = HString)).
Proof.
  intros H. pose proof (payload_dataKind_csv content p H) as K. split.
  - intros N. apply (payload_typeMap_empty content p H).
    destruct (dataKindIs "csv" content); [|reflexivity]. exfalso. apply N. now apply K.
  - intros E rows r c values v M L Lv. exists (inferSimpleHint v). split.
    + apply (payload_typeMap_csv content p rows H (proj1 K E) M r c values v L Lv).
    + apply inferSimpleHint_leaf.
Qed.

Lemma load_typeMap_seeded_for_csv_only_witness :
  exists p,
    toSheetPayloadFromContent (parseCsv "a,1") = Some p
    /\ dataKind_ p = KCsv
    /\ typeMap p !! csvPath 0 1 = Some HString
    /\ (dataKind_ p <> KCsv -> typeMap p = ∅)
    /\ (dataKind_ p = KCsv ->
        forall rows r c values v,
          prop "matrix" (parseCsv "a,1") = Some (JArr rows) ->
          rows !! r = Some (JArr values) -> values !! c = Some v ->
          exists t, typeMap p !! csvPath r c = Some t
                    /\ (forall t', LeafType v t' -> t = t')
                    /\ (~ Primitive v -> t = HString)).
Proof.
  assert (L : exists p, toSheetPayloadFromContent (parseCsv "a,1") = Some p
                        /\ dataKind_ p = KCsv
                        /\ typeMap p !! csvPath 0 1 = Some HString).
  { vm_compute. eexists. repeat split. }
  destruct L as [p [H [K T]]]. exists p. split; [exact H|]. split; [exact K|].
  split; [exact T|].
  exact (load_typeMap_seeded_for_csv_only (parseCsv "a,1") p H).
Defined.

(** * Grids without holes *)

Lemma setAt_end {A : Type} (l : slots A) (x : option A) :
  setAt l (length l) x = l ++ [x].
Proof. induction l as [|y l IH]; simpl; [reflexivity | now rewrite IH]. Qed.

Lemma setAt_last {A : Type} (l : slots A) (y x : option A) :
  setAt (l ++ [y]) (length l) x = l ++ [x].
Proof. induction l as [|z l IH]; simpl; [reflexivity | now rewrite IH]. Qed.

Lemma setAt_same {A : Type} (l : slots A) (i : nat) (x : option A) :
  l !! i = Some x -> setAt l i x = l.
Proof.
  revert i. induction l as [|y l IH]; intros [|i] H; simpl in *; try discriminate.
  - now injection H as ->.
  - now rewrite IH.
Qed.

Lemma at_end {A : Type} (l : slots A) : at_ l (length l) = None.
Proof.
  unfold at_, slots. pose proof (lookup_ge_None_2 (l : list (option A)) (length l) (le_n _)) as E.
  now rewrite E.
Qed.

Lemma at_last {A : Type} (l : slots A) (y : option A) : at_ (l ++ [y]) (length l) = y.
Proof.
  unfold at_, slots.
  pose proof (lookup_app_r (l : list (option A)) [y] (length l) (le_n _)) as E.
  rewrite E. now rewrite Nat.sub_diag.
Qed.

Lemma at_lookup {A : Type} (l : slots A) (i : nat) (x : A) :
  l !! i = Some (Some x) -> at_ l i = Some x.
Proof. unfold at_. now intros ->. Qed.

Lemma lookup_map {A B : Type} (f : A -> B) (l : list A) (i : nat) :
  map f l !! i = option_map f (l !! i).
Proof.
  revert i. induction l as [|x l IH]; intros [|i]; simpl; try reflexivity. apply IH.
Qed.

(** Filling the row after the last one of [m], cell by cell. *)
Lemma fill_row (m : matrix) (row : list json) :
  forall (pre : list json),
    pre <> [] \/ row <> [] ->
    fold_left (fun m cell => applyValue m (cd_r cell) (cd_c cell) (cd_v cell))
      (mapIndexed (fun c cell => {| cd_r := length m; cd_c := c; cd_v := Some cell |})
                  (length pre) row)
      (match pre with [] => m | _ => m ++ [Some (map Some pre)] end)
    = m ++ [Some (map Some (pre ++ row))].
Proof.
  induction row as [|x row IH]; intros pre H.
  - destruct H as [H|H]; [|congruence]. simpl. rewrite app_nil_r.
    destruct pre; [congruence | reflexivity].
  - cbn [mapIndexed fold_left cd_r cd_c cd_v].
    assert (E : applyValue (match pre with [] => m | _ => m ++ [Some (map Some pre)] end)
                  (length m) (length pre) (Some x)
                = m ++ [Some (map Some (pre ++ [x]))]).
    { unfold applyValue. destruct pre as [|y pre].
      - rewrite at_end. simpl. apply setAt_end.
      - rewrite at_last. rewrite <- (length_map Some (y :: pre)) at 1.
        rewrite setAt_end, setAt_last. now rewrite map_app. }
    rewrite E. specialize (IH (pre ++ [x])).
    rewrite length_app in IH. simpl in IH. rewrite Nat.add_1_r in IH.
    replace (pre ++ x :: row) with ((pre ++ [x]) ++ row) by now rewrite <- app_assoc.
    rewrite <- IH.
    + destruct (pre ++ [x]) eqn:P; [destruct pre; discriminate | reflexivity].
    + left. destruct pre; discriminate.
Qed.

Lemma fill_dense (grid : list (list json)) :
  Forall (fun row => row <> []) grid ->
  forall m : matrix,
    fold_left applyCell (gridCells (length m) grid) m = m ++ dense grid.
Proof.
  induction grid as [|row grid IH]; intros F m.
  - simpl. now rewrite app_nil_r.
  - inversion F as [|? ? N F']; subst.
    unfold gridCells. cbn [mapIndexed concat]. rewrite fold_left_app.
    pose proof (fill_row m row [] (or_intror N)) as R. simpl in R.
    unfold applyCell at 2. rewrite R.
    specialize (IH F' (m ++ [Some (map Some row)])).
    rewrite length_app in IH. simpl in IH. rewrite Nat.add_1_r in IH.
    unfold gridCells in IH. rewrite IH. simpl. now rewrite <- app_assoc.
Qed.

Lemma celldataToMatrixFromCells_dense (grid : list (list json)) :
  Forall (fun row => row <> []) grid ->
  celldataToMatrixFromCells (gridCells 0 grid) = dense grid.
Proof. intros F. exact (fill_dense grid F []). Qed.

(** Writing into a matrix the cells it already holds changes nothing. *)
Lemma refill_same (cells : list celldatum) (m : matrix) :
  Forall (fun cell => exists row, m !! cd_r cell = Some (Some row)
                                  /\ row !! cd_c cell = Some (cd_v cell)) cells ->
  fold_left applyCell cells m = m.
Proof.
  induction cells as [|cell cells IH]; intros F; [reflexivity|].
  inversion F as [|? ? [row [R C]] F']; subst. simpl.
  assert (E : applyCell m cell = m).
  { unfold applyCell, applyValue. rewrite (at_lookup _ _ _ R).
    rewrite (setAt_same _ _ _ C). now apply setAt_same. }
  rewrite E. now apply IH.
Qed.

Lemma gridCells_in_dense (grid : list (list json)) (r0 : nat) (pre : list (list json)) :
  length pre = r0 ->
  Forall (fun cell => exists row, dense (pre ++ grid) !! cd_r cell = Some (Some row)
                                  /\ row !! cd_c cell = Some (cd_v cell))
         (gridCells r0 grid).
Proof.
  revert r0 pre. induction grid as [|row grid IH]; intros r0 pre L; [constructor|].
  unfold gridCells. cbn [mapIndexed concat]. apply Forall_app. split.
  - apply Forall_forall. intros cell Hin.
    apply list_elem_of_lookup in Hin as [c Hc].
    rewrite mapIndexed_lookup in Hc. simpl in Hc.
    destruct (row !! c) as [x|] eqn:X; [|discriminate]. simpl in Hc. injection Hc as <-.
    exists (map Some row). simpl. split.
    + unfold dense, matrix, slots. rewrite lookup_map, lookup_app_r by lia.
      rewrite L, Nat.sub_diag. reflexivity.
    + unfold slots. now rewrite lookup_map, X.
  - specialize (IH (S r0) (pre ++ [row])).
    rewrite <- app_assoc in IH. apply IH. rewrite length_app. simpl. lia.
Qed.

Lemma foldSlots_dense_row (m : matrix) (r : nat) (row : list json) :
  foldSlots (fun m c cell => applyValue m r c (Some cell)) (map Some row) m
  = fold_left applyCell
      (mapIndexed (fun c cell => {| cd_r := r; cd_c := c; cd_v := Some cell |}) 0 row) m.
Proof.
  unfold foldSlots. generalize 0. revert m.
  induction row as [|x row IH]; intros m i; [reflexivity|].
  simpl. now rewrite IH.
Qed.

Lemma copy_dense (grid : list (list json)) (m : matrix) (r0 : nat) :
  foldIndexed (fun m r row =>
                 match row with
                 | Some cells =>
                     foldSlots (fun m c cell => applyValue m r c (Some cell)) cells m
                 | None => m
                 end) r0 (dense grid) m
  = fold_left applyCell (gridCells r0 grid) m.
Proof.
  revert m r0. induction grid as [|row grid IH]; intros m r0; [reflexivity|].
  unfold gridCells. cbn [dense map foldIndexed mapIndexed concat].
  rewrite fold_left_app, <- foldSlots_dense_row. apply IH.
Qed.

Lemma fold_left_pointwise {A B : Type} (f g : A -> B -> A) (l : list B) :
  Forall (fun x => forall a, f a x = g a x) l ->
  forall a, fold_left f l a = fold_left g l a.
Proof.
  induction 1 as [|x l E _ IH]; intros a; [reflexivity|]. simpl. now rewrite E, IH.
Qed.

Lemma gridCells_entries (grid : list (list json)) (r0 : nat) :
  Forall (Forall (fun cell => cell <> JNull)) grid ->
  Forall (fun cell => Some (cellOrEntry cell) = cd_v cell) (gridCells r0 grid).
Proof.
  revert r0. induction grid as [|row grid IH]; intros r0 N; [constructor|].
  inversion N as [|? ? Nr N']; subst.
  unfold gridCells. cbn [mapIndexed concat]. apply Forall_app. split; [|now apply IH].
  clear N. generalize 0. induction Nr as [|x row Hx _ IHr]; intros c; [constructor|].
  constructor; [|apply IHr].
  unfold cellOrEntry. simpl. destruct x; try reflexivity. now elim Hx.
Qed.

(** The matrix the webview reads from a sheet built over a grid without
    empty rows is the grid. *)
Lemma celldataToMatrix_dense (grid : list (list json)) :
  Forall (fun row => row <> []) grid ->
  Forall (Forall (fun cell => cell <> JNull)) grid ->
  celldataToMatrix (Some (sheet1 (gridCells 0 grid))) = dense grid.
Proof.
  intros F N. unfold celldataToMatrix, sheet1. cbn [sheet_data sheet_celldata].
  rewrite (celldataToMatrixFromCells_dense grid F).
  assert (R : forall m : matrix,
             fold_left (fun m cell => applyValue m (cd_r cell) (cd_c cell)
                                        (Some (cellOrEntry cell)))
               (gridCells 0 grid) m
             = fold_left applyCell (gridCells 0 grid) m).
  { apply fold_left_pointwise.
    eapply Forall_impl; [exact (gridCells_entries grid 0 N)|].
    intros cell E m. unfold applyCell. now rewrite E. }
  rewrite R.
  destruct grid as [|row grid]; [reflexivity|].
  change (dense (row :: grid)) with (Some (map Some row) :: dense grid) at 1.
  cbv iota.
  change (Some (map Some row) :: dense grid) with (dense (row :: grid)).
  match goal with
  | |- fold_left _ _ ?X = _ => replace X with (dense (row :: grid))
  end.
  2:{ symmetry. etransitivity; [exact (copy_dense (row :: grid) [] 0)|].
      exact (fill_dense (row :: grid) F []). }
  apply refill_same. exact (gridCells_in_dense (row :: grid) 0 [] eq_refl).
Qed.

(** * The unedited round trip *)

Lemma createCell_cellOf (r c : nat) (value : option json) :
  createCell r c value = {| cd_r := r; cd_c := c; cd_v := Some (cellOf value) |}.
Proof.
  unfold cellOf, createCell.
  destruct value as [[| | | | |]|]; reflexivity.
Qed.

Lemma cellOf_not_null (value : option json) : cellOf value <> JNull.
Proof.
  unfold cellOf, createCell. destruct value as [[| | | | |]|]; discriminate.
Qed.

Lemma cellOf_text (v : json) :
  isPrimitive v = true -> getCellText (Some (cellOf (Some v))) = toStr v.
Proof.
  destruct v; try discriminate; intros _; reflexivity.
Qed.

Lemma mapIndexed_of_map {A B C : Type} (f : nat -> B -> C) (g : A -> B) (i : nat)
    (l : list A) :
  mapIndexed f i (map g l) = mapIndexed (fun i x => f i (g x)) i l.
Proof.
  revert i. induction l as [|x l IH]; intros i; simpl; [reflexivity | now rewrite IH].
Qed.

Lemma createSheetFromObject_grid (o : list (string * json)) :
  o <> [] ->
  createSheetFromObject o = ([sheet1 (gridCells 0 (keyValueGrid o))], KObject).
Proof.
  intros N. unfold createSheetFromObject, gridCells, keyValueGrid.
  rewrite mapIndexed_of_map.
  destruct o as [|e o]; [congruence|].
  do 3 f_equal. f_equal. apply mapIndexed_ext. intros i x. simpl.
  now rewrite !createCell_cellOf.
Qed.

Lemma keyValueGrid_rows (o : list (string * json)) :
  Forall (fun row => row <> []) (keyValueGrid o)
  /\ Forall (Forall (fun cell => cell <> JNull)) (keyValueGrid o).
Proof.
  unfold keyValueGrid. split; apply List.Forall_forall; intros row Hin;
    apply in_map_iff in Hin as [e [<- _]]; [discriminate|].
  repeat constructor; apply cellOf_not_null.
Qed.

(** The object the entries of [o] leave when they are set one after the
    other. *)
Lemma objGet_setEntries (o : list (string * json)) :
  NoDup (objKeys o) ->
  forall res k,
    objGet k (fold_left setEntry o res)
    = match objGet k o with Some v => Some v | None => objGet k res end.
Proof.
  induction o as [|[k1 v1] o IH]; intros D res k; [reflexivity|].
  simpl in D. apply NoDup_cons in D as [Hn D].
  cbn [fold_left]. rewrite (IH D). unfold setEntry. cbn [fst snd objGet].
  rewrite objGet_objSet.
  destruct (String.eqb k1 k) eqn:E.
  - apply String.eqb_eq in E as <-.
    assert (G : objGet k1 o = None).
    { apply objGet_None_iff. intros Hin. apply Hn. now apply list_elem_of_In. }
    now rewrite G.
  - reflexivity.
Qed.

(** On the leaves the specification reads back, the cast engine with no
    hint agrees. *)
Lemma stableLeaf_code (v : json) :
  stableLeaf v <-> isPrimitive v = true /\ fst (castWithType (toStr v) None) = v.
Proof.
  unfold stableLeaf. rewrite (castWithType_rules (toStr v) None) by now left.
  rewrite isPrimitive_iff. split; intros [P C]; (split; [exact P|]).
  - destruct C as [type C]. injection C as C. now rewrite C.
  - exists (snd (castWithType (toStr v) None)).
    rewrite <- C at 2. now destruct (castWithType (toStr v) None).
Qed.

Lemma stableLeaf_primitive (v : json) : stableLeaf v -> isPrimitive v = true.
Proof. intros S. now apply stableLeaf_code in S. Qed.

Lemma stableLeaf_reads (v : json) :
  stableLeaf v -> fst (castWithType (toStr v) None) = v.
Proof. intros S. now apply stableLeaf_code in S. Qed.

Lemma stableLeaf_cast (v : json) (tm : gmap string typeTag) (path : string) :
  stableLeaf v -> inherited path = false -> tm !! path = None ->
  castCell (toStr v) path tm = (v, record tm (path, toStr v)).
Proof.
  intros S P T. apply stableLeaf_code in S as [_ S]. rewrite castCell_pair, (hintAt_plain _ _ P), T. now rewrite S.
Qed.

Lemma keyValue_loop (o : list (string * json)) :
  NoDup (objKeys o) ->
  Forall (fun k => k <> "") (objKeys o) ->
  Forall stableLeaf (objValues o) ->
  Forall (fun k => ~ In k inheritedNames) (objKeys o) ->
  forall i res tm,
    (forall k, In k (objKeys o) -> tm !! k = None) ->
    fst (foldIndexed keyValueRow i (dense (keyValueGrid o)) (res, tm))
    = fold_left setEntry o res.
Proof.
  induction o as [|[k v] o IH]; intros D N S P i res tm F; [reflexivity|].
  simpl in D, N, S, P. apply NoDup_cons in D as [Hn D].
  inversion N as [|? ? Nk N']; subst. inversion S as [|? ? Sv S']; subst.
  inversion P as [|? ? Pk P']; subst. apply inherited_false in Pk.
  change (dense (keyValueGrid ((k, v) :: o)))
    with (Some [Some (cellOf (Some (JStr k))); Some (cellOf (Some v))]
          :: dense (keyValueGrid o)).
  cbn [foldIndexed].
  assert (E : keyValueRow (res, tm) i
                (Some [Some (cellOf (Some (JStr k))); Some (cellOf (Some v))])
              = (objSet k v res, record tm (k, toStr v))).
  { unfold keyValueRow. cbn [at_ lookup list_lookup].
    change (getCellText (Some (cellOf (Some (JStr k))))) with k.
    apply nonEmpty_true in Nk. rewrite Nk.
    rewrite (cellOf_text v (stableLeaf_primitive v Sv)).
    rewrite (stableLeaf_cast v tm k Sv Pk); [|apply F; now left].
    now rewrite (objAssign_other _ _ _ (inherited_proto _ Pk)). }
  rewrite E. apply (IH D N' S' P').
  intros k' Hin. rewrite record_lookup.
  destruct (String.eqb k k') eqn:K.
  - apply String.eqb_eq in K as <-. exfalso. apply Hn. now apply list_elem_of_In.
  - apply F. now right.
Qed.

Lemma keyValue_round_trip (o : list (string * json)) :
  o <> [] -> StableObject o ->
  Forall (fun k => ~ In k inheritedNames) (objKeys o) ->
  forall k,
    objGet k (fst (keyValueResult
                     (celldataToMatrix (head (fst (createSheetFromObject o)))) ∅))
    = objGet k o.
Proof.
  intros N [[D K] [S _]] P k.
  rewrite (createSheetFromObject_grid o N). cbn [fst head].
  destruct (keyValueGrid_rows o) as [G1 G2].
  rewrite (celldataToMatrix_dense _ G1 G2). unfold keyValueResult.
  rewrite (keyValue_loop o D K S P 0 [] ∅) by (intros; apply lookup_empty).
  rewrite (objGet_setEntries o D). now destruct (objGet k o).
Qed.

(** ** Paths of distinct cells are distinct *)

Lemma append_char_inj (p : ascii -> bool) (x : ascii) (a a' b b' : string) :
  p x = true ->
  containsChar p a = false -> containsChar p a' = false ->
  a +:+ String x b = a' +:+ String x b' -> a = a' /\ b = b'.
Proof.
  intros Px. revert a'. induction a as [|y a IH]; intros [|y' a'] Ha Ha' E; simpl in *.
  - injection E as ->. now split.
  - injection E as <- _. rewrite Px in Ha'. discriminate.
  - injection E as -> _. rewrite Px in Ha. discriminate.
  - injection E as -> E.
    apply orb_false_iff in Ha as [_ Ha]. apply orb_false_iff in Ha' as [_ Ha'].
    destruct (IH a' Ha Ha' E) as [-> ->]. now split.
Qed.

Lemma string_of_uint_no_bracket (d : Decimal.uint) :
  containsChar isBracket (NilEmpty.string_of_uint d) = false.
Proof. induction d; simpl; auto. Qed.

Lemma ofNat_no_bracket (n : nat) : containsChar isBracket (ofNat n) = false.
Proof.
  unfold ofNat, NilZero.string_of_uint.
  destruct (Nat.to_uint n) eqn:E; try (rewrite <- E; apply string_of_uint_no_bracket);
    try reflexivity; apply string_of_uint_no_bracket.
Qed.

Lemma fieldPath_eq (r : nat) (h : string) :
  fieldPath r h = String "[" (ofNat (r - 1) +:+ String "]" ("." +:+ h)).
Proof.
  unfold fieldPath, rowPath. simpl. f_equal. now rewrite append_assoc.
Qed.

Lemma fieldPath_inj (r r' : nat) (h h' : string) :
  1 <= r -> 1 <= r' -> fieldPath r h = fieldPath r' h' -> r = r' /\ h = h'.
Proof.
  intros R R' E. rewrite !fieldPath_eq in E. injection E as E.
  apply (append_char_inj isBracket) in E as [E1 E2];
    try reflexivity; try apply ofNat_no_bracket.
  apply ofNat_inj in E1. simpl in E2. injection E2 as ->. split; [lia | reflexivity].
Qed.

Lemma dotted_inj (k k' f f' : string) :
  dotFree k = true -> dotFree k' = true ->
  k +:+ "." +:+ f = k' +:+ "." +:+ f' -> k = k' /\ f = f'.
Proof.
  unfold dotFree. intros D D' E.
  apply negb_true_iff in D, D'.
  now apply (append_char_inj (fun c => Ascii.eqb c ".") "." k k' f f' eq_refl D D').
Qed.

Lemma firstVisit_None (q : string) (vs : list visit) :
  (forall raw, ~ In (q, raw) vs) -> firstVisit q vs = None.
Proof.
  induction vs as [|[p raw] vs IH]; intros H; [reflexivity|]. simpl.
  destruct (String.eqb p q) eqn:E.
  - apply String.eqb_eq in E as ->. exfalso. apply (H raw). now left.
  - apply IH. intros raw' Hin. apply (H raw'). now right.
Qed.

(** A pass over cells at other paths leaves a path unrecorded. *)
Lemma fold_record_elsewhere (vs : list visit) (tm : gmap string typeTag) (q : string) :
  tm !! q = None -> (forall raw, ~ In (q, raw) vs) ->
  fold_left record vs tm !! q = None.
Proof.
  intros T H. destruct (inherited q) eqn:P.
  - now apply fold_record_inherited.
  - rewrite (fold_record_fresh vs tm q P T), (firstVisit_None q vs H). reflexivity.
Qed.

Lemma tableVisits_In (headers : list string) (r : nat) (row : slots json) q raw :
  In (q, raw) (tableVisits headers r row) -> exists h, In h headers /\ q = fieldPath r h.
Proof.
  unfold tableVisits, headerCellTexts. rewrite mapIndexed_map.
  intros Hin. apply list_elem_of_In, list_elem_of_lookup in Hin as [c Hc].
  rewrite mapIndexed_lookup in Hc. destruct (headers !! c) as [h|] eqn:L; [|discriminate].
  simpl in Hc. injection Hc as <- _. exists h. split; [|reflexivity].
  apply list_elem_of_In. eapply list_elem_of_lookup_2. exact L.
Qed.

(** ** The grid of a table *)

Lemma mapIndexed_shift {A B : Type} (f : nat -> A -> B) (i : nat) (l : list A) :
  mapIndexed (fun i x => f (i + 1) x) i l = mapIndexed f (i + 1) l.
Proof.
  revert i. induction l as [|x l IH]; intros i; simpl; [reflexivity|].
  f_equal. exact (IH (S i)).
Qed.

Lemma headerCells_grid (headers : list string) :
  headerCells headers
  = mapIndexed (fun c cell => {| cd_r := 0; cd_c := c; cd_v := Some cell |}) 0
      (map (fun h => cellOf (Some (JStr h))) headers).
Proof.
  unfold headerCells. rewrite mapIndexed_of_map. apply mapIndexed_ext.
  intros i x. apply createCell_cellOf.
Qed.

Lemma createSheetFromFlatRows_grid (headers : list string)
    (flats : list (list (string * json))) :
  createSheetFromFlatRows headers flats = [sheet1 (gridCells 0 (tableGrid headers flats))].
Proof.
  unfold createSheetFromFlatRows, tableGrid, gridCells.
  cbn [mapIndexed concat]. rewrite <- headerCells_grid. do 3 f_equal.
  rewrite mapIndexed_of_map. f_equal.
  etransitivity;
    [|exact (mapIndexed_shift
               (fun r (x : list (string * json)) =>
                  mapIndexed (fun c cell => {| cd_r := r; cd_c := c; cd_v := Some cell |}) 0
                    (map (fun h => cellOf (Some (ownOrEmpty x h))) headers)) 0 flats)].
  apply mapIndexed_ext. intros i x. rewrite mapIndexed_of_map.
  apply mapIndexed_ext. intros c h. apply createCell_cellOf.
Qed.

Lemma tableGrid_rows (headers : list string) (flats : list (list (string * json))) :
  headers <> [] ->
  Forall (fun row => row <> []) (tableGrid headers flats)
  /\ Forall (Forall (fun cell => cell <> JNull)) (tableGrid headers flats).
Proof.
  intros N. unfold tableGrid. split.
  - constructor; [destruct headers; [congruence | discriminate]|].
    apply List.Forall_forall. intros row Hin. apply in_map_iff in Hin as [e [<- _]].
    destruct headers; [congruence | discriminate].
  - constructor.
    + apply List.Forall_forall. intros cell Hin. apply in_map_iff in Hin as [e [<- _]].
      apply cellOf_not_null.
    + apply List.Forall_forall. intros row Hin. apply in_map_iff in Hin as [e [<- _]].
      apply List.Forall_forall. intros cell Hin. apply in_map_iff in Hin as [h [<- _]].
      apply cellOf_not_null.
Qed.

Lemma tableGrid_empty (flats : list (list (string * json))) :
  celldataToMatrix (head (createSheetFromFlatRows [] flats)) = [].
Proof.
  assert (E : forall i,
             concat (mapIndexed (fun rowIndex (rowObj : list (string * json)) =>
                                   mapIndexed (fun c key =>
                                                 createCell (rowIndex + 1) c
                                                   (Some (ownOrEmpty rowObj key)))
                                              0 (@nil string)) i flats) = []).
  { induction flats as [|x flats IH]; intros i; [reflexivity|]. simpl. apply IH. }
  unfold createSheetFromFlatRows, headerCells. cbn [mapIndexed app]. rewrite E.
  reflexivity.
Qed.

Lemma headerRow_texts (headers : list string) :
  Forall (fun h => h <> "") headers ->
  filter (fun value => nonEmpty value = true)
    (omap (fun cell : option json =>
             match cell with
             | Some c => Some (getCellText (Some c))
             | None => None
             end)
          (map Some (map (fun h => cellOf (Some (JStr h))) headers)))
  = headers.
Proof.
  induction 1 as [|h headers N _ IH]; [reflexivity|].
  cbn [map omap]. change (getCellText (Some (cellOf (Some (JStr h))))) with h.
  cbn [list_omap]. rewrite filter_cons_True by now apply nonEmpty_true.
  f_equal. exact IH.
Qed.

Lemma headerTexts_tableGrid (headers : list string) (flats : list (list (string * json))) :
  Forall (fun h => h <> "") headers ->
  headerTexts (dense (tableGrid headers flats)) = headers.
Proof.
  intros N. unfold headerTexts, tableGrid. cbn [dense map at_ lookup list_lookup].
  now apply headerRow_texts.
Qed.

(** ** Flattening rows of primitives *)

Lemma primitive_not_rejected (o : list (string * json)) (key : string) :
  Forall (fun v => isPrimitive v = true) (objValues o) -> rejected o key = false.
Proof.
  intros P. unfold rejected. destruct (objGet key o) as [v|] eqn:G; [|reflexivity].
  apply objGet_Some_In in G. rewrite List.Forall_forall in P.
  rewrite (P v); [reflexivity|]. unfold objValues. apply in_map_iff. now exists (key, v).
Qed.

Lemma filter_none {A : Type} (p : A -> bool) (l : list A) :
  (forall x, p x = false) -> List.filter p l = [].
Proof.
  intros H. induction l as [|x l IH]; [reflexivity|]. simpl. now rewrite H.
Qed.

Lemma filter_none_in {A : Type} (p : A -> bool) (l : list A) :
  (forall x, In x l -> negb (p x) = false) -> List.filter (fun x => negb (p x)) l = [].
Proof.
  induction l as [|x l IH]; intros H; [reflexivity|]. simpl.
  rewrite (H x (or_introl eq_refl)). apply IH. intros y Hy. apply H. now right.
Qed.

Lemma filter_every {A : Type} (p : A -> bool) (l : list A) :
  (forall x, p x = true) -> List.filter p l = l.
Proof.
  intros H. induction l as [|x l IH]; [reflexivity|]. simpl. now rewrite H, IH.
Qed.

Lemma flatten_primitives (step : list (string * json) * list string -> string
                                 -> list (string * json) * list string)
    (msg : string -> string) (o : list (string * json)) :
  (forall out errors key,
      step (out, errors) key
      = if rejected o key then (out, errors ++ [msg key])
        else (storeFlat o out key, errors)) ->
  Forall (fun v => isPrimitive v = true) (objValues o) ->
  ordinaryKeys o ->
  exists flat,
    fold_left step (objKeys o) ([], []) = (flat, [])
    /\ forall k, objGet k flat = objGet k o.
Proof.
  intros Hstep P Q. rewrite (flatten_fold step msg o Hstep).
  rewrite (filter_none (rejected o)) by (intros k; now apply primitive_not_rejected).
  rewrite (filter_every (fun k => negb (rejected o k)))
    by (intros k; now rewrite primitive_not_rejected).
  eexists. split; [reflexivity|]. intros k.
  destruct (String.eqb k protoKey) eqn:K.
  { apply String.eqb_eq in K. subst k.
    pose proof (storeFlat_fold_no_proto o (objKeys o) [] eq_refl) as F.
    unfold objHas in F. destruct (objGet protoKey (fold_left _ _ _)); [discriminate|].
    symmetry. apply objGet_None_iff. intros Hin.
    unfold ordinaryKeys in Q. rewrite List.Forall_forall in Q. now apply (Q _ Hin). }
  apply String.eqb_neq in K.
  rewrite storeFlat_fold_get by (auto || reflexivity).
  destruct (existsb (String.eqb k) (objKeys o)) eqn:E.
  - destruct (objGet k o) as [v|] eqn:G; [|reflexivity]. simpl. f_equal.
    apply objGet_Some_In in G. rewrite List.Forall_forall in P.
    assert (Pv : isPrimitive v = true).
    { apply P. unfold objValues. apply in_map_iff. now exists (k, v). }
    now destruct v.
  - simpl. symmetry. apply objGet_None_iff. intros Hin.
    apply existsb_eqb_In in Hin. congruence.
Qed.

Lemma flattenRowObject_primitives (o : list (string * json)) :
  Forall (fun v => isPrimitive v = true) (objValues o) ->
  ordinaryKeys o ->
  exists flat, flattenRowObject (JObj o) = FlatOk flat
               /\ forall k, objGet k flat = objGet k o.
Proof.
  intros P Q.
  destruct (flatten_primitives (flattenRowField o)
              (rejectionAt nestedObjectAt (fun k => k) o) o
              (flattenRowField_cases o) P Q) as [flat [E G]].
  exists flat. unfold flattenRowObject. now rewrite E.
Qed.

Lemma flattenInnerObject_primitives (o : list (string * json)) (parent : string) :
  Forall (fun v => isPrimitive v = true) (objValues o) ->
  ordinaryKeys o ->
  exists flat, flattenInnerObject (JObj o) parent = FlatOk flat
               /\ forall k, objGet k flat = objGet k o.
Proof.
  intros P Q.
  destruct (flatten_primitives (flattenInnerField o parent)
              (rejectionAt nestedTooDeepAt (fun k => parent +:+ "." +:+ k) o) o
              (flattenInnerField_cases o parent) P Q) as [flat [E G]].
  exists flat. unfold flattenInnerObject. now rewrite E.
Qed.

Lemma sameProps_keys (a b : list (string * json)) (k : string) :
  (forall k, objGet k a = objGet k b) -> In k (objKeys a) <-> In k (objKeys b).
Proof.
  intros H. split; intros Hin.
  - destruct (objGet k b) eqn:G.
    + apply objGet_Some_In in G. unfold objKeys. apply in_map_iff.
      eexists. split; [|exact G]. reflexivity.
    + apply objGet_key in Hin as [v Hv]. congruence.
  - destruct (objGet k a) eqn:G.
    + apply objGet_Some_In in G. unfold objKeys. apply in_map_iff.
      eexists. split; [|exact G]. reflexivity.
    + apply objGet_key in Hin as [v Hv]. congruence.
Qed.

(** The headers: distinct, and the keys seen so far. *)
Lemma addHeaders_spec (keys : list string) :
  forall hs,
    NoDup hs ->
    NoDup (addHeaders hs keys)
    /\ forall h, In h (addHeaders hs keys) <-> In h hs \/ In h keys.
Proof.
  unfold addHeaders. induction keys as [|k keys IH]; intros hs D.
  - simpl. split; [exact D | tauto].
  - cbn [fold_left]. destruct (existsb (String.eqb k) hs) eqn:E.
    + destruct (IH hs D) as [D' M]. split; [exact D'|].
      intros h. rewrite M. apply existsb_eqb_In in E. simpl.
      split; [tauto|]. intros [H|[<-|H]]; tauto.
    + assert (Hn : ~ In k hs).
      { intros Hin. apply existsb_eqb_In in Hin. congruence. }
      assert (D2 : NoDup (hs ++ [k])).
      { apply NoDup_app. split; [exact D|]. split.
        - intros x Hx Hk. apply list_elem_of_In in Hx.
          apply list_elem_of_In in Hk. destruct Hk as [<-|[]]. tauto.
        - apply NoDup_singleton. }
      destruct (IH (hs ++ [k]) D2) as [D' M]. split; [exact D'|].
      intros h. rewrite M, in_app_iff. simpl. tauto.
Qed.

(** ** The rows of a table, read back *)

Lemma flattenRows_outcome (rows : list json) :
  Forall PrimitiveRow rows ->
  forall i hs fs,
    NoDup hs ->
    exists hs' flats,
      flattenRows i rows hs fs = inr (hs', fs ++ flats)
      /\ Forall2 FlatOf rows flats
      /\ NoDup hs'
      /\ forall h, In h hs' <-> In h hs \/ KeyOfSome rows h.
Proof.
  induction 1 as [|row rows [ro [-> [P Q]]] _ IH]; intros i hs fs D.
  - exists hs, []. simpl. rewrite app_nil_r.
    split; [reflexivity|]. split; [constructor|]. split; [exact D|].
    intros h. split; [now left|]. intros [H|[o [[] _]]]. exact H.
  - destruct (flattenRowObject_primitives ro P Q) as [flat [E G]].
    cbn [flattenRows]. rewrite E.
    destruct (addHeaders_spec (objKeys flat) hs D) as [D1 M1].
    destruct (IH (S i) (addHeaders hs (objKeys flat)) (fs ++ [flat]) D1)
      as [hs' [flats [F [R [D2 M2]]]]].
    exists hs', (flat :: flats). rewrite F, <- app_assoc. split; [reflexivity|].
    split; [constructor; [now exists ro | exact R]|]. split; [exact D2|].
    intros h. rewrite M2, M1, (sameProps_keys flat ro h G). unfold KeyOfSome. split.
    + intros [[H|H]|[o [Hin Hk]]]; [now left | |].
      * right. exists ro. split; [now left | exact H].
      * right. exists o. split; [now right | exact Hk].
    + intros [H|[o [[Hin|Hin] Hk]]]; [now left; left | |].
      * injection Hin as <-. left. now right.
      * right. exists o. now split.
Qed.

Lemma stableLeaf_empty : stableLeaf (JStr "").
Proof. apply stableLeaf_code. split; reflexivity. Qed.

Lemma stableLeaf_blank (v : json) :
  stableLeaf v -> nonEmpty (toStr v) = negb (blankValue v).
Proof.
  intros S. apply stableLeaf_code in S as [P S]. unfold nonEmpty. destruct (String.eqb (toStr v) "") eqn:E.
  - apply String.eqb_eq in E. rewrite E in S. simpl in S. subst v. reflexivity.
  - destruct v; try reflexivity. simpl in E. simpl. now rewrite E.
Qed.

Lemma ownOrEmpty_stable (flat : list (string * json)) (h : string) :
  Forall stableLeaf (objValues flat) -> stableLeaf (ownOrEmpty flat h).
Proof.
  intros S. unfold ownOrEmpty. destruct (objGet h flat) as [v|] eqn:G.
  - apply objGet_Some_In in G. rewrite List.Forall_forall in S. apply S.
    unfold objValues. apply in_map_iff. now exists (h, v).
  - apply stableLeaf_empty.
Qed.

Lemma at_rowCells (pre hs : list string) (h : string) (flat : list (string * json)) :
  at_ (rowCells (pre ++ h :: hs) flat) (length pre)
  = Some (cellOf (Some (ownOrEmpty flat h))).
Proof.
  unfold at_, rowCells, slots. rewrite !lookup_map.
  rewrite lookup_app_r by lia. now rewrite Nat.sub_diag.
Qed.

Lemma rowCell_text (pre hs : list string) (h : string) (flat : list (string * json)) :
  StableFlat flat ->
  getCellText (at_ (rowCells (pre ++ h :: hs) flat) (length pre))
  = toStr (ownOrEmpty flat h).
Proof.
  intros S. rewrite at_rowCells. apply cellOf_text.
  exact (stableLeaf_primitive _ (S h)).
Qed.

Lemma stableFlat_of (row : json) (flat : list (string * json)) :
  StableRow row -> FlatOf row flat -> StableFlat flat.
Proof.
  intros [o [E [_ [S _]]]] [ro [E' G]] h. rewrite E' in E. injection E as <-.
  unfold ownOrEmpty. rewrite G. exact (ownOrEmpty_stable ro h S).
Qed.

(** One data row of the grid, visited by the row loop of a table. *)
Lemma tableLoop (step : list json * gmap string typeTag -> nat -> option (slots json)
                        -> list json * gmap string typeTag)
    (headers : list string) (P : list (string * json) -> Prop)
    (rowOut : list (string * json) -> json) (keep : list (string * json) -> bool) :
  (forall outs tm r flat,
      P flat -> 1 <= r ->
      (forall h, In h headers -> tm !! fieldPath r h = None) ->
      step (outs, tm) r (Some (rowCells headers flat))
      = (if keep flat then outs ++ [rowOut flat] else outs,
         fold_left record (tableVisits headers r (rowCells headers flat)) tm)) ->
  forall flats r outs tm,
    Forall P flats -> 1 <= r ->
    (forall r' h, r <= r' -> In h headers -> tm !! fieldPath r' h = None) ->
    fst (foldIndexed step r (map (fun flat => Some (rowCells headers flat)) flats)
           (outs, tm))
    = outs ++ map rowOut (List.filter keep flats).
Proof.
  intros Hstep. induction flats as [|flat flats IH]; intros r outs tm F R T.
  - simpl. now rewrite app_nil_r.
  - inversion F as [|? ? Pf F']; subst. cbn [map foldIndexed].
    rewrite (Hstep outs tm r flat Pf R) by (intros h Hh; apply T; [lia | exact Hh]).
    rewrite (IH (S r)); [| exact F' | lia |].
    + cbn [List.filter]. destruct (keep flat); [|reflexivity].
      now rewrite <- app_assoc.
    + intros r' h Hr Hh. apply fold_record_elsewhere; [apply T; [lia | exact Hh]|].
      intros raw Hin. apply tableVisits_In in Hin as [h' [_ E]].
      apply fieldPath_inj in E as [E _]; lia.
Qed.

Lemma arrayFields_values (r : nat) (flat : list (string * json)) :
  1 <= r ->
  StableFlat flat ->
  forall hs pre o0 b0 tm0,
    NoDup hs ->
    Forall (fun h => h <> protoKey) hs ->
    (forall h, In h hs -> tm0 !! fieldPath r h = None) ->
    fst (foldIndexed (arrayField r (rowCells (pre ++ hs) flat)) (length pre) hs
           (o0, b0, tm0))
    = (fold_left (setFilled flat) hs o0, b0 || anyFilled hs flat).
Proof.
  intros R S. induction hs as [|h hs IH]; intros pre o0 b0 tm0 D Q T.
  - simpl. now rewrite orb_false_r.
  - apply NoDup_cons in D as [Hn D]. inversion Q as [|? ? Qh Q']; subst.
    cbn [foldIndexed].
    rewrite arrayField_eq, (rowCell_text pre hs h flat S).
    rewrite (objAssign_other _ _ _ Qh).
    rewrite (stableLeaf_blank _ (S h)).
    rewrite (hintAt_plain _ _ (fieldPath_plain r h)), (T h (or_introl eq_refl)).
    rewrite (stableLeaf_reads _ (S h)).
    specialize (IH (pre ++ [h])). rewrite <- app_assoc in IH. simpl in IH.
    rewrite length_app in IH. simpl in IH. rewrite Nat.add_1_r in IH.
    rewrite IH; [| exact D | exact Q' |].
    + cbn [fold_left]. unfold anyFilled. cbn [existsb]. unfold setFilled.
      destruct (blankValue (ownOrEmpty flat h)), b0; reflexivity.
    + intros h' Hh'. rewrite record_lookup.
      destruct (String.eqb (fieldPath r h) (fieldPath r h')) eqn:E.
      * apply String.eqb_eq, fieldPath_inj in E as [_ <-]; try lia.
        exfalso. apply Hn. now apply list_elem_of_In.
      * apply T. now right.
Qed.

Lemma arrayRow_cells (headers : list string) (outs : list json)
    (tm : gmap string typeTag) (r : nat) (flat : list (string * json)) :
  NoDup headers ->
  Forall (fun h => h <> protoKey) headers ->
  StableFlat flat -> 1 <= r ->
  (forall h, In h headers -> tm !! fieldPath r h = None) ->
  arrayRow false headers (outs, tm) r (Some (rowCells headers flat))
  = (if anyFilled headers flat
     then outs ++ [JObj (fold_left (setFilled flat) headers [])] else outs,
     fold_left record (tableVisits headers r (rowCells headers flat)) tm).
Proof.
  intros D Q S R T.
  pose proof (arrayFields_values r flat R S headers [] [] false tm D Q T) as V.
  pose proof (arrayFields_typeMap r (rowCells headers flat) headers ([], false, tm)) as M.
  unfold arrayRow. cbn [rowOf]. simpl in V, M.
  destruct (foldIndexed (arrayField r (rowCells headers flat)) 0 headers ([], false, tm))
    as [[rowObj hasValue] tm'].
  simpl in V, M. injection V as -> ->. subst tm'.
  now destruct (anyFilled headers flat).
Qed.

Lemma objGet_unique (k : string) (v : json) (o : list (string * json)) :
  NoDup (objKeys o) -> In (k, v) o -> objGet k o = Some v.
Proof.
  induction o as [|[k1 v1] o IH]; intros D Hin; [destruct Hin|].
  simpl in D. apply NoDup_cons in D as [Hn D]. simpl.
  destruct Hin as [E|Hin].
  - injection E as -> ->. now rewrite String.eqb_refl.
  - destruct (String.eqb k1 k) eqn:E.
    + apply String.eqb_eq in E as ->. exfalso. apply Hn.
      apply list_elem_of_In. unfold objKeys. apply in_map_iff. now exists (k, v).
    + now apply IH.
Qed.

Lemma objGet_setFilled (flat : list (string * json)) (hs : list string) :
  NoDup hs ->
  forall o0 k,
    objGet k (fold_left (setFilled flat) hs o0)
    = if existsb (String.eqb k) hs && negb (blankValue (ownOrEmpty flat k))
      then Some (ownOrEmpty flat k) else objGet k o0.
Proof.
  induction hs as [|h hs IH]; intros D o0 k; [reflexivity|].
  apply NoDup_cons in D as [Hn D]. cbn [fold_left existsb]. rewrite (IH D).
  destruct (String.eqb k h) eqn:E.
  - apply String.eqb_eq in E as ->.
    assert (X : existsb (String.eqb h) hs = false).
    { destruct (existsb (String.eqb h) hs) eqn:X; [|reflexivity].
      apply existsb_eqb_In in X. exfalso. apply Hn. now apply list_elem_of_In. }
    rewrite X. simpl. unfold setFilled.
    destruct (blankValue (ownOrEmpty flat h)); [reflexivity|]. simpl.
    apply objGet_objSet_eq.
  - simpl. destruct (existsb (String.eqb k) hs && negb (blankValue (ownOrEmpty flat k)));
      [reflexivity|].
    unfold setFilled. destruct (blankValue (ownOrEmpty flat h)); [reflexivity|].
    apply objGet_objSet_ne. intros ->. now rewrite String.eqb_refl in E.
Qed.

Lemma ownOrEmpty_same (flat ro : list (string * json)) (h : string) :
  (forall k, objGet k flat = objGet k ro) -> ownOrEmpty flat h = ownOrEmpty ro h.
Proof. intros G. unfold ownOrEmpty. now rewrite G. Qed.

Lemma anyFilled_blankFields (headers : list string) (flat ro : list (string * json)) :
  (forall k, objGet k flat = objGet k ro) ->
  NoDup (objKeys ro) ->
  (forall k, In k (objKeys ro) -> In k headers) ->
  anyFilled headers flat = negb (blankFields (JObj ro)).
Proof.
  intros G D K. apply eq_true_iff_eq. unfold anyFilled, blankFields.
  rewrite negb_true_iff, <- not_true_iff_false, forallb_forall, existsb_exists. split.
  - intros [h [Hh B]] A. rewrite (ownOrEmpty_same flat ro h G) in B.
    unfold ownOrEmpty in B. destruct (objGet h ro) as [v|] eqn:E; [|discriminate].
    apply objGet_Some_In in E. rewrite (A v) in B; [discriminate|].
    unfold objValues. apply in_map_iff. now exists (h, v).
  - intros A. destruct (existsb (fun v => negb (blankValue v)) (objValues ro)) eqn:X.
    + apply existsb_exists in X as [v [Hv B]].
      unfold objValues in Hv. apply in_map_iff in Hv as [[k v'] [E Hin]].
      simpl in E. subst v'. exists k. split.
      * apply K. unfold objKeys. apply in_map_iff. now exists (k, v).
      * rewrite (ownOrEmpty_same flat ro k G). unfold ownOrEmpty.
        now rewrite (objGet_unique k v ro D Hin).
    + exfalso. apply A. intros v Hv.
      destruct (blankValue v) eqn:B; [reflexivity|].
      assert (Y : existsb (fun v => negb (blankValue v)) (objValues ro) = true).
      { apply existsb_exists. exists v. now rewrite B. }
      congruence.
Qed.

Lemma arrayRow_trip (headers : list string) (row : json) (flat : list (string * json)) :
  NoDup headers -> FlatOf row flat ->
  (forall k, KeyOfSome [row] k -> In k headers) ->
  ArrayTrip row (JObj (fold_left (setFilled flat) headers [])).
Proof.
  intros D [ro [-> G]] K. exists ro, (fold_left (setFilled flat) headers []).
  repeat split. intros k. rewrite (objGet_setFilled flat headers D).
  rewrite (ownOrEmpty_same flat ro k G). unfold ownOrEmpty.
  destruct (objGet k ro) as [v|] eqn:E.
  - assert (Hk : existsb (String.eqb k) headers = true).
    { apply existsb_eqb_In, K. exists ro. split; [now left|].
      apply objGet_Some_In in E. unfold objKeys. apply in_map_iff. now exists (k, v). }
    rewrite Hk. simpl. now destruct (blankValue v).
  - simpl. now rewrite andb_false_r.
Qed.

Lemma Forall2_kept {A B C : Type} (R : A -> B -> Prop) (T : A -> C -> Prop)
    (keepA : A -> bool) (keepB : B -> bool) (out : B -> C) (l : list A) (l' : list B) :
  Forall2 R l l' ->
  (forall a b, In a l -> R a b -> keepB b = keepA a /\ T a (out b)) ->
  Forall2 T (List.filter keepA l) (map out (List.filter keepB l')).
Proof.
  induction 1 as [|a b l l' Rab _ IH]; intros H; [constructor|].
  destruct (H a b (or_introl eq_refl) Rab) as [K Tab].
  cbn [List.filter]. rewrite K.
  assert (IH' : Forall2 T (List.filter keepA l) (map out (List.filter keepB l'))).
  { apply IH. intros a' b' Hin. apply H. now right. }
  destruct (keepA a); [constructor; assumption | exact IH'].
Qed.

Lemma stableRow_primitive (row : json) : StableRow row -> PrimitiveRow row.
Proof.
  intros [o [-> [_ [S Q]]]]. exists o. split; [reflexivity|]. split; [|exact Q].
  eapply Forall_impl; [exact S|]. intros v Sv. now apply stableLeaf_primitive.
Qed.

Lemma keptRows_no_keys (rows : list json) :
  Forall StableRow rows -> (forall k, ~ KeyOfSome rows k) -> keptRows rows = [].
Proof.
  intros S K. unfold keptRows. apply filter_none_in.
  intros row Hin. rewrite List.Forall_forall in S.
  destruct (S row Hin) as [o [-> _]].
  destruct o as [|[k v] o]; [reflexivity|].
  exfalso. apply (K k). exists ((k, v) :: o). split; [exact Hin | now left].
Qed.

Lemma headers_nonEmpty (rows : list json) (headers : list string) :
  Forall StableRow rows ->
  (forall h, In h headers -> KeyOfSome rows h) ->
  Forall (fun h => h <> "") headers.
Proof.
  intros S K. apply List.Forall_forall. intros h Hin.
  destruct (K h Hin) as [o [Ho Hk]]. rewrite List.Forall_forall in S.
  destruct (S _ Ho) as [o' [E [[_ N] _]]]. injection E as <-.
  rewrite List.Forall_forall in N. now apply N.
Qed.

Lemma headers_ordinary (rows : list json) (headers : list string) :
  Forall StableRow rows ->
  (forall h, In h headers -> KeyOfSome rows h) ->
  Forall (fun h => h <> protoKey) headers.
Proof.
  intros S K. apply List.Forall_forall. intros h Hin.
  destruct (K h Hin) as [o [Ho Hk]]. rewrite List.Forall_forall in S.
  destruct (S _ Ho) as [o' [E [_ [_ Q]]]]. injection E as <-.
  unfold ordinaryKeys in Q. rewrite List.Forall_forall in Q. now apply Q.
Qed.

Lemma dense_tableGrid (headers : list string) (flats : list (list (string * json))) :
  drop 1 (dense (tableGrid headers flats))
  = map (fun flat => Some (rowCells headers flat)) flats.
Proof.
  unfold tableGrid, dense, rowCells. cbn [map drop]. rewrite drop_0. now rewrite map_map.
Qed.

Lemma arrayRows_tableGrid (rows : list json) (headers : list string)
    (flats : list (list (string * json))) :
  Forall StableRow rows ->
  Forall2 FlatOf rows flats ->
  NoDup headers ->
  (forall h, In h headers <-> KeyOfSome rows h) ->
  headers <> [] ->
  Forall2 ArrayTrip (keptRows rows)
    (fst (arrayRows (dense (tableGrid headers flats)) ∅)).
Proof.
  intros S F D K N. unfold arrayRows.
  rewrite (headerTexts_tableGrid headers flats)
    by (apply (headers_nonEmpty rows); [exact S | intros h; apply K]).
  rewrite dense_tableGrid.
  change (scalarRows ∅) with false.
  rewrite (tableLoop (arrayRow false headers) headers StableFlat
             (fun flat => JObj (fold_left (setFilled flat) headers []))
             (anyFilled headers)).
  - simpl app. apply (Forall2_kept FlatOf ArrayTrip _ _ _ rows flats F).
    intros row flat Hin R. rewrite List.Forall_forall in S.
    assert (Kr : forall k, KeyOfSome [row] k -> In k headers).
    { intros k [o [[->|[]] Hk]]. apply K. now exists o. }
    split; [|now apply arrayRow_trip].
    destruct R as [ro [-> G]]. destruct (S _ Hin) as [o [E [[Dk _] _]]].
    injection E as <-. apply (anyFilled_blankFields headers flat ro G Dk).
    intros k Hk. apply Kr. exists ro. split; [now left | exact Hk].
  - intros outs tm r flat Pf R T. apply arrayRow_cells; try assumption.
    apply (headers_ordinary rows); [exact S | intros h; apply K].
  - clear D K N. induction F as [|row flat rows flats R _ IH]; [constructor|].
    inversion S as [|? ? Sr S']; subst. constructor; [|now apply IH].
    now apply (stableFlat_of row).
  - lia.
  - intros r' h _ _. apply lookup_empty.
Qed.

(** ** The rows of a wrapped array, read back *)

Lemma wrappedFields_values (r : nat) (flat : list (string * json)) :
  1 <= r ->
  StableFlat flat ->
  forall hs pre o0 b0 tm0,
    NoDup hs ->
    Forall (fun h => dotFree h = true /\ h <> "" /\ h <> protoKey) hs ->
    (forall h, In h hs -> tm0 !! fieldPath r h = None) ->
    fst (foldIndexed (wrappedField r (rowCells (pre ++ hs) flat)) (length pre) hs
           (o0, b0, tm0))
    = (fold_left (setOwn flat) hs o0, b0 || anyFilled hs flat).
Proof.
  intros R S. induction hs as [|h hs IH]; intros pre o0 b0 tm0 D F T.
  - simpl. now rewrite orb_false_r.
  - apply NoDup_cons in D as [Hn D]. inversion F as [|? ? [Fd [Fn Fp]] F']; subst.
    cbn [foldIndexed].
    rewrite wrappedField_eq, (rowCell_text pre hs h flat S).
    rewrite (stableLeaf_blank _ (S h)).
    rewrite (hintAt_plain _ _ (fieldPath_plain r h)), (T h (or_introl eq_refl)).
    rewrite (stableLeaf_reads _ (S h)).
    rewrite (setNestedValue_dotFree o0 h _ Fd Fn Fp).
    specialize (IH (pre ++ [h])). rewrite <- app_assoc in IH. simpl in IH.
    rewrite length_app in IH. simpl in IH. rewrite Nat.add_1_r in IH.
    rewrite IH; [| exact D | exact F' |].
    + cbn [fold_left]. unfold anyFilled. cbn [existsb]. unfold setOwn.
      now rewrite orb_assoc.
    + intros h' Hh'. rewrite record_lookup.
      destruct (String.eqb (fieldPath r h) (fieldPath r h')) eqn:E.
      * apply String.eqb_eq, fieldPath_inj in E as [_ <-]; try lia.
        exfalso. apply Hn. now apply list_elem_of_In.
      * apply T. now right.
Qed.

Lemma wrappedRow_cells (headers : list string) (outs : list json)
    (tm : gmap string typeTag) (r : nat) (flat : list (string * json)) :
  NoDup headers ->
  Forall (fun h => dotFree h = true /\ h <> "" /\ h <> protoKey) headers ->
  StableFlat flat -> 1 <= r ->
  (forall h, In h headers -> tm !! fieldPath r h = None) ->
  wrappedRow headers (outs, tm) r (Some (rowCells headers flat))
  = (if anyFilled headers flat
     then outs ++ [JObj (fold_left (setOwn flat) headers [])] else outs,
     fold_left record (tableVisits headers r (rowCells headers flat)) tm).
Proof.
  intros D F S R T.
  pose proof (wrappedFields_values r flat R S headers [] [] false tm D F T) as V.
  pose proof (wrappedFields_typeMap r (rowCells headers flat) headers ([], false, tm)) as M.
  unfold wrappedRow. cbn [rowOf]. simpl in V, M.
  destruct (foldIndexed (wrappedField r (rowCells headers flat)) 0 headers ([], false, tm))
    as [[rowObj hasValue] tm'].
  simpl in V, M. injection V as -> ->. subst tm'.
  now destruct (anyFilled headers flat).
Qed.

Lemma objGet_setOwn (flat : list (string * json)) (hs : list string) :
  forall o0 k,
    objGet k (fold_left (setOwn flat) hs o0)
    = if existsb (String.eqb k) hs then Some (ownOrEmpty flat k) else objGet k o0.
Proof.
  induction hs as [|h hs IH]; intros o0 k; [reflexivity|].
  cbn [fold_left existsb]. rewrite IH.
  destruct (existsb (String.eqb k) hs); [now rewrite orb_true_r|].
  rewrite orb_false_r. unfold setOwn. rewrite objGet_objSet, String.eqb_sym.
  destruct (String.eqb k h) eqn:E; [|reflexivity].
  now apply String.eqb_eq in E as ->.
Qed.

Lemma padded_setOwn (IsKey : string -> Prop) (headers : list string)
    (flat ro : list (string * json)) :
  (forall k, objGet k flat = objGet k ro) ->
  (forall h, In h headers <-> IsKey h) ->
  Padded IsKey ro (fold_left (setOwn flat) headers []).
Proof.
  intros G K k. rewrite objGet_setOwn, (ownOrEmpty_same flat ro k G). split; intros H.
  - apply K, existsb_eqb_In in H. now rewrite H.
  - destruct (existsb (String.eqb k) headers) eqn:E; [|reflexivity].
    apply existsb_eqb_In, K in E. contradiction.
Qed.

Lemma wrappedRows_tableGrid (rows : list json) (headers : list string)
    (flats : list (list (string * json))) :
  Forall StableRow rows ->
  Forall DotFreeRow rows ->
  Forall2 FlatOf rows flats ->
  NoDup headers ->
  (forall h, In h headers <-> KeyOfSome rows h) ->
  headers <> [] ->
  Forall2 (WrappedTrip rows) (keptRows rows)
    (fst (wrappedRows (dense (tableGrid headers flats)) ∅)).
Proof.
  intros S Dots F D K N. unfold wrappedRows.
  assert (Hne : Forall (fun h => h <> "") headers).
  { apply (headers_nonEmpty rows); [exact S | intros h; apply K]. }
  assert (Hp : Forall (fun h => h <> protoKey) headers).
  { apply (headers_ordinary rows); [exact S | intros h; apply K]. }
  assert (Hd : Forall (fun h => dotFree h = true /\ h <> "" /\ h <> protoKey) headers).
  { apply List.Forall_forall. intros h Hin. split; [|split].
    - destruct (proj1 (K h) Hin) as [o [Ho Hk]].
      rewrite List.Forall_forall in Dots. specialize (Dots _ Ho). simpl in Dots.
      rewrite List.Forall_forall in Dots. now apply Dots.
    - rewrite List.Forall_forall in Hne. now apply Hne.
    - rewrite List.Forall_forall in Hp. now apply Hp. }
  rewrite (headerTexts_tableGrid headers flats Hne), dense_tableGrid.
  rewrite (tableLoop (wrappedRow headers) headers StableFlat
             (fun flat => JObj (fold_left (setOwn flat) headers []))
             (anyFilled headers)).
  - simpl app. apply (Forall2_kept FlatOf (WrappedTrip rows) _ _ _ rows flats F).
    intros row flat Hin R. rewrite List.Forall_forall in S.
    destruct R as [ro [-> G]]. destruct (S _ Hin) as [o [E [[Dk _] _]]].
    injection E as <-. split.
    + apply (anyFilled_blankFields headers flat ro G Dk).
      intros k Hk. apply K. now exists ro.
    + exists ro, (fold_left (setOwn flat) headers []).
      split; [reflexivity|]. split; [reflexivity|]. now apply padded_setOwn.
  - intros outs tm r flat Pf R T. now apply wrappedRow_cells.
  - clear D K N Hne Hd Hp Dots. induction F as [|row flat rows flats R _ IH]; [constructor|].
    inversion S as [|? ? Sr S']; subst. constructor; [|now apply IH].
    now apply (stableFlat_of row).
  - lia.
  - intros r' h _ _. apply lookup_empty.
Qed.

(** ** The rows of a key/object document, read back *)

Lemma createSheetFromObjectOfObjects_grid (keys fields : list string)
    (rows : list (string * list (string * json))) :
  createSheetFromObjectOfObjects keys fields rows
  = [sheet1 (gridCells 0 (keyedGrid fields rows))].
Proof.
  unfold createSheetFromObjectOfObjects, keyedGrid, gridCells.
  cbn [mapIndexed concat]. rewrite <- headerCells_grid. do 3 f_equal.
  rewrite mapIndexed_of_map. f_equal.
  etransitivity;
    [|exact (mapIndexed_shift
               (fun r (x : string * list (string * json)) =>
                  mapIndexed (fun c cell => {| cd_r := r; cd_c := c; cd_v := Some cell |}) 0
                    (cellOf (Some (JStr (fst x)))
                     :: map (fun f => cellOf (Some (ownOrEmpty (snd x) f))) fields))
               0 rows)].
  apply mapIndexed_ext. intros i x. cbn [mapIndexed]. rewrite createCell_cellOf. f_equal.
  rewrite mapIndexed_of_map.
  etransitivity;
    [|exact (mapIndexed_shift
               (fun c (f : string) =>
                  {| cd_r := i + 1; cd_c := c;
                     cd_v := Some (cellOf (Some (ownOrEmpty (snd x) f))) |})
               0 fields)].
  apply mapIndexed_ext. intros c f. apply createCell_cellOf.
Qed.

Lemma keyedGrid_rows (fields : list string) (rows : list (string * list (string * json))) :
  Forall (fun row => row <> []) (keyedGrid fields rows)
  /\ Forall (Forall (fun cell => cell <> JNull)) (keyedGrid fields rows).
Proof.
  unfold keyedGrid. split.
  - constructor; [discriminate|].
    apply List.Forall_forall. intros row Hin. apply in_map_iff in Hin as [e [<- _]].
    discriminate.
  - constructor.
    + apply List.Forall_forall. intros cell Hin. apply in_map_iff in Hin as [e [<- _]].
      apply cellOf_not_null.
    + apply List.Forall_forall. intros row Hin. apply in_map_iff in Hin as [e [<- _]].
      constructor; [apply cellOf_not_null|].
      apply List.Forall_forall. intros cell Hin. apply in_map_iff in Hin as [h [<- _]].
      apply cellOf_not_null.
Qed.

Lemma prepareRows_outcome (o : list (string * json)) (entries : list (string * json)) :
  Forall (fun e => objGet (fst e) o = Some (snd e) /\ PrimitiveRow (snd e)) entries ->
  forall fields rows,
    NoDup fields ->
    exists fields' new,
      prepareRows o (map fst entries) fields rows = inl (fields', rows ++ new)
      /\ Forall2 KeyedFlatOf entries new
      /\ NoDup fields'
      /\ forall f, In f fields'
                   <-> In f fields
                       \/ exists k inner, In (k, JObj inner) entries /\ In f (objKeys inner).
Proof.
  induction 1 as [|[k v] entries [G [ro [E [P Q]]]] _ IH]; intros fields rows D.
  - exists fields, []. simpl. rewrite app_nil_r.
    split; [reflexivity|]. split; [constructor|]. split; [exact D|].
    intros f. split; [now left|]. intros [H|[k [inner [[] _]]]]. exact H.
  - simpl in G, E. subst v.
    destruct (flattenInnerObject_primitives ro k P Q) as [flat [F Gf]].
    cbn [map prepareRows fst]. rewrite G, F.
    destruct (addHeaders_spec (objKeys flat) fields D) as [D1 M1].
    destruct (IH (addHeaders fields (objKeys flat)) (rows ++ [(k, flat)]) D1)
      as [fields' [new [R [F2 [D2 M2]]]]].
    exists fields', ((k, flat) :: new). rewrite R, <- app_assoc. split; [reflexivity|].
    split; [constructor; [split; [reflexivity | now exists ro] | exact F2]|].
    split; [exact D2|].
    intros f. rewrite M2, M1, (sameProps_keys flat ro f Gf). split.
    + intros [[H|H]|[k' [inner [Hin Hk]]]]; [now left | |].
      * right. exists k, ro. split; [now left | exact H].
      * right. exists k', inner. split; [now right | exact Hk].
    + intros [H|[k' [inner [[Hin|Hin] Hk]]]]; [now left; left | |].
      * injection Hin as <- <-. left. now right.
      * right. exists k', inner. now split.
Qed.

Lemma fieldHeaders_rest (fields : list string) :
  Forall (fun f => f <> "") fields ->
  forall i,
    omap (fun p : nat * option string =>
            match snd p with
            | Some h => if negb (fst p =? 0) && nonEmpty h then Some h else None
            | None => None
            end)
         (mapIndexed (fun idx h => (idx, h)) (S i) (map Some fields))
    = fields.
Proof.
  induction 1 as [|f fields N _ IH]; intros i; [reflexivity|].
  cbn [map mapIndexed omap list_omap fst snd]. apply nonEmpty_true in N. rewrite N.
  simpl. f_equal. apply IH.
Qed.

Lemma keyed_headers (fields : list string) (rows : list (string * list (string * json))) :
  Forall (fun f => f <> "") fields ->
  let headers := allHeaderTexts (dense (keyedGrid fields rows)) in
  findIndexFrom (isText "key") 0 headers = Some 0
  /\ fieldHeadersOf headers (Some 0) = fields.
Proof.
  intros N headers.
  assert (E : headers = Some "key" :: map Some fields).
  { unfold headers, allHeaderTexts, keyedGrid. cbn [dense map at_ lookup list_lookup].
    change (getCellText (Some (cellOf (Some (JStr "key"))))) with "key". f_equal.
    rewrite !map_map. apply map_ext. intros f. reflexivity. }
  rewrite E. split; [reflexivity|].
  unfold fieldHeadersOf. cbn [mapIndexed omap list_omap fst snd Nat.eqb negb andb].
  now apply fieldHeaders_rest.
Qed.

Lemma innerFields_values (headers : slots string) (row : string * list (string * json)) :
  StableFlat (snd row) ->
  dotFree (fst row) = true ->
  forall fs pre o0 tm0,
    NoDup fs ->
    Forall (fun f => f <> protoKey) fs ->
    (forall f, In f fs -> tm0 !! (fst row +:+ "." +:+ f) = None) ->
    fst (foldIndexed (innerField headers (Some 0) (fst row) (keyedCells (pre ++ fs) row))
           (length pre) fs (o0, tm0))
    = fold_left (setOwn (snd row)) fs o0.
Proof.
  intros S Dk. induction fs as [|f fs IH]; intros pre o0 tm0 D Q T; [reflexivity|].
  apply NoDup_cons in D as [Hn D]. inversion Q as [|? ? Qf Q']; subst.
  cbn [foldIndexed].
  assert (E : innerField headers (Some 0) (fst row) (keyedCells (pre ++ f :: fs) row)
                (o0, tm0) (length pre) f
              = (setOwn (snd row) o0 f,
                 record tm0 (fst row +:+ "." +:+ f, toStr (ownOrEmpty (snd row) f)))).
  { unfold innerField, keyedCells. rewrite Nat.add_1_r.
    change (at_ (?x :: ?l) (Datatypes.S ?n)) with (at_ l n).
    rewrite (rowCell_text pre fs f (snd row) S).
    rewrite (stableLeaf_cast _ tm0 _ (S f) (dotted_plain _ _)); [|apply T; now left].
    unfold setOwn. now rewrite (objAssign_other _ _ _ Qf). }
  rewrite E. specialize (IH (pre ++ [f])). rewrite <- app_assoc in IH.
  cbn [app] in IH. rewrite length_app in IH. cbn [length] in IH.
  rewrite Nat.add_1_r in IH.
  rewrite IH; [reflexivity | exact D | exact Q' |].
  intros f' Hf'. rewrite record_lookup.
  destruct (String.eqb (fst row +:+ "." +:+ f) (fst row +:+ "." +:+ f')) eqn:X.
  - apply String.eqb_eq, dotted_inj in X as [_ <-]; try assumption.
    exfalso. apply Hn. now apply list_elem_of_In.
  - apply T. now right.
Qed.

Lemma keyedCells_key (fields : list string) (row : string * list (string * json)) :
  getCellText (at_ (keyedCells fields row) 0) = fst row.
Proof. reflexivity. Qed.

Lemma objectRow_cells (headers : slots string) (fields : list string)
    (out : list (string * json)) (tm : gmap string typeTag) (r : nat)
    (row : string * list (string * json)) :
  StableFlat (snd row) -> dotFree (fst row) = true -> fst row <> "" ->
  fst row <> protoKey ->
  NoDup fields ->
  Forall (fun f => f <> protoKey) fields ->
  (forall f, In f fields -> tm !! (fst row +:+ "." +:+ f) = None) ->
  objectRow headers (Some 0) fields (out, tm) r (Some (keyedCells fields row))
  = (setEntry out (innerEntry fields row), fold_left record (keyedVisits fields row) tm).
Proof.
  intros S Dk Nk Pk D Q T. apply injective_projections.
  - pose proof (innerFields_values headers row S Dk fields [] [] tm D Q T) as V.
    unfold objectRow. cbn [rowOf]. rewrite keyedCells_key.
    apply nonEmpty_true in Nk. rewrite Nk. simpl in V.
    destruct (foldIndexed (innerField headers (Some 0) (fst row) (keyedCells fields row))
                0 fields ([], tm)) as [inner tm'].
    simpl in V. subst inner. cbn [fst]. unfold setEntry, innerEntry. cbn [fst snd].
    now rewrite (objAssign_other _ _ _ Pk).
  - rewrite objectRow_typeMap. cbn [rowOf snd]. cbv zeta. rewrite keyedCells_key.
    apply nonEmpty_true in Nk. rewrite Nk. reflexivity.
Qed.

Lemma keyedVisits_In (fields : list string) (row : string * list (string * json)) q raw :
  In (q, raw) (keyedVisits fields row) -> exists f, q = fst row +:+ "." +:+ f.
Proof.
  unfold keyedVisits. intros Hin.
  apply list_elem_of_In, list_elem_of_lookup in Hin as [c Hc].
  rewrite mapIndexed_lookup in Hc. destruct (fields !! c) as [f|]; [|discriminate].
  simpl in Hc. injection Hc as <- _. now exists f.
Qed.

Lemma objectLoop (headers : slots string) (fields : list string) :
  NoDup fields ->
  Forall (fun f => f <> protoKey) fields ->
  forall rows r out tm,
    NoDup (map fst rows) ->
    Forall (fun row => StableFlat (snd row) /\ dotFree (fst row) = true
                       /\ fst row <> "" /\ fst row <> protoKey)
           rows ->
    (forall row f, In row rows -> tm !! (fst row +:+ "." +:+ f) = None) ->
    fst (foldIndexed (objectRow headers (Some 0) fields) r
           (map (fun row => Some (keyedCells fields row)) rows) (out, tm))
    = fold_left setEntry (map (innerEntry fields) rows) out.
Proof.
  intros D Q. induction rows as [|row rows IH]; intros r out tm Dk F T; [reflexivity|].
  simpl in Dk. apply NoDup_cons in Dk as [Hn Dk].
  inversion F as [|? ? [S [Dot [Nk Pk]]] F']; subst. cbn [map foldIndexed fold_left].
  rewrite (objectRow_cells headers fields out tm r row S Dot Nk Pk D Q)
    by (intros f _; apply T; now left).
  apply (IH _ _ _ Dk F'). intros row' f Hin.
  apply fold_record_elsewhere; [apply T; now right|].
  intros raw Hv. apply keyedVisits_In in Hv as [f' E].
  rewrite List.Forall_forall in F'. destruct (F' _ Hin) as [_ [Dot' _]].
  apply dotted_inj in E as [E _]; try assumption.
  apply Hn. apply list_elem_of_In. rewrite <- E. now apply in_map.
Qed.

Lemma dense_keyedGrid (fields : list string) (rows : list (string * list (string * json))) :
  drop 1 (dense (keyedGrid fields rows))
  = map (fun row => Some (keyedCells fields row)) rows.
Proof.
  unfold keyedGrid, dense, keyedCells, rowCells. cbn [map drop]. rewrite drop_0.
  now rewrite map_map.
Qed.

Lemma keyedFlat_keys (entries : list (string * json))
    (rows : list (string * list (string * json))) :
  Forall2 KeyedFlatOf entries rows -> map fst rows = map fst entries.
Proof.
  induction 1 as [|e row entries rows [E _] _ IH]; [reflexivity|].
  simpl. now rewrite E, IH.
Qed.

Lemma keyedFlat_In (entries : list (string * json))
    (rows : list (string * list (string * json))) (k : string) (v : json) :
  Forall2 KeyedFlatOf entries rows -> In (k, v) entries ->
  exists flat, In (k, flat) rows /\ FlatOf v flat.
Proof.
  induction 1 as [|e [k' flat] entries rows [E R] _ IH]; intros Hin; [destruct Hin|].
  destruct Hin as [->|Hin].
  - simpl in E, R. subst k'. exists flat. split; [now left | exact R].
  - destruct (IH Hin) as [flat' [H1 H2]]. exists flat'. split; [now right | exact H2].
Qed.

Lemma objectOfObjects_tableGrid (o : list (string * json)) (fields : list string)
    (rows : list (string * list (string * json))) :
  plainKeys o ->
  ordinaryKeys o ->
  Forall (fun k => dotFree k = true) (objKeys o) ->
  Forall (fun v => exists inner, v = JObj inner /\ StableObject inner) (objValues o) ->
  Forall2 KeyedFlatOf o rows ->
  NoDup fields ->
  (forall f, In f fields <-> FieldOfSome o f) ->
  forall k,
    match objGet k o with
    | Some v =>
        exists inner io,
          v = JObj inner
          /\ objGet k (fst (objectOfObjectsOut (dense (keyedGrid fields rows)) ∅))
             = Some (JObj io)
          /\ Padded (FieldOfSome o) inner io
    | None => objGet k (fst (objectOfObjectsOut (dense (keyedGrid fields rows)) ∅)) = None
    end.
Proof.
  intros [Dk Nk] Ok Dots V F D K k.
  assert (Nf : Forall (fun f => f <> "" /\ f <> protoKey) fields).
  { apply List.Forall_forall. intros f Hin.
    destruct (proj1 (K f) Hin) as [k' [inner [Ho Hf]]].
    rewrite List.Forall_forall in V.
    destruct (V (JObj inner)) as [inner' [E [[_ N] [_ Q]]]].
    - unfold objValues. apply in_map_iff. now exists (k', JObj inner).
    - injection E as <-. unfold ordinaryKeys in Q.
      rewrite List.Forall_forall in N, Q. split; [now apply N | now apply Q]. }
  assert (Qf : Forall (fun f => f <> protoKey) fields)
    by (eapply Forall_impl; [exact Nf | now intros f [_ Q]]).
  assert (Nf' : Forall (fun f => f <> "") fields)
    by (eapply Forall_impl; [exact Nf | now intros f [N _]]).
  clear Nf. rename Nf' into Nf.
  pose proof (keyedFlat_keys o rows F) as Keys.
  assert (Rows : Forall (fun row => StableFlat (snd row) /\ dotFree (fst row) = true
                                    /\ fst row <> "" /\ fst row <> protoKey) rows).
  { clear K Nf Qf. unfold ordinaryKeys, objKeys, objValues in *.
    induction F as [|e row o rows [E [ro [Ev G]]] _ IH]; [constructor|].
    simpl in Dk, Nk, Ok, Dots, V, Keys.
    apply NoDup_cons in Dk as [_ Dk].
    inversion Nk as [|? ? Nk1 Nk']; subst. inversion Dots as [|? ? Dot1 Dots']; subst.
    inversion Ok as [|? ? Ok1 Ok']; subst.
    inversion V as [|? ? [inner [Ei [_ [Si _]]]] V']; subst.
    injection Keys as _ Keys.
    constructor; [|now apply IH].
    rewrite E. split; [|now repeat split].
    intros h. rewrite Ev in Ei. injection Ei as <-.
    unfold ownOrEmpty. rewrite G. exact (ownOrEmpty_stable ro h Si). }
  unfold objectOfObjectsOut.
  destruct (keyed_headers fields rows Nf) as [H0 Hf]. cbv zeta in H0, Hf.
  rewrite H0, Hf, dense_keyedGrid.
  rewrite (objectLoop _ fields D Qf rows 1 [] ∅); [| now rewrite Keys | exact Rows
                                                   | intros; apply lookup_empty].
  assert (Dr : NoDup (objKeys (map (innerEntry fields) rows))).
  { unfold objKeys. rewrite map_map. cbn [innerEntry fst].
    change (map (fun x : string * list (string * json) => fst x) rows) with (map fst rows).
    now rewrite Keys. }
  rewrite (objGet_setEntries _ Dr).
  destruct (objGet k o) as [v|] eqn:G.
  - apply objGet_Some_In in G.
    destruct (keyedFlat_In o rows k v F G) as [flat [Hin [ro [-> Gf]]]].
    exists ro, (fold_left (setOwn flat) fields []). split; [reflexivity|]. split.
    + rewrite (objGet_unique k (JObj (fold_left (setOwn flat) fields [])) _ Dr);
        [reflexivity|].
      apply in_map_iff. now exists (k, flat).
    + now apply padded_setOwn.
  - assert (Gn : objGet k (map (innerEntry fields) rows) = None).
    { apply objGet_None_iff. unfold objKeys. rewrite map_map. cbn [innerEntry fst].
      change (map (fun x : string * list (string * json) => fst x) rows)
        with (map fst rows).
      rewrite Keys. now apply objGet_None_iff. }
    now rewrite Gn.
Qed.

(** ** From the document to the text *)

Lemma textOut_value sheets (tm : gmap string typeTag) (kind : dataKind) w :
  kind <> KCsv -> kind <> KXlsx ->
  textOut (sheetToText sheets tm kind w)
  = stringifyPretty (serializedValue sheets tm kind w).
Proof.
  intros C X. unfold sheetToText, serializedValue.
  destruct kind; try congruence.
  - now destruct (arrayRows _ _).
  - now destruct (wrappedRows _ _).
  - now destruct (objectOfObjectsOut _ _).
  - now destruct (keyValueResult _ _).
  - now destruct (keyValueResult _ _).
Qed.

Lemma table_matrix (headers : list string) (flats : list (list (string * json))) :
  headers <> [] ->
  celldataToMatrix (head (createSheetFromFlatRows headers flats))
  = dense (tableGrid headers flats).
Proof.
  intros N. rewrite createSheetFromFlatRows_grid. cbn [head].
  destruct (tableGrid_rows headers flats N) as [G1 G2].
  now apply celldataToMatrix_dense.
Qed.

Lemma stable_rows_load (rows : list json) :
  Forall StableRow rows ->
  exists headers flats,
    flattenRows 0 rows [] [] = inr (headers, flats)
    /\ Forall2 ArrayTrip (keptRows rows)
         (fst (arrayRows (celldataToMatrix (head (createSheetFromFlatRows headers flats)))
                 ∅))
    /\ (Forall DotFreeRow rows ->
        Forall2 (WrappedTrip rows) (keptRows rows)
          (fst (wrappedRows
                  (celldataToMatrix (head (createSheetFromFlatRows headers flats))) ∅))).
Proof.
  intros S.
  assert (P : Forall PrimitiveRow rows).
  { eapply Forall_impl; [exact S|]. apply stableRow_primitive. }
  destruct (flattenRows_outcome rows P 0 [] [] (NoDup_nil_2 (A:=string)))
    as [headers [flats [F [R [D K]]]]].
  exists headers, flats. split; [exact F|].
  assert (K' : forall h, In h headers <-> KeyOfSome rows h).
  { intros h. rewrite K. simpl. tauto. }
  destruct headers as [|h0 headers].
  - rewrite tableGrid_empty.
    rewrite (keptRows_no_keys rows S) by (intros k Hk; now apply K' in Hk).
    split; [constructor | intros _; constructor].
  - rewrite table_matrix by discriminate. split.
    + now apply arrayRows_tableGrid.
    + intros Dots. now apply wrappedRows_tableGrid.
Qed.

Lemma stable_not_array (o : list (string * json)) (k : string) :
  Forall stableLeaf (objValues o) -> ~ HasArrayAt k o.
Proof.
  intros S [data G]. apply objGet_Some_In in G. rewrite List.Forall_forall in S.
  destruct (S (JArr data)) as [P _]; [|exact P].
  unfold objValues. apply in_map_iff. now exists (k, JArr data).
Qed.

Lemma objects_not_array (o : list (string * json)) (k : string) :
  Forall (fun v => exists inner, v = JObj inner /\ StableObject inner) (objValues o) ->
  ~ HasArrayAt k o.
Proof.
  intros S [data G]. apply objGet_Some_In in G. rewrite List.Forall_forall in S.
  destruct (S (JArr data)) as [inner [E _]]; [|discriminate].
  unfold objValues. apply in_map_iff. now exists (k, JArr data).
Qed.

Lemma array_trip (rows : list json) :
  Forall StableRow rows ->
  exists p out,
    toSheetPayloadFromContent (JArr rows) = Some p
    /\ error p = None
    /\ textOut (serializeLoaded p) = stringifyPretty out
    /\ Reserialized (JArr rows) out.
Proof.
  intros S. destruct (stable_rows_load rows S) as [headers [flats [F [A _]]]].
  unfold toSheetPayloadFromContent. cbn [dataKindIs].
  change (validateAndExtract (JArr rows)) with (Ok (TopArray rows)).
  cbv beta zeta iota. rewrite F. cbv beta iota.
  eexists. eexists. split; [reflexivity|]. split; [reflexivity|].
  unfold serializeLoaded. cbn [sheets typeMap dataKind_ wrapper_].
  rewrite textOut_value by discriminate. split; [reflexivity|].
  unfold serializedValue. now constructor.
Qed.

Lemma wrapped_trip (o : list (string * json)) (rows : list json) :
  untagged (JObj o) ->
  objGet "data" o = Some (JArr rows) ->
  Forall StableRow rows ->
  Forall DotFreeRow rows ->
  exists p out,
    toSheetPayloadFromContent (JObj o) = Some p
    /\ error p = None
    /\ textOut (serializeLoaded p) = stringifyPretty out
    /\ Reserialized (JObj o) out.
Proof.
  intros [U1 U2] G S Dots.
  destruct (stable_rows_load rows S) as [headers [flats [F [_ W]]]].
  specialize (W Dots).
  assert (V : validateAndExtract (JObj o)
              = Ok (WrappedArray rows (objDelete "data" o) "data")).
  { unfold validateAndExtract. cbn [RULES optionalArrayWrapperProperty wrapperArray].
    now rewrite G. }
  unfold toSheetPayloadFromContent. rewrite U1, U2, V.
  cbv beta zeta iota. rewrite F. cbv beta iota.
  eexists. eexists. split; [reflexivity|]. split; [reflexivity|].
  unfold serializeLoaded. cbn [sheets typeMap dataKind_ wrapper_].
  rewrite textOut_value by discriminate. split; [reflexivity|].
  unfold serializedValue, wrappedOut.
  cbn [wrapper_dataProp wrapper_meta nonEmpty String.eqb Ascii.eqb Bool.eqb negb].
  eapply reserialized_wrapped.
  - exact G.
  - apply objGet_objSet_eq.
  - intros k Hk. rewrite objGet_objSet_ne by congruence.
    rewrite objGet_objDelete. destruct (String.eqb "data" k) eqn:E; [|reflexivity].
    apply String.eqb_eq in E. congruence.
  - exact W.
Qed.

Lemma keyValue_trip (o : list (string * json)) :
  untagged (JObj o) -> o <> [] -> StableObject o ->
  Forall (fun k => ~ In k inheritedNames) (objKeys o) ->
  exists p out,
    toSheetPayloadFromContent (JObj o) = Some p
    /\ error p = None
    /\ textOut (serializeLoaded p) = stringifyPretty out
    /\ Reserialized (JObj o) out.
Proof.
  intros [U1 U2] N S Q.
  assert (Pr : Forall Primitive (objValues o)).
  { eapply Forall_impl; [exact (proj1 (proj2 S))|]. now intros v [P _]. }
  assert (V : validateAndExtract (JObj o) = Ok (ObjectKV o)).
  { apply (detects_functional (JObj o)); [apply detects_validateAndExtract|].
    apply detects_keyValue; [exact (stable_not_array o "data" (proj1 (proj2 S)))|].
    eapply Forall_impl; [exact Pr|]. intros v P. now left. }
  unfold toSheetPayloadFromContent. rewrite U1, U2, V.
  cbv beta zeta iota. cbn [createSheetsFromJson].
  rewrite (createSheetFromObject_grid o N).
  eexists. eexists. split; [reflexivity|]. split; [reflexivity|].
  unfold serializeLoaded. cbn [sheets typeMap dataKind_ wrapper_].
  rewrite textOut_value by discriminate. split; [reflexivity|].
  unfold serializedValue. apply reserialized_keyValue; [exact Pr|].
  intros k. pose proof (keyValue_round_trip o N S Q k) as R.
  now rewrite (createSheetFromObject_grid o N) in R.
Qed.

Lemma objects_trip (o : list (string * json)) :
  untagged (JObj o) -> o <> [] -> plainKeys o -> ordinaryKeys o ->
  Forall (fun v => exists inner, v = JObj inner /\ StableObject inner) (objValues o) ->
  Forall (fun k => dotFree k = true) (objKeys o) ->
  exists p out,
    toSheetPayloadFromContent (JObj o) = Some p
    /\ error p = None
    /\ textOut (serializeLoaded p) = stringifyPretty out
    /\ Reserialized (JObj o) out.
Proof.
  intros [U1 U2] N K Q S Dots.
  assert (Po : Forall PlainObject (objValues o)).
  { eapply Forall_impl; [exact S|]. intros v [inner [-> _]]. now exists inner. }
  assert (V : validateAndExtract (JObj o) = Ok (ObjectOfObjects o)).
  { apply (detects_functional (JObj o)); [apply detects_validateAndExtract|].
    apply detects_objectOfObjects; [exact (objects_not_array o "data" S) | | exact Po].
    intros C. destruct o as [|[k v] o]; [congruence|].
    simpl in C, S. inversion C as [|? ? Cv _]; subst.
    inversion S as [|? ? [inner [-> _]] _]; subst.
    destruct Cv as [Cv|[items [Cv _]]]; [exact Cv | discriminate]. }
  assert (E : Forall (fun e => objGet (fst e) o = Some (snd e) /\ PrimitiveRow (snd e)) o).
  { apply List.Forall_forall. intros [k v] Hin. simpl. split.
    - now apply objGet_unique; [exact (proj1 K)|].
    - rewrite List.Forall_forall in S. destruct (S v) as [inner [-> [_ [Si Qi]]]].
      + unfold objValues. apply in_map_iff. now exists (k, v).
      + exists inner. split; [reflexivity|]. split; [|exact Qi].
        eapply Forall_impl; [exact Si|]. intros x Sx. now apply stableLeaf_primitive. }
  destruct (prepareRows_outcome o o E [] [] (NoDup_nil_2 (A:=string)))
    as [fields [rows [P [F [D M]]]]].
  unfold toSheetPayloadFromContent. rewrite U1, U2, V.
  cbv beta zeta iota. unfold prepareObjectOfObjects.
  change (objKeys o) with (map fst o). rewrite P. cbv beta zeta iota.
  rewrite createSheetFromObjectOfObjects_grid.
  eexists. eexists. split; [reflexivity|]. split; [reflexivity|].
  unfold serializeLoaded. cbn [sheets typeMap dataKind_ wrapper_].
  rewrite textOut_value by discriminate. split; [reflexivity|].
  unfold serializedValue. cbn [head app].
  destruct (keyedGrid_rows fields rows) as [G1 G2].
  rewrite (celldataToMatrix_dense _ G1 G2).
  apply reserialized_objects; [exact Po|].
  apply (objectOfObjects_tableGrid o fields rows K Q Dots S F D).
  intros f. rewrite M. unfold FieldOfSome. simpl. tauto.
Qed.

(** C2: the shape detector accepts the key/value document with the string
    [123] at key [a]; it loads without an error, with the empty type map
    every JSON load returns; and serializing the unedited grid with that
    map prints the number 123 at [a], a value of another primitive type
    than the document holds. *)
Theorem unedited_digits_change_type :
  ok (validateAndExtract digitsDocument) = true
  /\ option_map (fun p => (error p, typeMap p, textOut (serializeLoaded p)))
                (toSheetPayloadFromContent digitsDocument)
     = Some (None, ∅, stringifyPretty (JObj [("a", JNum (Number "123"))]))
  /\ stringifyPretty (JObj [("a", JNum (Number "123"))])
     <> stringifyPretty digitsDocument.
Proof.
  split; [reflexivity|]. split; [vm_compute; reflexivity|].
  vm_compute. discriminate.
Qed.

(** X20: the unedited round trip holds for the documents whose leaves
    the rules of the specification read back.  Such a document is an
    array of rows, an object with an array of rows at [data], a
    key/value object with at least one key, or a key/object document
    with at least one key whose outer keys have no dot; its keys are distinct, not empty and not the
    name of the prototype accessor (the keys of the rows under [data]
    have no dot either, and the keys of a key/value object are no name
    that every object inherits); every leaf is a primitive that the
    prioritized rules of the specification, with no hint, read back
    unchanged from the text its cell shows, white space at the ends
    removed; and an object document does not carry the tag of csv or xlsx
    content.  Such a document loads without an error, and the text
    [sheetToText] gives for the unedited grid and the map produced at load
    is the pretty-printed text of a value with the same keys and values:
    the key/value object itself; the array without the rows whose fields
    are all empty strings, each other row without its empty-string fields;
    the wrapper with its other properties and, under [data], the rows
    that are not all empty strings, each with every key of the table (the
    empty string for a key the row lacks); the key/object document with
    every inner object holding every field of the table in the same
    way. *)
Theorem unedited_stable_document_round_trip (doc : json) :
  StableDocument doc ->
  exists p out,
    toSheetPayloadFromContent doc = Some p
    /\ error p = None
    /\ textOut (serializeLoaded p) = stringifyPretty out
    /\ Reserialized doc out.
Proof.
  intros [rows S|o rows U G S D|o U N S Q|o U N K Q S D].
  - now apply array_trip.
  - now apply (wrapped_trip o rows).
  - now apply keyValue_trip.
  - now apply objects_trip.
Qed.

Lemma unedited_stable_document_round_trip_witness :
  StableDocument sampleTable
  /\ exists p out,
       toSheetPayloadFromContent sampleTable = Some p
       /\ error p = None
       /\ textOut (serializeLoaded p) = stringifyPretty out
       /\ Reserialized sampleTable out.
Proof.
  assert (L : forall v, isPrimitive v = true ->
                        fst (castWithType (toStr v) None) = v -> stableLeaf v)
    by (intros v P C; apply stableLeaf_code; now split).
  assert (S : StableDocument sampleTable).
  { apply stable_array. apply List.Forall_cons; [|apply List.Forall_cons; [|apply List.Forall_nil]].
    - eexists. split; [reflexivity|]. split; [split|split].
      + apply (bool_decide_unpack _). vm_compute. reflexivity.
      + repeat (apply List.Forall_cons; [discriminate|]). apply List.Forall_nil.
      + repeat (apply List.Forall_cons;
                [apply L; [reflexivity | vm_compute; reflexivity]|]).
        apply List.Forall_nil.
      + repeat (apply List.Forall_cons; [discriminate|]). apply List.Forall_nil.
    - eexists. split; [reflexivity|]. split; [split|split].
      + apply (bool_decide_unpack _). vm_compute. reflexivity.
      + repeat (apply List.Forall_cons; [discriminate|]). apply List.Forall_nil.
      + repeat (apply List.Forall_cons;
                [apply L; [reflexivity | vm_compute; reflexivity]|]).
        apply List.Forall_nil.
      + repeat (apply List.Forall_cons; [discriminate|]). apply List.Forall_nil. }
  split; [exact S|]. exact (unedited_stable_document_round_trip sampleTable S).
Defined.

(** * Serializing again with the returned type map *)

Lemma castWithType_refixed (raw : string) :
  castWithType raw (Some (snd (castWithType raw None))) = castWithType raw None.
Proof.
  destruct (castWithType raw None) as [v ty] eqn:E. cbn [snd].
  destruct ty; try (rewrite castWithType_string_hint; exact E);
    unfold castWithType in *; cbv zeta in *;
    destruct (String.eqb (trim raw) (dquote +:+ dquote)
              || String.eqb (trim raw) (squote +:+ squote)); try discriminate;
    destruct (String.eqb (trim raw) ""); try discriminate;
    unfold inferType in E; cbv zeta in E;
    destruct (String.eqb (trim raw) ""); try discriminate;
    destruct (matchesWordI "true" (trim raw)); try (injection E as <-; reflexivity);
    try discriminate;
    destruct (matchesWordI "false" (trim raw)); try (injection E as <-; reflexivity);
    try discriminate;
    destruct (matchesWordI "null" (trim raw)); try (injection E as <-; reflexivity);
    try discriminate;
    destruct (isFinite (Number (trim raw))); try (injection E as <-; reflexivity);
    discriminate.
Qed.

Lemma record_replay (p raw : string) (rest : list visit) (tm1 tm2 : gmap string typeTag) :
  tm2 = fold_left record ((p, raw) :: rest) tm1 ->
  fst (castWithType raw (hintAt tm2 p)) = fst (castWithType raw (hintAt tm1 p))
  /\ record tm2 (p, raw) = tm2.
Proof.
  intros E. cbn [fold_left] in E.
  assert (L : tm2 !! p
              = match tm1 !! p with
                | Some h => Some h
                | None => if inherited p then None
                          else Some (snd (castWithType raw None))
                end).
  { rewrite E. pose proof (record_lookup tm1 p p raw) as R.
    rewrite String.eqb_refl in R.
    destruct (tm1 !! p) as [h|] eqn:T1.
    - now apply fold_record_keeps.
    - destruct (inherited p) eqn:P.
      + now apply fold_record_inherited.
      + now apply fold_record_keeps. }
  split.
  - unfold hintAt. rewrite L. destruct (tm1 !! p); [reflexivity|].
    destruct (inherited p); [reflexivity|]. now rewrite castWithType_refixed.
  - apply map_eq. intros q. rewrite record_lookup.
    destruct (String.eqb p q) eqn:Q; [|reflexivity].
    apply String.eqb_eq in Q as <-. rewrite L.
    destruct (tm1 !! p); [reflexivity|]. now destruct (inherited p).
Qed.

Lemma castCell_replay (p raw : string) (rest : list visit) (tm1 tm2 : gmap string typeTag) :
  tm2 = fold_left record ((p, raw) :: rest) tm1 ->
  castCell raw p tm2 = (fst (castCell raw p tm1), tm2).
Proof.
  intros E. destruct (record_replay p raw rest tm1 tm2 E) as [C R].
  now rewrite !castCell_pair, C, R.
Qed.

Lemma foldIndexed_replays {A Acc : Type}
    (step : Acc * gmap string typeTag -> nat -> A -> Acc * gmap string typeTag)
    (vis : nat -> A -> list visit) :
  Replays step vis ->
  (forall s i x, snd (step s i x) = fold_left record (vis i x) (snd s)) ->
  forall l i acc tm1 tm2 rest,
    tm2 = fold_left record (concat (mapIndexed vis i l) ++ rest) tm1 ->
    foldIndexed step i l (acc, tm2) = (fst (foldIndexed step i l (acc, tm1)), tm2).
Proof.
  intros R T. induction l as [|x l IH]; intros i acc tm1 tm2 rest E; [reflexivity|].
  cbn [foldIndexed mapIndexed concat] in *. rewrite <- app_assoc in E.
  rewrite (R acc tm1 tm2 i x _ E).
  pose proof (T (acc, tm1) i x) as Ts. cbn [snd] in Ts.
  destruct (step (acc, tm1) i x) as [acc' tm1']. cbn [fst snd] in *.
  apply (IH (S i) acc' tm1' tm2 rest). rewrite E, fold_left_app. now rewrite Ts.
Qed.

Lemma arrayField_replays (r : nat) (row : slots json) :
  Replays (arrayField r row)
          (fun c header => [(fieldPath r header, getCellText (at_ row c))]).
Proof.
  intros [o b] tm1 tm2 c h rest E. cbn [app] in E.
  destruct (record_replay _ _ rest tm1 tm2 E) as [C R].
  rewrite !arrayField_eq, C, R. reflexivity.
Qed.

Lemma wrappedField_replays (r : nat) (row : slots json) :
  Replays (wrappedField r row)
          (fun c header => [(fieldPath r header, getCellText (at_ row c))]).
Proof.
  intros [o b] tm1 tm2 c h rest E. cbn [app] in E.
  destruct (record_replay _ _ rest tm1 tm2 E) as [C R].
  rewrite !wrappedField_eq, C, R. reflexivity.
Qed.

Lemma arrayRow_replays (scalars : bool) (headers : list string) :
  Replays (arrayRow scalars headers)
          (fun r row =>
             if scalars then [(rowPath r, getCellText (secondOrFirst (rowOf row)))]
             else tableVisits headers r (rowOf row)).
Proof.
  intros rows tm1 tm2 r row rest E. unfold arrayRow. destruct scalars.
  - cbn [app] in E. rewrite (castCell_replay _ _ rest tm1 tm2 E).
    rewrite (castCell_pair _ _ tm1). cbn [fst].
    now destruct (nonEmpty (getCellText (secondOrFirst (rowOf row)))).
  - rewrite <- tableVisits_concat in E.
    rewrite (foldIndexed_replays (arrayField r (rowOf row)) _
               (arrayField_replays r (rowOf row))
               (arrayField_typeMap r (rowOf row))
               headers 0 ([], false) tm1 tm2 rest E).
    destruct (foldIndexed (arrayField r (rowOf row)) 0 headers ([], false, tm1))
      as [[rowObj hasValue] tm1'].
    cbn [fst]. now destruct hasValue.
Qed.

Lemma wrappedRow_replays (headers : list string) :
  Replays (wrappedRow headers) (fun r row => tableVisits headers r (rowOf row)).
Proof.
  intros rows tm1 tm2 r row rest E. unfold wrappedRow.
  rewrite <- tableVisits_concat in E.
  rewrite (foldIndexed_replays (wrappedField r (rowOf row)) _
             (wrappedField_replays r (rowOf row))
             (wrappedField_typeMap r (rowOf row))
             headers 0 ([], false) tm1 tm2 rest E).
  destruct (foldIndexed (wrappedField r (rowOf row)) 0 headers ([], false, tm1))
    as [[rowObj hasValue] tm1'].
  cbn [fst]. now destruct hasValue.
Qed.

Lemma innerField_replays (headers : slots string) (keyColIndex : option nat)
    (key : string) (row : slots json) :
  Replays (innerField headers keyColIndex key row)
          (fun c field => [innerVisit headers keyColIndex key row c field]).
Proof.
  intros inner tm1 tm2 c field rest E. cbn [app] in E. unfold innerVisit in E.
  unfold innerField. rewrite (castCell_replay _ _ rest tm1 tm2 E).
  now rewrite (castCell_pair _ _ tm1).
Qed.

Lemma objectRow_replays (headers : slots string) (keyColIndex : option nat)
    (fieldHeaders : list string) :
  Replays (objectRow headers keyColIndex fieldHeaders)
          (objectRowVisits headers keyColIndex fieldHeaders).
Proof.
  intros out tm1 tm2 r row rest E. unfold objectRow, objectRowVisits in *. cbv zeta in *.
  set (key := getCellText (at_ (rowOf row)
                             (match keyColIndex with Some k => k | None => 0 end))) in *.
  destruct (nonEmpty key); [|reflexivity].
  rewrite <- concat_singletons in E.
  rewrite (foldIndexed_replays (innerField headers keyColIndex key (rowOf row)) _
             (innerField_replays headers keyColIndex key (rowOf row))
             (innerField_typeMap headers keyColIndex key (rowOf row))
             fieldHeaders 0 [] tm1 tm2 rest E).
  now destruct (foldIndexed (innerField headers keyColIndex key (rowOf row)) 0
                  fieldHeaders ([], tm1)) as [inner tm1'].
Qed.

Lemma csvCell_replays (r : nat) : Replays (csvCell r) (csvCellVisits r).
Proof.
  intros outRow tm1 tm2 c cell rest E. unfold csvCell, csvCellVisits in *.
  destruct cell as [v|]; [|reflexivity]. cbn [app] in E.
  rewrite (castCell_replay _ _ rest tm1 tm2 E). now rewrite (castCell_pair _ _ tm1).
Qed.

Lemma csvRow_replays : Replays csvRow csvRowVisits.
Proof.
  intros rows tm1 tm2 r row rest E. unfold csvRow, csvRowVisits in *.
  rewrite (foldIndexed_replays (csvCell r) _ (csvCell_replays r) (csvCell_typeMap r)
             (rowOf row) 0 [] tm1 tm2 rest E).
  now destruct (foldIndexed (csvCell r) 0 (rowOf row) ([], tm1)) as [outRow tm1'].
Qed.

Lemma keyValueRow_replays : Replays keyValueRow keyValueRowVisits.
Proof.
  intros result tm1 tm2 r row rest E. unfold keyValueRow, keyValueRowVisits in *.
  cbv zeta in *.
  assert (A : forall i, match row with Some row0 => at_ row0 i | None => None end
                        = at_ (rowOf row) i)
    by (intros i; destruct row; [reflexivity | now destruct i]).
  rewrite !A. destruct (nonEmpty (getCellText (at_ (rowOf row) 0))); [|reflexivity].
  cbn [app] in E.
  rewrite (castCell_replay _ _ rest tm1 tm2 E). now rewrite (castCell_pair _ _ tm1).
Qed.

(** A whole loop started again with the map it returned. *)
Lemma loop_replay {A Acc : Type}
    (step : Acc * gmap string typeTag -> nat -> A -> Acc * gmap string typeTag)
    (vis : nat -> A -> list visit) (l : list A) (i : nat) (acc : Acc)
    (tm : gmap string typeTag) :
  Replays step vis ->
  (forall s i x, snd (step s i x) = fold_left record (vis i x) (snd s)) ->
  foldIndexed step i l (acc, snd (foldIndexed step i l (acc, tm)))
  = foldIndexed step i l (acc, tm).
Proof.
  intros R T.
  rewrite (foldIndexed_replays step vis R T l i acc tm _ []).
  - now destruct (foldIndexed step i l (acc, tm)).
  - rewrite app_nil_r. exact (foldIndexed_visits step snd vis T l i (acc, tm)).
Qed.

Lemma fieldPath_not_first (r : nat) (h : string) : fieldPath r h <> "[0]".
Proof.
  rewrite fieldPath_eq. intros E. injection E as E.
  change "0]" with ("0" +:+ String "]" "") in E.
  apply (append_char_inj isBracket) in E as [_ E];
    [discriminate | reflexivity | apply ofNat_no_bracket | reflexivity].
Qed.

Lemma scalarRows_kept (m : matrix) (tm : gmap string typeTag) :
  scalarRows (snd (arrayRows m tm)) = scalarRows tm.
Proof.
  rewrite arrayRows_typeMap. unfold scalarRows.
  destruct (tm !! "[0]") as [h|] eqn:H.
  - now rewrite (fold_record_keeps _ _ _ _ H).
  - rewrite fold_record_elsewhere; [reflexivity | exact H |].
    intros raw Hin. unfold arrayVisits, scalarRows in Hin. rewrite H in Hin.
    apply in_concat in Hin as [vs [Hvs Hin]].
    apply in_map_iff in Hvs as [p [<- _]].
    apply tableVisits_In in Hin as [h [_ E]]. symmetry in E.
    now apply fieldPath_not_first in E.
Qed.

Lemma arrayRows_replay (m : matrix) (tm : gmap string typeTag) :
  arrayRows m (snd (arrayRows m tm)) = arrayRows m tm.
Proof.
  unfold arrayRows at 1. rewrite scalarRows_kept. unfold arrayRows.
  apply loop_replay with
    (vis := fun r row =>
              if scalarRows tm
              then [(rowPath r, getCellText (secondOrFirst (rowOf row)))]
              else tableVisits (headerTexts m) r (rowOf row)).
  - apply arrayRow_replays.
  - intros s i x. apply arrayRow_typeMap.
Qed.

Lemma wrappedRows_replay (m : matrix) (tm : gmap string typeTag) :
  wrappedRows m (snd (wrappedRows m tm)) = wrappedRows m tm.
Proof.
  unfold wrappedRows.
  apply loop_replay with (vis := fun r row => tableVisits (headerTexts m) r (rowOf row)).
  - apply wrappedRow_replays.
  - intros s i x. apply wrappedRow_typeMap.
Qed.

Lemma objectOfObjectsOut_replay (m : matrix) (tm : gmap string typeTag) :
  objectOfObjectsOut m (snd (objectOfObjectsOut m tm)) = objectOfObjectsOut m tm.
Proof.
  unfold objectOfObjectsOut. cbv zeta.
  eapply loop_replay.
  - apply objectRow_replays.
  - intros s i x. apply objectRow_typeMap.
Qed.

Lemma csvRows_replay (m : matrix) (tm : gmap string typeTag) :
  csvRows m (snd (csvRows m tm)) = csvRows m tm.
Proof.
  unfold csvRows. eapply loop_replay.
  - apply csvRow_replays.
  - intros s i x. apply csvRow_typeMap.
Qed.

Lemma keyValueResult_replay (m : matrix) (tm : gmap string typeTag) :
  keyValueResult m (snd (keyValueResult m tm)) = keyValueResult m tm.
Proof.
  unfold keyValueResult. eapply loop_replay.
  - apply keyValueRow_replays.
  - intros s i x. apply keyValueRow_typeMap.
Qed.

(** X1: a serialize pass run again on the same sheets with the type map
    the first pass returned gives the first pass's result again: the same
    text, the same type map, the same matrix.  So the hints a pass records
    never change what the grid it saw serializes to.  For the wrapped
    array shape this is stated when no header names the prototype
    accessor in its path: such a header makes the first pass write into
    the prototype all objects share. *)
Theorem sheetToText_again_with_returned_typeMap sheets
    (currentTypeMap : gmap string typeTag) (dataKind : dataKind)
    (wrapper : option wrapper) :
  (dataKind = KWrappedArray ->
   NoProtoPart (headerNames (celldataToMatrix (head sheets)))) ->
  sheetToText sheets
              (nextTypeMap (sheetToText sheets currentTypeMap dataKind wrapper))
              dataKind wrapper
  = sheetToText sheets currentTypeMap dataKind wrapper.
Proof.
  intros _. unfold sheetToText. cbv zeta. destruct dataKind.
  - pose proof (arrayRows_replay (celldataToMatrix (head sheets)) currentTypeMap) as R.
    destruct (arrayRows (celldataToMatrix (head sheets)) currentTypeMap) as [rows tm'].
    cbn [nextTypeMap snd] in *. now rewrite R.
  - pose proof (wrappedRows_replay (celldataToMatrix (head sheets)) currentTypeMap) as R.
    destruct (wrappedRows (celldataToMatrix (head sheets)) currentTypeMap) as [rows tm'].
    cbn [nextTypeMap snd] in *. now rewrite R.
  - pose proof (objectOfObjectsOut_replay (celldataToMatrix (head sheets))
                  currentTypeMap) as R.
    destruct (objectOfObjectsOut (celldataToMatrix (head sheets)) currentTypeMap)
      as [out tm'].
    cbn [nextTypeMap snd] in *. now rewrite R.
  - pose proof (csvRows_replay (celldataToMatrix (head sheets)) currentTypeMap) as R.
    destruct (csvRows (celldataToMatrix (head sheets)) currentTypeMap) as [rows tm'].
    cbn [nextTypeMap snd] in *. now rewrite R.
  - reflexivity.
  - pose proof (keyValueResult_replay (celldataToMatrix (head sheets)) currentTypeMap) as R.
    destruct (keyValueResult (celldataToMatrix (head sheets)) currentTypeMap)
      as [out tm'].
    cbn [nextTypeMap snd] in *. now rewrite R.
  - pose proof (keyValueResult_replay (celldataToMatrix (head sheets)) currentTypeMap) as R.
    destruct (keyValueResult (celldataToMatrix (head sheets)) currentTypeMap)
      as [out tm'].
    cbn [nextTypeMap snd] in *. now rewrite R.
Qed.

Lemma sheetToText_again_with_returned_typeMap_witness :
  let sheets := createSheetFromFlatRows ["a"; "b.c"]
                  [[("a", JStr "7"); ("b.c", JBool true)]; [("a", JStr "x")]] in
  sheetToText sheets (nextTypeMap (sheetToText sheets ∅ KWrappedArray None))
              KWrappedArray None
  = sheetToText sheets ∅ KWrappedArray None.
Proof.
  intros sheets. apply (sheetToText_again_with_returned_typeMap sheets ∅ KWrappedArray None).
  intros _. apply List.Forall_forall. intros h Hh Hin. vm_compute in Hh.
  destruct Hh as [<-|[<-|[]]]; vm_compute in Hin; intuition discriminate.
Defined.

(** * More on the cast engine *)

(** X2: whatever the text and the hint, the type [castWithType] returns is
    the runtime type of the value it returns, the value is a primitive,
    and a number it returns is finite (so the serializer never prints a
    number that JSON cannot hold). *)
Theorem castWithType_type_is_type_of_value (raw : string) (hint : option typeTag) :
  snd (castWithType raw hint) = inferSimpleHint (fst (castWithType raw hint))
  /\ isPrimitive (fst (castWithType raw hint)) = true
  /\ forall n, fst (castWithType raw hint) = JNum n -> isFinite n = true.
Proof.
  unfold castWithType. cbv zeta.
  destruct (String.eqb (trim raw) (dquote +:+ dquote)
            || String.eqb (trim raw) (squote +:+ squote));
    [repeat split; discriminate|].
  destruct (String.eqb (trim raw) ""); [repeat split; discriminate|].
  assert (I : snd (inferType (trim raw)) = inferSimpleHint (fst (inferType (trim raw)))
              /\ isPrimitive (fst (inferType (trim raw))) = true
              /\ forall n, fst (inferType (trim raw)) = JNum n -> isFinite n = true).
  { unfold inferType. cbv zeta.
    destruct (String.eqb (trim raw) ""); [repeat split; discriminate|].
    destruct (matchesWordI "true" (trim raw)); [repeat split; discriminate|].
    destruct (matchesWordI "false" (trim raw)); [repeat split; discriminate|].
    destruct (matchesWordI "null" (trim raw)); [repeat split; discriminate|].
    destruct (isFinite (Number (trim raw))) eqn:F; [|repeat split; discriminate].
    repeat split. intros n E. cbn [fst] in E. now injection E as <-. }
  destruct hint as [[| | | | |]|]; try exact I; try (repeat split; discriminate).
  - destruct (isFinite (Number (trim raw))) eqn:F; cbn [negb];
      [|repeat split; discriminate].
    repeat split. intros n E. cbn [fst] in E. now injection E as <-.
  - destruct (matchesWordI "true" (trim raw)); [repeat split; discriminate|].
    destruct (matchesWordI "false" (trim raw)); repeat split; discriminate.
Qed.

(** * CSV: from the text to the grid and back *)

Lemma matrixCells_celldata (r : nat) (values : list json) :
  forall i tm cd,
    snd (foldIndexed (matrixCell r) i values (tm, cd))
    = cd ++ mapIndexed (fun c v => createCell r c (Some (orEmpty v))) i values.
Proof.
  induction values as [|v values IH]; intros i tm cd; cbn [foldIndexed mapIndexed].
  - now rewrite app_nil_r.
  - unfold matrixCell at 2. rewrite IH, <- app_assoc. reflexivity.
Qed.

Lemma matrixRows_celldata (rows : list (list json)) :
  forall r tm cd,
    exists tm',
      matrixRows r (map JArr rows) (tm, cd)
      = Some (tm',
              cd ++ concat (mapIndexed
                              (fun r values =>
                                 mapIndexed (fun c v => createCell r c (Some (orEmpty v)))
                                            0 values) r rows)).
Proof.
  induction rows as [|values rows IH]; intros r tm cd; cbn [map matrixRows].
  - exists tm. now rewrite app_nil_r.
  - cbn [matrixRowValues].
    pose proof (matrixCells_celldata r values 0 tm cd) as C.
    destruct (foldIndexed (matrixCell r) 0 values (tm, cd)) as [tm1 cd1].
    cbn [snd] in C. subst cd1.
    destruct (IH (S r) tm1 (cd ++ mapIndexed (fun c v => createCell r c (Some (orEmpty v)))
                                            0 values)) as [tm' E].
    exists tm'. rewrite E. cbn [mapIndexed concat]. now rewrite <- app_assoc.
Qed.

Lemma tokenCells_grid (rows : list (list string)) (r0 : nat) :
  concat (mapIndexed
            (fun r values =>
               mapIndexed (fun c v => createCell r c (Some (orEmpty v))) 0 values)
            r0 (map (map JStr) rows))
  = gridCells r0 (tokenGrid rows).
Proof.
  unfold gridCells, tokenGrid. rewrite !mapIndexed_of_map. f_equal.
  apply mapIndexed_ext. intros r row. rewrite !mapIndexed_of_map.
  apply mapIndexed_ext. intros c t. apply createCell_cellOf.
Qed.

Lemma tokenGrid_rows (rows : list (list string)) :
  Forall (fun row => row <> []) rows ->
  Forall (fun row => row <> []) (tokenGrid rows)
  /\ Forall (Forall (fun cell => cell <> JNull)) (tokenGrid rows).
Proof.
  intros N. unfold tokenGrid. split.
  - apply List.Forall_forall. intros row Hin. apply in_map_iff in Hin as [x [<- Hx]].
    rewrite List.Forall_forall in N. specialize (N x Hx). now destruct x.
  - apply List.Forall_forall. intros row Hin. apply in_map_iff in Hin as [x [<- Hx]].
    apply List.Forall_forall. intros cell Hc. apply in_map_iff in Hc as [t [<- _]].
    apply cellOf_not_null.
Qed.

Lemma parseCsvMatrix_rows (text : string) :
  Forall (fun row => row <> []) (parseCsvMatrix text).
Proof.
  rewrite parseCsvMatrix_lines. apply List.Forall_forall. intros row Hin.
  apply in_map_iff in Hin as [line [<- _]]. unfold csvTokens.
  pose proof (split_nonempty "," line) as N. now destruct (split "," line).
Qed.

Lemma record_present (tm : gmap string typeTag) (p raw : string) (h : typeTag) :
  tm !! p = Some h -> record tm (p, raw) = tm.
Proof.
  intros H. apply map_eq. intros q. rewrite record_lookup.
  destruct (String.eqb p q) eqn:Q; [|reflexivity].
  apply String.eqb_eq in Q as <-. now rewrite H.
Qed.

Lemma csvCells_tokens (r : nat) (tm : gmap string typeTag) (tokens : list string) :
  forall i outRow,
    (forall c t, tokens !! c = Some t -> tm !! csvPath r (i + c) = Some HString) ->
    foldIndexed (csvCell r) i (map Some (map (fun t => cellOf (Some (JStr t))) tokens))
                (outRow, tm)
    = (outRow ++ map csvField tokens, tm).
Proof.
  induction tokens as [|t tokens IH]; intros i outRow H; cbn [map foldIndexed].
  - now rewrite app_nil_r.
  - assert (E : csvCell r (outRow, tm) i (Some (cellOf (Some (JStr t))))
                = (outRow ++ [csvField t], tm)).
    { unfold csvCell. change (getCellText (Some (cellOf (Some (JStr t))))) with t.
      specialize (H 0 t eq_refl). rewrite Nat.add_0_r in H.
      rewrite castCell_pair, (hintAt_own _ _ _ H), (record_present tm _ _ HString H).
      now rewrite castWithType_string_hint. }
    rewrite E, IH; [now rewrite <- app_assoc|].
    intros c t' L. rewrite Nat.add_succ_l, <- Nat.add_succ_r. exact (H (S c) t' L).
Qed.

Lemma csvRows_tokens (tm : gmap string typeTag) (rows : list (list string)) :
  forall r lines,
    (forall r' row c t, rows !! r' = Some row -> row !! c = Some t ->
                        tm !! csvPath (r + r') c = Some HString) ->
    foldIndexed csvRow r (dense (tokenGrid rows)) (lines, tm)
    = (lines ++ map (fun row => join "," (map csvField row)) rows, tm).
Proof.
  induction rows as [|row rows IH]; intros r lines H.
  - simpl. now rewrite app_nil_r.
  - change (dense (tokenGrid (row :: rows)))
      with (Some (map Some (map (fun t => cellOf (Some (JStr t))) row))
            :: dense (tokenGrid rows)).
    cbn [foldIndexed]. unfold csvRow at 2. cbn [rowOf].
    rewrite (csvCells_tokens r tm row 0 []).
    + cbn [app]. rewrite IH; [cbn [map]; now rewrite <- app_assoc|].
      intros r' row' c t L Lc. rewrite Nat.add_succ_l, <- Nat.add_succ_r.
      exact (H (S r') row' c t L Lc).
    + intros c t L. specialize (H 0 row c t eq_refl L). now rewrite Nat.add_0_r in H.
Qed.

(** X3: a csv text always loads, without an error; serializing the
    unedited grid gives, line by line and joined by line feeds, the
    trimmed tokens of the text each cast with no hint and escaped again;
    and the pass leaves the type map built at load as it is. *)
Theorem csv_text_loads_and_serializes_token_by_token (text : string) :
  exists p,
    toSheetPayloadFromContent (parseCsv text) = Some p
    /\ error p = None
    /\ dataKind_ p = KCsv
    /\ textOut (serializeLoaded p)
       = join LF (map (fun row => join "," (map csvField row)) (parseCsvMatrix text))
    /\ nextTypeMap (serializeLoaded p) = typeMap p.
Proof.
  unfold toSheetPayloadFromContent, parseCsv.
  cbn [dataKindIs objGet String.eqb Ascii.eqb Bool.eqb prop].
  unfold createSheetFromMatrix.
  rewrite <- (map_map (map JStr) JArr).
  destruct (matrixRows_celldata (map (map JStr) (parseCsvMatrix text)) 0 ∅ [])
    as [tm E].
  pose proof E as M. rewrite E. cbn [app]. rewrite tokenCells_grid.
  rewrite tokenCells_grid in M.
  eexists. split; [reflexivity|]. split; [reflexivity|]. split; [reflexivity|].
  unfold serializeLoaded. cbn [sheets typeMap dataKind_ wrapper_].
  unfold sheetToText. cbn [head].
  change {| sheet_name := Some (JStr "Sheet1"); sheet_order := 0;
            sheet_celldata := Some (gridCells 0 (tokenGrid (parseCsvMatrix text)));
            sheet_data := Some (celldataToMatrixFromCells
                                  (gridCells 0 (tokenGrid (parseCsvMatrix text)))) |}
    with (sheet1 (gridCells 0 (tokenGrid (parseCsvMatrix text)))).
  destruct (tokenGrid_rows _ (parseCsvMatrix_rows text)) as [G1 G2].
  rewrite (celldataToMatrix_dense _ G1 G2). unfold csvRows.
  rewrite (csvRows_tokens tm (parseCsvMatrix text) 0 []).
  - cbn [app textOut nextTypeMap]. split; reflexivity.
  - intros r row c t L Lc. cbn [Nat.add].
    apply matrixRows_lookup in M as [M1 _].
    specialize (M1 r c (map JStr row) (JStr t)). cbn [Nat.add] in M1. apply M1.
    + unfold slots. rewrite !lookup_map, L. reflexivity.
    + rewrite lookup_map, Lc. reflexivity.
Qed.

(** * CSV fields *)

Lemma containsChar_app (p : ascii -> bool) (a b : string) :
  containsChar p (a +:+ b) = containsChar p a || containsChar p b.
Proof.
  induction a as [|c a IH]; simpl; [reflexivity|]. now rewrite IH, orb_assoc.
Qed.

Lemma stripWs_suffix (s r : string) : stripWs s = Some r -> exists w, s = w +:+ r.
Proof.
  destruct s as [|a [|b [|c r3]]]; simpl; try discriminate.
  - destruct (isWs1 a); [|discriminate]. intros E. injection E as <-.
    now exists (String a "").
  - destruct (isWs1 a); [intros E; injection E as <-; now exists (String a "")|].
    destruct (isWs2 a b); [|discriminate]. intros E. injection E as <-.
    now exists (String a (String b "")).
  - destruct (isWs1 a); [intros E; injection E as <-; now exists (String a "")|].
    destruct (isWs2 a b); [intros E; injection E as <-; now exists (String a (String b ""))|].
    destruct (isWs3 a b c); [|discriminate]. intros E. injection E as <-.
    now exists (String a (String b (String c ""))).
Qed.

Lemma trimStart_suffix (s : string) : exists w, s = w +:+ trimStart s.
Proof.
  revert s. apply trimStart_ind.
  - intros s N. rewrite (trimStart_clean s N). now exists "".
  - intros s r E [w IH]. rewrite (trimStart_strip s r E). destruct (stripWs_suffix s r E) as [w0 ->].
    exists (w0 +:+ w). rewrite append_assoc. now rewrite <- IH.
Qed.

(** [trim] takes characters away only. *)
Lemma trim_within (p : ascii -> bool) (s : string) :
  containsChar p s = false -> containsChar p (trim s) = false.
Proof.
  intros H. unfold trim.
  destruct (trimStart_suffix s) as [w E].
  destruct (trimEnd_split (trimStart s)) as [w' [E' _]].
  rewrite E, containsChar_app in H. apply orb_false_iff in H as [_ H].
  rewrite E', containsChar_app in H. now apply orb_false_iff in H as [H _].
Qed.

Lemma consHead_within (p : ascii -> bool) (c : ascii) (l : list string) :
  p c = false ->
  Forall (fun t => containsChar p t = false) l ->
  Forall (fun t => containsChar p t = false) (consHead c l).
Proof.
  intros Pc F. destruct F as [|t l Ht F]; simpl.
  - constructor; [simpl; now rewrite Pc | constructor].
  - constructor; [simpl; now rewrite Pc, Ht | exact F].
Qed.

Lemma split_within (c : ascii) (s : string) :
  Forall (fun t => containsChar (fun x => Ascii.eqb x c) t = false) (split c s).
Proof.
  induction s as [|x s IH]; simpl; [repeat constructor|].
  destruct (Ascii.eqb x c) eqn:E; [constructor; [reflexivity | exact IH]|].
  now apply consHead_within.
Qed.

Lemma split_keeps (p : ascii -> bool) (c : ascii) (s : string) :
  containsChar p s = false ->
  Forall (fun t => containsChar p t = false) (split c s).
Proof.
  induction s as [|x s IH]; simpl; intros H; [repeat constructor|].
  apply orb_false_iff in H as [Px H].
  destruct (Ascii.eqb x c); [constructor; [reflexivity | now apply IH]|].
  apply consHead_within; [exact Px | now apply IH].
Qed.

Lemma splitLines_within (s : string) :
  Forall (fun t => containsChar isLF t = false) (splitLines s).
Proof.
  revert s. apply splitLines_ind.
  - repeat constructor.
  - intros c. rewrite splitLines_one. destruct (isLF c) eqn:E; repeat constructor.
    simpl. now rewrite E.
  - intros c d r IHr IHd.
    rewrite splitLines_two. destruct (isLF c) eqn:E; [constructor; [reflexivity | exact IHd]|].
    destruct (isCR c && isLF d); [constructor; [reflexivity | exact IHr]|].
    now apply consHead_within.
Qed.

Lemma removelast_Forall {A : Type} (P : A -> Prop) (l : list A) :
  Forall P l -> Forall P (removelast l).
Proof.
  induction 1 as [|x l Px F IH]; [constructor|]. simpl.
  destruct l; [constructor|]. constructor; assumption.
Qed.

Lemma isSeparator_false (t : string) :
  containsChar (fun x => Ascii.eqb x ",") t = false ->
  containsChar isLF t = false ->
  containsChar isSeparator t = false.
Proof.
  induction t as [|c t IH]; simpl; [reflexivity|]. intros H1 H2.
  apply orb_false_iff in H1 as [A H1]. apply orb_false_iff in H2 as [B H2].
  unfold isSeparator at 1, isComma. now rewrite A, B, IH.
Qed.

(** X4: no cell [parseCsv] gives holds a comma or a line feed, quoted or
    not: the reader splits at every line feed and at every comma. *)
Theorem parseCsv_cells_hold_no_separator (text : string) :
  Forall (Forall (fun t => containsChar isSeparator t = false)) (parseCsvMatrix text).
Proof.
  rewrite parseCsvMatrix_lines. apply List.Forall_forall. intros row Hin.
  apply in_map_iff in Hin as [line [<- Hl]].
  assert (L : containsChar isLF line = false).
  { assert (F : Forall (fun t => containsChar isLF t = false) (csvLines (splitLines text))).
    { unfold csvLines. destruct (String.eqb _ _);
        [apply removelast_Forall|]; apply splitLines_within. }
    rewrite List.Forall_forall in F. now apply F. }
  unfold csvTokens. apply List.Forall_forall. intros t Ht.
  apply in_map_iff in Ht as [tok [<- Htok]].
  apply isSeparator_false; apply trim_within.
  - pose proof (split_within "," line) as F. rewrite List.Forall_forall in F.
    now apply F.
  - pose proof (split_keeps isLF "," line L) as F. rewrite List.Forall_forall in F.
    now apply F.
Qed.

Lemma dquote_char : dquote = String (ascii_of_nat 34) "".
Proof. reflexivity. Qed.

Lemma doubleQuotes_cons (c : ascii) (r : string) :
  doubleQuotes (String c r)
  = if code c =? 34
    then String (ascii_of_nat 34) (String (ascii_of_nat 34) (doubleQuotes r))
    else String c (doubleQuotes r).
Proof. simpl. now destruct (code c =? 34). Qed.

Lemma code_quote (c : ascii) : (code c =? 34) = true -> c = ascii_of_nat 34.
Proof.
  intros Q. apply Nat.eqb_eq in Q. unfold code in Q.
  now rewrite <- (ascii_nat_embedding c), Q.
Qed.

Lemma doubleQuotes_inj (s s' : string) :
  doubleQuotes s +:+ dquote = doubleQuotes s' +:+ dquote -> s = s'.
Proof.
  rewrite dquote_char. revert s'.
  induction s as [|c s IH]; intros [|c' s']; rewrite ?doubleQuotes_cons; intros E.
  - reflexivity.
  - destruct (code c' =? 34) eqn:Q; simpl in E.
    + injection E as E. destruct (doubleQuotes s'); discriminate.
    + injection E as E _. rewrite <- E in Q. discriminate.
  - destruct (code c =? 34) eqn:Q; simpl in E.
    + injection E as E. destruct (doubleQuotes s); discriminate.
    + injection E as E _. rewrite E in Q. discriminate.
  - destruct (code c =? 34) eqn:Q, (code c' =? 34) eqn:Q'; simpl in E.
    + injection E as E. rewrite (code_quote c Q), (code_quote c' Q').
      f_equal. now apply IH.
    + injection E as E1 E2. rewrite <- E1 in Q'. discriminate.
    + injection E as E1 E2. rewrite E1 in Q. discriminate.
    + injection E as -> E. f_equal. now apply IH.
Qed.

Lemma escapeCsv_text (s : string) :
  escapeCsv (JStr s)
  = if containsChar isSpecial s then dquote +:+ doubleQuotes s +:+ dquote else s.
Proof. reflexivity. Qed.

(** X5: [escapeCsv] never gives the same field for two different texts. *)
Theorem escapeCsv_tells_texts_apart (s s' : string) :
  escapeCsv (JStr s) = escapeCsv (JStr s') -> s = s'.
Proof.
  rewrite !escapeCsv_text.
  destruct (containsChar isSpecial s) eqn:A, (containsChar isSpecial s') eqn:B; intros E.
  - simpl in E. injection E as E. now apply doubleQuotes_inj.
  - subst s'. simpl in B. discriminate.
  - subst s. simpl in A. discriminate.
  - exact E.
Qed.

Lemma escapeCsv_tells_texts_apart_witness :
  escapeCsv (JStr "a,b") = escapeCsv (JStr "a,b") /\ "a,b" = "a,b".
Proof.
  split; [reflexivity|].
  exact (escapeCsv_tells_texts_apart "a,b" "a,b" eq_refl).
Defined.

(** ** A quoted field is not read back *)

Lemma isWs1_not_quote (a : ascii) : isWs1 a = true -> isQuote a = false.
Proof.
  unfold isWs1, isQuote. cbv zeta. intros H. apply Nat.eqb_neq. codes; lia.
Qed.

Lemma isWs2_not_quote (a b : ascii) :
  isWs2 a b = true -> isQuote a = false /\ isQuote b = false.
Proof.
  unfold isWs2, isQuote. intros H. split; apply Nat.eqb_neq; codes; lia.
Qed.

Lemma isWs3_not_quote (a b c : ascii) :
  isWs3 a b c = true -> isQuote a = false /\ isQuote b = false /\ isQuote c = false.
Proof.
  unfold isWs3, isQuote. cbv zeta. intros H.
  repeat split; apply Nat.eqb_neq; codes; lia.
Qed.

Lemma stripWs_no_quote (s r : string) :
  stripWs s = Some r -> containsChar isQuote s = containsChar isQuote r.
Proof.
  destruct s as [|a [|b [|c r3]]]; simpl; try discriminate.
  - destruct (isWs1 a) eqn:A; [|discriminate]. intros E. injection E as <-.
    now rewrite (isWs1_not_quote a A).
  - destruct (isWs1 a) eqn:A;
      [intros E; injection E as <-; now rewrite (isWs1_not_quote a A)|].
    destruct (isWs2 a b) eqn:B; [|discriminate]. intros E. injection E as <-.
    destruct (isWs2_not_quote a b B) as [-> ->]. reflexivity.
  - destruct (isWs1 a) eqn:A;
      [intros E; injection E as <-; now rewrite (isWs1_not_quote a A)|].
    destruct (isWs2 a b) eqn:B.
    + intros E. injection E as <-. destruct (isWs2_not_quote a b B) as [-> ->].
      reflexivity.
    + destruct (isWs3 a b c) eqn:C; [|discriminate]. intros E. injection E as <-.
      destruct (isWs3_not_quote a b c C) as [-> [-> ->]]. reflexivity.
Qed.

Lemma isBlank_no_quote (s : string) :
  isBlank s = true -> containsChar isQuote s = false.
Proof.
  revert s.
  apply (trimStart_ind (fun s => isBlank s = true -> containsChar isQuote s = false)).
  - intros s N B. apply isBlank_true in B. rewrite (trimStart_clean s N) in B.
    now subst s.
  - intros s r E IH B. rewrite (stripWs_no_quote s r E). apply IH.
    apply isBlank_true. apply isBlank_true in B. now rewrite <- (trimStart_strip s r E).
Qed.

Lemma trimEnd_ends_quote (x : string) :
  trimEnd (x +:+ dquote) = x +:+ dquote.
Proof.
  induction x as [|c x IH]; [reflexivity|].
  change (String c x +:+ dquote) with (String c (x +:+ dquote)).
  rewrite trimEnd_cons; [now rewrite IH|].
  destruct (isBlank (String c (x +:+ dquote))) eqn:B; [|reflexivity].
  apply isBlank_no_quote in B. simpl in B. apply orb_false_iff in B as [_ B].
  rewrite containsChar_app in B. apply orb_false_iff in B as [_ B]. discriminate.
Qed.

Lemma trim_quoted (x : string) :
  trim (dquote +:+ x +:+ dquote) = dquote +:+ x +:+ dquote.
Proof.
  unfold trim. rewrite trimStart_clean.
  - change (dquote +:+ x +:+ dquote) with (String (ascii_of_nat 34) x +:+ dquote).
    apply trimEnd_ends_quote.
  - rewrite dquote_char. simpl. now destruct (x +:+ String (ascii_of_nat 34) "") as [|b [|c r]].
Qed.

Lemma splitLines_no_LF (s : string) :
  containsChar isLF s = false -> splitLines s = [s].
Proof.
  revert s.
  apply (splitLines_ind (fun s => containsChar isLF s = false -> splitLines s = [s])).
  - reflexivity.
  - intros c H. simpl in H. apply orb_false_iff in H as [H _].
    now rewrite splitLines_one, H.
  - intros c d r _ IH H. simpl in H. apply orb_false_iff in H as [Hc H].
    rewrite splitLines_two, Hc.
    assert (Hd : isLF d = false) by (simpl in H; now apply orb_false_iff in H as [H _]).
    rewrite Hd, andb_false_r. now rewrite (IH H).
Qed.

Lemma doubleQuotes_within (p : ascii -> bool) (s : string) :
  p (ascii_of_nat 34) = false ->
  containsChar p s = false -> containsChar p (doubleQuotes s) = false.
Proof.
  intros Q. induction s as [|c s IH]; [reflexivity|]. intros H.
  simpl in H. apply orb_false_iff in H as [Hc H].
  rewrite doubleQuotes_cons. destruct (code c =? 34); simpl.
  - now rewrite Q, (IH H).
  - now rewrite Hc, (IH H).
Qed.

Lemma doubleQuotes_length (s : string) :
  String.length s <= String.length (doubleQuotes s).
Proof.
  induction s as [|c s IH]; [reflexivity|].
  rewrite doubleQuotes_cons. destruct (code c =? 34); simpl; lia.
Qed.

Lemma append_length (a b : string) :
  String.length (a +:+ b) = String.length a + String.length b.
Proof. induction a as [|c a IH]; simpl; [reflexivity | now rewrite IH]. Qed.

Lemma separator_parts (s : string) :
  containsChar isSeparator s = false ->
  containsChar (fun x => Ascii.eqb x ",") s = false /\ containsChar isLF s = false.
Proof.
  induction s as [|c s IH]; simpl; [now split|]. intros H.
  apply orb_false_iff in H as [Hc H]. destruct (IH H) as [A B].
  unfold isSeparator, isComma in Hc. apply orb_false_iff in Hc as [C L].
  now rewrite A, B, C, L.
Qed.

Lemma single_field (e : string) :
  containsChar isSeparator e = false -> trim e = e -> e <> "" ->
  parseCsvMatrix e = [[e]].
Proof.
  intros S T N. destruct (separator_parts e S) as [C L].
  rewrite parseCsvMatrix_lines, (splitLines_no_LF e L). unfold csvLines. cbn [List.last].
  rewrite T. destruct (String.eqb e "") eqn:E; [apply String.eqb_eq in E; congruence|].
  cbn [map]. unfold csvTokens. rewrite (split_no_separator "," e C). cbn [map].
  now rewrite T.
Qed.

(** X6: a text the serializer has to quote does not come back from the
    reader.  If the text holds a comma or a line feed, no text at all is
    read as the one cell; if it only holds double quotes, the field is
    read as one cell that still carries the quotes around it and the
    doubled quotes inside. *)
Theorem quoted_field_is_not_read_back (s : string) :
  containsChar isSpecial s = true ->
  parseCsvMatrix (escapeCsv (JStr s)) <> [[s]]
  /\ (containsChar isSeparator s = false ->
      parseCsvMatrix (escapeCsv (JStr s)) = [[dquote +:+ doubleQuotes s +:+ dquote]]).
Proof.
  intros Sp. rewrite escapeCsv_text, Sp.
  assert (Q : containsChar isSeparator s = false ->
              parseCsvMatrix (dquote +:+ doubleQuotes s +:+ dquote)
              = [[dquote +:+ doubleQuotes s +:+ dquote]]).
  { intros S. apply single_field; [|apply trim_quoted | discriminate].
    change (dquote +:+ doubleQuotes s +:+ dquote)
      with (String (ascii_of_nat 34) (doubleQuotes s +:+ dquote)).
    cbn [containsChar]. rewrite containsChar_app.
    now rewrite (doubleQuotes_within isSeparator s eq_refl S). }
  split; [|exact Q].
  destruct (containsChar isSeparator s) eqn:S.
  - intros E.
    assert (F : Forall (Forall (fun t => containsChar isSeparator t = false)) [[s]]).
    { rewrite <- E, parseCsvMatrix_lines. apply List.Forall_forall. intros row Hin.
      apply in_map_iff in Hin as [line [<- Hl]].
      assert (L : Forall (fun t => containsChar isLF t = false)
                         (csvLines (splitLines (dquote +:+ doubleQuotes s +:+ dquote)))).
      { unfold csvLines. destruct (String.eqb _ _);
          [apply removelast_Forall|]; apply splitLines_within. }
      rewrite List.Forall_forall in L. specialize (L line Hl).
      unfold csvTokens. apply List.Forall_forall. intros t Ht.
      apply in_map_iff in Ht as [tok [<- Htok]].
      apply isSeparator_false; apply trim_within.
      - pose proof (split_within "," line) as W. rewrite List.Forall_forall in W.
        now apply W.
      - pose proof (split_keeps isLF "," line L) as W. rewrite List.Forall_forall in W.
        now apply W. }
    inversion F as [|? ? Fr _]; subst. inversion Fr as [|? ? Fs _]; subst. congruence.
  - rewrite (Q eq_refl). intros E.
    assert (E' : String (ascii_of_nat 34) (doubleQuotes s +:+ dquote) = s)
      by (injection E as E; exact E).
    apply (f_equal String.length) in E'. cbn [String.length] in E'.
    rewrite append_length in E'.
    pose proof (doubleQuotes_length s). lia.
Qed.

Lemma quoted_field_is_not_read_back_witness :
  containsChar isSpecial ("say " +:+ dquote +:+ "hi" +:+ dquote) = true
  /\ parseCsvMatrix (escapeCsv (JStr ("say " +:+ dquote +:+ "hi" +:+ dquote)))
     <> [["say " +:+ dquote +:+ "hi" +:+ dquote]].
Proof.
  split; [reflexivity|].
  exact (proj1 (quoted_field_is_not_read_back ("say " +:+ dquote +:+ "hi" +:+ dquote)
                  eq_refl)).
Defined.

(** * Setting a value at a dotted path *)

Lemma setNestedParts_get (parts : list string) (v : json) :
  parts <> [] -> ~ In protoKey parts ->
  forall o, getPath parts (setNestedParts parts o v) = Some v.
Proof.
  induction parts as [|k [|k2 rest] IH]; intros N P o; [congruence| |].
  - cbn [setNestedParts getPath]. rewrite objAssign_other; [apply objGet_objSet_eq|].
    intros ->. apply P. now left.
  - cbn [setNestedParts getPath]. rewrite objGet_objSet_eq. apply IH; [discriminate|].
    intros H. apply P. now right.
Qed.

Lemma objGet_objAssign_ne (k j : string) (v : json) (o : list (string * json)) :
  k <> j -> objGet j (objAssign k v o) = objGet j o.
Proof.
  intros N. unfold objAssign.
  destruct (String.eqb k protoKey && negb (objHas k o)); [reflexivity|].
  now apply objGet_objSet_ne.
Qed.

Lemma setNestedParts_frame (parts : list string) (v : json) (o : list (string * json))
    (j : string) :
  head parts <> Some j -> objGet j (setNestedParts parts o v) = objGet j o.
Proof.
  destruct parts as [|k [|k2 rest]]; intros H; [reflexivity| |];
    cbn [setNestedParts]; [apply objGet_objAssign_ne | apply objGet_objSet_ne];
    intros ->; now apply H.
Qed.

(** X7: [setNestedValue] on a target with no array where the path goes,
    for a path none of whose parts is the name of the prototype accessor:
    a path without a non-empty part leaves the target as it is; after any
    other path, reading the target along the parts gives the value set,
    whatever stood there before, and every top-level key but the first
    part of the path holds what it held. *)
Theorem setNestedValue_sets_what_the_path_reads (target : list (string * json))
    (dottedPath : string) (value : json) :
  arrayOnPath (pathParts dottedPath) target = false ->
  ~ In protoKey (pathParts dottedPath) ->
  (pathParts dottedPath = [] -> setNestedValue target dottedPath value = target)
  /\ (pathParts dottedPath <> [] ->
      getPath (pathParts dottedPath) (setNestedValue target dottedPath value)
      = Some value)
  /\ (forall j, head (pathParts dottedPath) <> Some j ->
                objGet j (setNestedValue target dottedPath value) = objGet j target).
Proof.
  intros _ P. unfold setNestedValue. fold (pathParts dottedPath). split; [|split].
  - now intros ->.
  - intros N. now apply setNestedParts_get.
  - intros j H. now apply setNestedParts_frame.
Qed.

Lemma setNestedValue_sets_what_the_path_reads_witness :
  arrayOnPath (pathParts "a..b") [("a", JNum (Number "5")); ("c", JBool true)] = false
  /\ ~ In protoKey (pathParts "a..b")
  /\ getPath ["a"; "b"]
       (setNestedValue [("a", JNum (Number "5")); ("c", JBool true)] "a..b" JNull)
     = Some JNull
  /\ objGet "c" (setNestedValue [("a", JNum (Number "5")); ("c", JBool true)] "a..b" JNull)
     = Some (JBool true).
Proof.
  assert (P : ~ In protoKey (pathParts "a..b")).
  { intros H. vm_compute in H. intuition discriminate. }
  split; [reflexivity|]. split; [exact P|].
  destruct (setNestedValue_sets_what_the_path_reads
              [("a", JNum (Number "5")); ("c", JBool true)] "a..b" JNull eq_refl P)
    as [_ [G F]].
  split.
  - apply G. discriminate.
  - apply F. discriminate.
Defined.

(** * The matrix handed to the xlsx writer *)

Lemma orElse_not_null (a : option json) (b : json) : b <> JNull -> orElse a b <> JNull.
Proof. intros N. destruct a as [[| | | | |]|]; simpl; congruence. Qed.

Lemma normalizeCell_not_null (cell : json) : normalizeCell cell <> JNull.
Proof.
  destruct cell as [| | | | |o]; simpl; try discriminate.
  destruct (objGet "v" o) as [[| | | | |inner]|]; try discriminate.
  - repeat apply orElse_not_null. discriminate.
  - destruct (objGet "m" o) as [[| | | | |]|]; discriminate.
Qed.

Lemma normalizeRows_cells (rows out : list json) :
  normalizeRows rows = Some out ->
  Forall (fun row => exists cells, row = JArr cells
                                   /\ Forall (fun cell => cell <> JNull) cells) out
  /\ length out = length rows.
Proof.
  revert out. induction rows as [|row rows IH]; intros out; simpl.
  - intros E. injection E as <-. split; [constructor | reflexivity].
  - destruct (itemsOrNone row) as [cells|]; [|discriminate].
    destruct (normalizeRows rows) as [out'|]; [|discriminate].
    intros E. injection E as <-. destruct (IH out' eq_refl) as [F L]. split.
    + constructor; [|exact F]. eexists. split; [reflexivity|].
      apply List.Forall_forall. intros c Hc. apply in_map_iff in Hc as [x [<- _]].
      apply normalizeCell_not_null.
    + simpl. now rewrite L.
Qed.

Lemma normalizeCell_created (r c : nat) (v : json) :
  normalizeCell (cellOrEntry (createCell r c (Some v))) = shown v.
Proof. destruct v; reflexivity. Qed.

Lemma normalizeRows_created (rows : list (list json)) :
  forall r0,
    normalizeRows
      (mapIndexed (fun r row =>
                     JArr (mapIndexed (fun c v => cellOrEntry (createCell r c (Some v)))
                                      0 row)) r0 rows)
    = Some (map (fun row => JArr (map shown row)) rows).
Proof.
  induction rows as [|row rows IH]; intros r0; [reflexivity|].
  cbn [mapIndexed normalizeRows itemsOrNone map]. rewrite IH. do 3 f_equal.
  rewrite mapIndexed_map. generalize 0.
  induction row as [|v row IHr]; intros c0; [reflexivity|].
  cbn [mapIndexed map]. now rewrite normalizeCell_created, IHr.
Qed.

(** X8: [normalizeMatrixForXlsx] never writes null into a cell and gives
    as many rows as it gets; on the matrix of the cells [createCell]
    built for a matrix of values it gives the values back, with the
    empty string for null and the JSON text for an array or an object. *)
Theorem normalizeMatrixForXlsx_gives_values_back :
  (forall matrix out,
      normalizeMatrixForXlsx matrix = Some out ->
      exists rows,
        out = JArr rows
        /\ Forall (fun row => exists cells, row = JArr cells
                                            /\ Forall (fun cell => cell <> JNull) cells)
                  rows
        /\ forall given, matrix = JArr given -> length rows = length given)
  /\ (forall rows : list (list json),
         normalizeMatrixForXlsx
           (JArr (mapIndexed
                    (fun r row =>
                       JArr (mapIndexed
                               (fun c v => cellOrEntry (createCell r c (Some v))) 0 row))
                    0 rows))
         = Some (JArr (map (fun row => JArr (map shown row)) rows))).
Proof.
  split.
  - intros matrix out. unfold normalizeMatrixForXlsx.
    destruct (itemsOrNone matrix) as [items|] eqn:I; [|discriminate].
    destruct (normalizeRows items) as [rows|] eqn:R; [|discriminate].
    intros E. injection E as <-. exists rows.
    destruct (normalizeRows_cells items rows R) as [F L].
    split; [reflexivity|]. split; [exact F|].
    intros given ->. simpl in I. injection I as <-. exact L.
  - intros rows. unfold normalizeMatrixForXlsx. cbn [itemsOrNone].
    now rewrite normalizeRows_created.
Qed.

(** * Loading a JSON document: errors *)

(** X9: for content that does not carry the tag of csv or xlsx content,
    [toSheetPayloadFromContent] always returns a payload; the payload
    holds the pretty-printed text of the content and an empty type map,
    and it is either a payload without an error, with exactly one sheet,
    or the unsupported payload: an error, no sheet. *)
Theorem json_load_returns_one_sheet_or_an_error (content : json) :
  dataKindIs "csv" content = false ->
  dataKindIs "xlsx" content = false ->
  exists p,
    toSheetPayloadFromContent content = Some p
    /\ text p = Some (JStr (stringifyPretty (orEmptyObject content)))
    /\ typeMap p = ∅
    /\ ((error p = None /\ length (sheets p) = 1 /\ dataKind_ p <> KUnsupported)
        \/ (exists reason, error p = Some reason /\ sheets p = []
                           /\ dataKind_ p = KUnsupported)).
Proof.
  intros C X. unfold toSheetPayloadFromContent. rewrite C, X. cbv zeta.
  fold (orEmptyObject content).
  destruct (validateAndExtract content) as [[rows meta dataProp|rows|o|o]|reason].
  - destruct (flattenRows 0 rows [] []) as [[i errors]|[headers flats]];
      eexists; (split; [reflexivity|]); (split; [reflexivity|]); (split; [reflexivity|]).
    + right. eexists. repeat split.
    + left. repeat split. discriminate.
  - destruct (flattenRows 0 rows [] []) as [[i errors]|[headers flats]];
      eexists; (split; [reflexivity|]); (split; [reflexivity|]); (split; [reflexivity|]).
    + right. eexists. repeat split.
    + left. repeat split. discriminate.
  - cbn [createSheetsFromJson createSheetFromObject].
    eexists. split; [reflexivity|]. split; [reflexivity|]. split; [reflexivity|].
    left. repeat split. discriminate.
  - destruct (prepareObjectOfObjects o) as [keys fields rows|reason];
      eexists; (split; [reflexivity|]); (split; [reflexivity|]); (split; [reflexivity|]).
    + left. repeat split. discriminate.
    + right. eexists. repeat split.
  - eexists. split; [reflexivity|]. split; [reflexivity|]. split; [reflexivity|].
    right. eexists. repeat split.
Qed.

Lemma json_load_returns_one_sheet_or_an_error_witness :
  exists p,
    toSheetPayloadFromContent (JArr [JStr "x"]) = Some p
    /\ text p = Some (JStr (stringifyPretty (JArr [JStr "x"])))
    /\ typeMap p = ∅
    /\ ((error p = None /\ length (sheets p) = 1 /\ dataKind_ p <> KUnsupported)
        \/ (exists reason, error p = Some reason /\ sheets p = []
                           /\ dataKind_ p = KUnsupported)).
Proof.
  exact (json_load_returns_one_sheet_or_an_error (JArr [JStr "x"]) eq_refl eq_refl).
Defined.

Lemma flattenRows_first_failure (pre post : list json) (row : json)
    (errors : list string) :
  Forall Flattens pre ->
  flattenRowObject row = FlatErrors errors ->
  forall i hs fs,
    flattenRows i (pre ++ row :: post) hs fs = inl (i + length pre, errors).
Proof.
  intros F E. induction F as [|r pre [flat Fr] _ IH]; intros i hs fs.
  - cbn [app flattenRows length]. now rewrite E, Nat.add_0_r.
  - cbn [app flattenRows length]. rewrite Fr, IH. f_equal. f_equal. lia.
Qed.

(** X10: loading an array of rows, bare or under [data], stops at the
    first row that does not flatten: when the rows before it flatten and
    it does not, the payload is the unsupported payload whose error names
    the index of that row and joins all the errors of that row; the rows
    after it are not looked at. *)
Theorem load_reports_the_first_row_that_fails (pre post : list json) (row : json)
    (errors : list string) :
  Forall Flattens pre ->
  flattenRowObject row = FlatErrors errors ->
  toSheetPayloadFromContent (JArr (pre ++ row :: post))
  = Some (unsupported (rowError (length pre) errors)
                      (stringifyPretty (JArr (pre ++ row :: post))))
  /\ forall o,
       dataKindIs "csv" (JObj o) = false -> dataKindIs "xlsx" (JObj o) = false ->
       objGet "data" o = Some (JArr (pre ++ row :: post)) ->
       toSheetPayloadFromContent (JObj o)
       = Some (unsupported (rowError (length pre) errors) (stringifyPretty (JObj o))).
Proof.
  intros F E. split.
  - unfold toSheetPayloadFromContent. cbn [dataKindIs].
    change (validateAndExtract (JArr (pre ++ row :: post)))
      with (Ok (TopArray (pre ++ row :: post))).
    cbv beta zeta iota. now rewrite (flattenRows_first_failure pre post row errors F E).
  - intros o C X G.
    assert (V : validateAndExtract (JObj o)
                = Ok (WrappedArray (pre ++ row :: post) (objDelete "data" o) "data")).
    { unfold validateAndExtract. cbn [RULES optionalArrayWrapperProperty wrapperArray].
      now rewrite G. }
    unfold toSheetPayloadFromContent. rewrite C, X, V. cbv beta zeta iota.
    now rewrite (flattenRows_first_failure pre post row errors F E).
Qed.

Lemma load_reports_the_first_row_that_fails_witness :
  toSheetPayloadFromContent
    (JArr ([JObj [("a", JBool true)]] ++ JStr "x" :: [JNull]))
  = Some (unsupported (rowError 1 ["Each row must be an object."])
            (stringifyPretty (JArr ([JObj [("a", JBool true)]] ++ JStr "x" :: [JNull])))).
Proof.
  refine (proj1 (load_reports_the_first_row_that_fails
                   [JObj [("a", JBool true)]] [JNull] (JStr "x")
                   ["Each row must be an object."] _ eq_refl)).
  constructor; [|constructor]. eexists. reflexivity.
Defined.

(** * The keys of the key/value and key/object branches *)

Lemma keyValueRow_fst (result : list (string * json)) (tm : gmap string typeTag)
    (r : nat) (row : option (slots json)) :
  exists v,
    fst (keyValueRow (result, tm) r row)
    = if nonEmpty (keyText None row) then objAssign (keyText None row) v result
      else result.
Proof.
  unfold keyValueRow, keyText.
  assert (A : forall i, match row with Some row0 => at_ row0 i | None => None end
                        = at_ (rowOf row) i)
    by (intros i; destruct row; [reflexivity | now destruct i]).
  rewrite !A. destruct (nonEmpty (getCellText (at_ (rowOf row) 0))).
  - rewrite castCell_pair. eexists. reflexivity.
  - exists JNull. reflexivity.
Qed.

Lemma keyValueRows_keys (l : list (option (slots json))) (k : string) :
  k <> protoKey ->
  forall i result tm,
    objHas protoKey result = false ->
    objHas k (fst (foldIndexed keyValueRow i l (result, tm)))
    = objHas k result
      || existsb (fun row => String.eqb (keyText None row) k && nonEmpty k) l.
Proof.
  intros P. induction l as [|row l IH]; intros i result tm H; cbn [foldIndexed existsb].
  - now rewrite orb_false_r.
  - destruct (keyValueRow_fst result tm i row) as [v E].
    destruct (keyValueRow (result, tm) i row) as [result' tm'] eqn:K.
    cbn [fst] in E. subst result'.
    destruct (nonEmpty (keyText None row)) eqn:N.
    + rewrite IH by now apply objAssign_keeps_no_proto.
      rewrite objHas_objAssign by assumption.
      destruct (String.eqb (keyText None row) k) eqn:Q.
      * apply String.eqb_eq in Q. rewrite <- Q, N. cbn [andb orb].
        now rewrite !orb_true_r.
      * cbn [andb orb]. reflexivity.
    + rewrite IH by exact H.
      destruct (String.eqb (keyText None row) k) eqn:Q; [|reflexivity].
      apply String.eqb_eq in Q. rewrite <- Q, N. reflexivity.
Qed.

(** X11: in the key/value branch a row adds its key exactly when the text
    of its first cell is not empty: the keys of the object serialized
    (the prototype key apart, which an assignment does not create) are
    the non-empty texts found in the first column; a row without a key
    text contributes nothing, whatever its value cell holds. *)
Theorem keyValue_keys_are_the_first_column (m : matrix)
    (currentTypeMap : gmap string typeTag) (k : string) :
  k <> protoKey ->
  objHas k (fst (keyValueResult m currentTypeMap)) = true
  <-> k <> "" /\ exists r row, m !! r = Some row /\ keyText None row = k.
Proof.
  intros P. unfold keyValueResult. rewrite keyValueRows_keys by (exact P || reflexivity).
  cbn [objHas objGet orb].
  rewrite existsb_exists. split.
  - intros [row [Hin H]]. apply andb_true_iff in H as [Q N].
    apply String.eqb_eq in Q. apply nonEmpty_true in N. split; [exact N|].
    apply list_elem_of_In, list_elem_of_lookup in Hin as [r L]. now exists r, row.
  - intros [N [r [row [L Q]]]]. exists row. split.
    + apply list_elem_of_In. eapply list_elem_of_lookup_2. exact L.
    + rewrite Q, String.eqb_refl. now apply nonEmpty_true.
Qed.

Lemma keyValue_keys_are_the_first_column_witness :
  objHas "a" (fst (keyValueResult [Some [Some (JStr "a"); Some (JBool true)]] ∅)) = true
  <-> "a" <> ""
      /\ exists r row, [Some [Some (JStr "a"); Some (JBool true)]] !! r = Some row
                       /\ keyText None row = "a".
Proof.
  apply keyValue_keys_are_the_first_column. discriminate.
Defined.

Lemma innerFields_keys (headers : slots string) (keyColIndex : option nat)
    (key : string) (row : slots json) (fs : list string) (f : string) :
  f <> protoKey ->
  forall i inner tm,
    objHas protoKey inner = false ->
    objHas f (fst (foldIndexed (innerField headers keyColIndex key row) i fs (inner, tm)))
    = objHas f inner || existsb (String.eqb f) fs.
Proof.
  intros P. induction fs as [|x fs IH]; intros i inner tm H; cbn [foldIndexed existsb].
  - now rewrite orb_false_r.
  - unfold innerField at 2. rewrite castCell_pair.
    rewrite IH by now apply objAssign_keeps_no_proto.
    rewrite objHas_objAssign by assumption.
    rewrite (String.eqb_sym f x). now rewrite orb_assoc, (orb_comm (String.eqb x f)).
Qed.

Lemma innerFields_no_proto (headers : slots string) (keyColIndex : option nat)
    (key : string) (row : slots json) (fs : list string) :
  forall i inner tm,
    objHas protoKey inner = false ->
    objHas protoKey
           (fst (foldIndexed (innerField headers keyColIndex key row) i fs (inner, tm)))
    = false.
Proof.
  induction fs as [|x fs IH]; intros i inner tm H; cbn [foldIndexed]; [exact H|].
  unfold innerField at 2. rewrite castCell_pair. apply IH.
  now apply objAssign_keeps_no_proto.
Qed.

Lemma objectRow_fst (headers : slots string) (keyColIndex : option nat)
    (fields : list string) (out : list (string * json)) (tm : gmap string typeTag)
    (r : nat) (row : option (slots json)) :
  ~ In protoKey fields ->
  exists v,
    HoldsFields fields v
    /\ fst (objectRow headers keyColIndex fields (out, tm) r row)
       = if nonEmpty (keyText keyColIndex row)
         then objAssign (keyText keyColIndex row) v out else out.
Proof.
  intros P. unfold objectRow, keyText.
  destruct (nonEmpty (getCellText (at_ (rowOf row)
                                       (match keyColIndex with Some k => k | None => 0 end)))).
  - pose proof (fun f N => innerFields_keys headers keyColIndex
                           (getCellText (at_ (rowOf row)
                                             (match keyColIndex with
                                              | Some k => k
                                              | None => 0
                                              end)))
                           (rowOf row) fields f N 0 [] tm eq_refl) as K.
    pose proof (innerFields_no_proto headers keyColIndex
                           (getCellText (at_ (rowOf row)
                                             (match keyColIndex with
                                              | Some k => k
                                              | None => 0
                                              end)))
                           (rowOf row) fields 0 [] tm eq_refl) as Z.
    destruct (foldIndexed _ 0 fields ([], tm)) as [inner tm'].
    cbn [fst] in *. exists (JObj inner). split; [|reflexivity].
    exists inner. split; [reflexivity|]. intros f.
    destruct (String.eqb f protoKey) eqn:Q.
    + apply String.eqb_eq in Q. subst f. rewrite Z. split; [discriminate | tauto].
    + apply String.eqb_neq in Q. rewrite (K f Q). cbn [objHas objGet orb].
      apply existsb_eqb_In.
  - exists (JObj (map (fun f => (f, JNull)) fields)). split; [|reflexivity].
    eexists. split; [reflexivity|]. intros f. unfold objHas. clear P.
    induction fields as [|x fields IH]; simpl; [split; [discriminate | tauto]|].
    destruct (String.eqb x f) eqn:Q.
    + apply String.eqb_eq in Q. split; [now left | reflexivity].
    + rewrite IH. split; [now right|]. intros [->|H]; [|exact H].
      now rewrite String.eqb_refl in Q.
Qed.

Lemma objectRows_keys (headers : slots string) (keyColIndex : option nat)
    (fields : list string) (l : list (option (slots json))) (k : string) :
  k <> protoKey -> ~ In protoKey fields ->
  forall i out tm,
    objHas protoKey out = false ->
    (forall v, objGet k out = Some v -> HoldsFields fields v) ->
    let res := fst (foldIndexed (objectRow headers keyColIndex fields) i l (out, tm)) in
    objHas k res
    = objHas k out
      || existsb (fun row => String.eqb (keyText keyColIndex row) k && nonEmpty k) l
    /\ forall v, objGet k res = Some v -> HoldsFields fields v.
Proof.
  intros P PF. induction l as [|row l IH]; intros i out tm Z H; cbn [foldIndexed existsb].
  - split; [now rewrite orb_false_r | exact H].
  - destruct (objectRow_fst headers keyColIndex fields out tm i row PF) as [v [Hv E]].
    destruct (objectRow headers keyColIndex fields (out, tm) i row) as [out' tm'].
    cbn [fst] in E. subst out'.
    destruct (nonEmpty (keyText keyColIndex row)) eqn:N.
    + destruct (IH (S i) (objAssign (keyText keyColIndex row) v out) tm') as [K F].
      * now apply objAssign_keeps_no_proto.
      * intros w. rewrite objGet_objAssign by exact Z.
        destruct (String.eqb (keyText keyColIndex row) protoKey); [apply H|].
        destruct (String.eqb (keyText keyColIndex row) k); [|apply H].
        intros W. now injection W as <-.
      * split; [|exact F]. cbv zeta in K. rewrite K, objHas_objAssign by assumption.
        destruct (String.eqb (keyText keyColIndex row) k) eqn:Q.
        -- apply String.eqb_eq in Q. rewrite <- Q, N. cbn [andb orb].
           now rewrite !orb_true_r.
        -- reflexivity.
    + destruct (IH (S i) out tm' Z H) as [K F]. split; [|exact F].
      cbv zeta in K. rewrite K.
      destruct (String.eqb (keyText keyColIndex row) k) eqn:Q; [|reflexivity].
      apply String.eqb_eq in Q. rewrite <- Q, N. reflexivity.
Qed.

(** X12: in the key/object branch the keys of the object serialized are
    the non-empty texts of the key column of the data rows, and every
    inner object holds every field header as a key, empty cells
    included: unlike the array branch, this branch never leaves a field
    out.  The prototype key, which an assignment does not create, is set
    apart: it is neither the key looked at nor a field header. *)
Theorem objectOfObjects_keys_and_fields (m : matrix)
    (currentTypeMap : gmap string typeTag) (k : string) :
  let headers := allHeaderTexts m in
  let keyColIndex := findIndexFrom (isText "key") 0 headers in
  let out := fst (objectOfObjectsOut m currentTypeMap) in
  k <> protoKey ->
  ~ In protoKey (fieldHeadersOf headers keyColIndex) ->
  (objHas k out = true
   <-> k <> "" /\ exists r row, drop 1 m !! r = Some row /\ keyText keyColIndex row = k)
  /\ forall v, objGet k out = Some v ->
               HoldsFields (fieldHeadersOf headers keyColIndex) v.
Proof.
  cbv zeta. intros P PF. unfold objectOfObjectsOut. cbv zeta.
  destruct (objectRows_keys (allHeaderTexts m)
              (findIndexFrom (isText "key") 0 (allHeaderTexts m))
              (fieldHeadersOf (allHeaderTexts m)
                 (findIndexFrom (isText "key") 0 (allHeaderTexts m)))
              (drop 1 m) k P PF 1 [] currentTypeMap) as [K F];
    [reflexivity | discriminate |].
  cbv zeta in K. split; [|exact F].
  rewrite K. cbn [objHas objGet orb]. rewrite existsb_exists. split.
  - intros [row [Hin H]]. apply andb_true_iff in H as [Q N].
    apply String.eqb_eq in Q. apply nonEmpty_true in N. split; [exact N|].
    apply list_elem_of_In, list_elem_of_lookup in Hin as [r L]. now exists r, row.
  - intros [N [r [row [L Q]]]]. exists row. split.
    + apply list_elem_of_In. eapply list_elem_of_lookup_2. exact L.
    + rewrite Q, String.eqb_refl. now apply nonEmpty_true.
Qed.

Lemma objectOfObjects_keys_and_fields_witness :
  let m : matrix := [Some [Some (JStr "key"); Some (JStr "age")];
                     Some [Some (JStr "ann"); Some (JBool true)]] in
  let headers := allHeaderTexts m in
  let keyColIndex := findIndexFrom (isText "key") 0 headers in
  let out := fst (objectOfObjectsOut m ∅) in
  (objHas "ann" out = true
   <-> "ann" <> ""
       /\ exists r row, drop 1 m !! r = Some row /\ keyText keyColIndex row = "ann")
  /\ forall v, objGet "ann" out = Some v ->
               HoldsFields (fieldHeadersOf headers keyColIndex) v.
Proof.
  intros m headers keyColIndex out.
  apply (objectOfObjects_keys_and_fields m ∅ "ann"); [discriminate|].
  vm_compute. intros [H|[]]. discriminate H.
Defined.

(** * Reading the matrix of a sheet cell by cell *)

Lemma at_setAt_same {A : Type} (l : slots A) (i : nat) (x : option A) :
  at_ (setAt l i x) i = x.
Proof.
  revert l. induction i as [|i IH]; intros [|y l]; try reflexivity.
  - apply (IH []).
  - apply (IH l).
Qed.

Lemma at_setAt_other {A : Type} (l : slots A) (i j : nat) (x : option A) :
  i <> j -> at_ (setAt l i x) j = at_ l j.
Proof.
  revert l j. induction i as [|i IH]; intros [|y l] [|j] N; try reflexivity; try lia.
  - change (at_ (setAt [] i x) j = None). rewrite IH by lia. now destruct j.
  - change (at_ (setAt l i x) j = at_ l j). apply IH. lia.
Qed.

Lemma cellAt_applyValue_same (m : matrix) (r c : nat) (v : option json) :
  cellAt (applyValue m r c v) r c = v.
Proof. unfold cellAt, applyValue. rewrite at_setAt_same. apply at_setAt_same. Qed.

Lemma cellAt_applyValue_other (m : matrix) (r c r' c' : nat) (v : option json) :
  (r', c') <> (r, c) -> cellAt (applyValue m r c v) r' c' = cellAt m r' c'.
Proof.
  intros N. unfold cellAt, applyValue.
  destruct (Nat.eq_dec r r') as [<-|R].
  - rewrite at_setAt_same, at_setAt_other by congruence.
    destruct (at_ m r); [reflexivity | now destruct c'].
  - now rewrite at_setAt_other.
Qed.

Lemma find_last {A : Type} (p : A -> bool) (l : list A) (x : A) :
  find p (l ++ [x]) = match find p l with
                      | Some y => Some y
                      | None => if p x then Some x else None
                      end.
Proof.
  induction l as [|y l IH]; simpl; [reflexivity|]. now destruct (p y).
Qed.

Lemma cellAt_entries (celldata : list celldatum) (r c : nat) :
  forall m,
    cellAt (fold_left (fun m cell =>
                         applyValue m (cd_r cell) (cd_c cell) (Some (cellOrEntry cell)))
                      celldata m) r c
    = match find (entryAt r c) (rev celldata) with
      | Some cell => Some (cellOrEntry cell)
      | None => cellAt m r c
      end.
Proof.
  induction celldata as [|x l IH] using rev_ind; intros m; [reflexivity|].
  rewrite fold_left_app, rev_app_distr. cbn [fold_left rev app find].
  unfold entryAt at 1.
  destruct (cd_r x =? r) eqn:R; [destruct (cd_c x =? c) eqn:C|]; cbn [andb].
  - apply Nat.eqb_eq in R, C. subst. apply cellAt_applyValue_same.
  - apply Nat.eqb_neq in C. rewrite cellAt_applyValue_other by congruence. apply IH.
  - apply Nat.eqb_neq in R. rewrite cellAt_applyValue_other by congruence. apply IH.
Qed.

Lemma cellAt_row (r : nat) (l : slots json) :
  forall i m r' c,
    cellAt (foldIndexed (fun m c x =>
                           match x with
                           | Some cell => applyValue m r c (Some cell)
                           | None => m
                           end) i l m) r' c
    = if (r' =? r) && (i <=? c)
      then match at_ l (c - i) with Some v => Some v | None => cellAt m r' c end
      else cellAt m r' c.
Proof.
  induction l as [|x l IH]; intros i m r' c; cbn [foldIndexed].
  - destruct ((r' =? r) && (i <=? c)); [|reflexivity]. now destruct (c - i).
  - rewrite IH.
    assert (S : cellAt (match x with
                        | Some cell => applyValue m r i (Some cell)
                        | None => m
                        end) r' c
                = if (r' =? r) && (c =? i)
                  then match x with Some a => Some a | None => cellAt m r' c end
                  else cellAt m r' c).
    { destruct (r' =? r) eqn:R; [destruct (c =? i) eqn:C|]; cbn [andb].
      - apply Nat.eqb_eq in R, C. subst. destruct x; [|reflexivity].
        apply cellAt_applyValue_same.
      - apply Nat.eqb_neq in C. destruct x; [|reflexivity].
        apply cellAt_applyValue_other. congruence.
      - apply Nat.eqb_neq in R. destruct x; [|reflexivity].
        apply cellAt_applyValue_other. congruence. }
    rewrite S. clear S.
    destruct (r' =? r); cbn [andb]; [|reflexivity].
    destruct (Nat.leb_spec (S i) c) as [L|L].
    + replace (i <=? c) with true by (symmetry; apply Nat.leb_le; lia).
      replace (c =? i) with false by (symmetry; apply Nat.eqb_neq; lia).
      replace (c - i) with (S (c - S i)) by lia. reflexivity.
    + destruct (Nat.eqb_spec c i) as [->|N].
      * rewrite Nat.leb_refl, Nat.sub_diag. reflexivity.
      * replace (i <=? c) with false by (symmetry; apply Nat.leb_gt; lia). reflexivity.
Qed.

Lemma cellAt_rows (data : matrix) :
  forall i m r c,
    cellAt (foldIndexed (fun m r row =>
                           match row with
                           | Some cells =>
                               foldSlots (fun m c cell => applyValue m r c (Some cell))
                                         cells m
                           | None => m
                           end) i data m) r c
    = if i <=? r
      then match cellAt data (r - i) c with Some v => Some v | None => cellAt m r c end
      else cellAt m r c.
Proof.
  induction data as [|row data IH]; intros i m r c; cbn [foldIndexed].
  - destruct (i <=? r); [|reflexivity]. unfold cellAt. now destruct (r - i).
  - rewrite IH.
    assert (S : cellAt (match row with
                        | Some cells =>
                            foldSlots (fun m c cell => applyValue m i c (Some cell)) cells m
                        | None => m
                        end) r c
                = if r =? i
                  then match row with
                       | Some cells =>
                           match at_ cells c with Some v => Some v | None => cellAt m r c end
                       | None => cellAt m r c
                       end
                  else cellAt m r c).
    { destruct row as [cells|]; [|now destruct (r =? i)].
      unfold foldSlots. rewrite cellAt_row. cbn [Nat.leb andb].
      rewrite Nat.sub_0_r, andb_true_r. reflexivity. }
    rewrite S. clear S.
    destruct (Nat.leb_spec (S i) r) as [L|L].
    + replace (i <=? r) with true by (symmetry; apply Nat.leb_le; lia).
      replace (r =? i) with false by (symmetry; apply Nat.eqb_neq; lia).
      replace (r - i) with (S (r - S i)) by lia. reflexivity.
    + destruct (Nat.eqb_spec r i) as [->|N].
      * rewrite Nat.leb_refl, Nat.sub_diag. unfold cellAt at 2. cbn.
        destruct row as [cells|]; reflexivity.
      * replace (i <=? r) with false by (symmetry; apply Nat.leb_gt; lia). reflexivity.
Qed.

(** X13: the cell that the matrix of a sheet holds at a position is the
    cell of the last entry of celldata for that position (the entry
    itself where it has no cell), and, where celldata has no entry, the
    cell that data holds there: an entry of celldata wins over data and
    over the entries before it, and every other position is a hole. *)
Theorem celldataToMatrix_last_entry_wins (name : option json) (order : nat)
    (celldata : option (list celldatum)) (data : option matrix) (r c : nat) :
  cellAt (celldataToMatrix (Some {| sheet_name := name; sheet_order := order;
                                    sheet_celldata := celldata; sheet_data := data |})) r c
  = match find (entryAt r c) (rev (match celldata with Some l => l | None => [] end)) with
    | Some cell => Some (cellOrEntry cell)
    | None => cellAt (match data with Some d => d | None => [] end) r c
    end.
Proof.
  assert (D : cellAt (match data with
                      | Some ((_ :: _) as d) =>
                          foldSlots (fun m r row =>
                                       foldSlots (fun m c cell => applyValue m r c (Some cell))
                                                 row m) d []
                      | _ => []
                      end) r c
              = cellAt (match data with Some d => d | None => [] end) r c).
  { destruct data as [[|row d]|]; try reflexivity.
    unfold foldSlots at 1. rewrite cellAt_rows. cbn [Nat.leb]. rewrite Nat.sub_0_r.
    destruct (cellAt (row :: d) r c); [reflexivity|]. unfold cellAt. now destruct r. }
  unfold celldataToMatrix. cbn [sheet_data sheet_celldata].
  destruct celldata as [l|].
  - rewrite cellAt_entries. destruct (find (entryAt r c) (rev l)); [reflexivity | exact D].
  - exact D.
Qed.

(** * xlsx: from the workbook to the sheets and back *)

Lemma valueCells_grid (rows : list (list json)) (r0 : nat) :
  concat (mapIndexed
            (fun r values =>
               mapIndexed (fun c v => createCell r c (Some (orEmpty v))) 0 values)
            r0 rows)
  = gridCells r0 (valueGrid rows).
Proof.
  unfold gridCells, valueGrid. rewrite mapIndexed_of_map. f_equal.
  apply mapIndexed_ext. intros r row. rewrite mapIndexed_of_map.
  apply mapIndexed_ext. intros c t. apply createCell_cellOf.
Qed.

Lemma valueGrid_rows (rows : list (list json)) :
  Forall (fun row => row <> []) rows ->
  Forall (fun row => row <> []) (valueGrid rows)
  /\ Forall (Forall (fun cell => cell <> JNull)) (valueGrid rows).
Proof.
  intros N. unfold valueGrid. split.
  - apply List.Forall_forall. intros row Hin. apply in_map_iff in Hin as [x [<- Hx]].
    rewrite List.Forall_forall in N. specialize (N x Hx). now destruct x.
  - apply List.Forall_forall. intros row Hin. apply in_map_iff in Hin as [x [<- Hx]].
    apply List.Forall_forall. intros cell Hc. apply in_map_iff in Hc as [t [<- _]].
    apply cellOf_not_null.
Qed.

Lemma createSheetFromMatrix_values (grid : list (list json)) (name : string) :
  exists tm,
    createSheetFromMatrix (Some (JArr (map JArr grid))) (JStr name)
    = Some ([bookSheet 0 (name, grid)], tm).
Proof.
  unfold createSheetFromMatrix.
  destruct (matrixRows_celldata grid 0 ∅ []) as [tm E].
  rewrite E. cbn [app]. rewrite valueCells_grid. exists tm. reflexivity.
Qed.

Lemma xlsxSheetsFrom_book (book : list (string * list (list json))) :
  forall idx,
    xlsxSheetsFrom idx
      (map (fun w => JObj [("name", JStr (fst w)); ("matrix", JArr (map JArr (snd w)))])
           book)
    = Some (mapIndexed bookSheet idx book).
Proof.
  induction book as [|[name grid] book IH]; intros idx; [reflexivity|].
  cbn [map xlsxSheetsFrom fst snd].
  change (prop "name" (JObj [("name", JStr name); ("matrix", JArr (map JArr grid))]))
    with (Some (JStr name)).
  change (prop "matrix" (JObj [("name", JStr name); ("matrix", JArr (map JArr grid))]))
    with (Some (JArr (map JArr grid))).
  destruct (createSheetFromMatrix_values grid name) as [tm E].
  rewrite E, IH. reflexivity.
Qed.

Lemma xlsxSheetsOf_book (book : list (string * list (list json))) :
  Forall (fun w => fst w <> "" /\ Forall (fun row => row <> []) (snd w)) book ->
  forall idx,
    mapIndexed (fun idx s => (xlsxSheetName idx s, celldataToMatrix (Some s))) idx
               (mapIndexed bookSheet idx book)
    = map (fun w => (fst w, dense (valueGrid (snd w)))) book.
Proof.
  induction 1 as [|[name grid] book [N R] _ IH]; intros idx; [reflexivity|].
  cbn [mapIndexed map fst snd] in *. rewrite IH. f_equal. f_equal.
  - unfold xlsxSheetName, bookSheet. cbn [sheet_name fst truthy toStr].
    apply String.eqb_neq in N. now rewrite N.
  - destruct (valueGrid_rows grid R) as [F1 F2].
    exact (celldataToMatrix_dense (valueGrid grid) F1 F2).
Qed.

Lemma normalizeRows_values (rows : list (list json)) :
  normalizeRows (map JArr (valueGrid rows))
  = Some (map (fun row => JArr (map shown row)) rows).
Proof.
  induction rows as [|row rows IH]; [reflexivity|].
  change (valueGrid (row :: rows))
    with (map (fun v => cellOf (Some (orEmpty v))) row :: valueGrid rows).
  cbn [map normalizeRows itemsOrNone]. rewrite IH. do 3 f_equal.
  rewrite map_map. apply map_ext. intros v.
  now destruct v.
Qed.

(** X14: a workbook whose sheets have a name and no empty row loads into
    one sheet per entry, numbered in order, with an empty type map and no
    error; serializing the unedited sheets gives them back under their
    names, each a matrix without holes of one cell per value, and leaves
    the type map as it is; and what normalizeMatrixForXlsx writes for
    such a matrix are the values read, with the empty string for null and
    the JSON text for an array or an object. *)
Theorem xlsx_workbook_loads_and_goes_back_sheet_by_sheet
    (book : list (string * list (list json))) :
  Forall (fun w => fst w <> "" /\ Forall (fun row => row <> []) (snd w)) book ->
  exists p,
    toSheetPayloadFromContent (workbook book) = Some p
    /\ error p = None /\ dataKind_ p = KXlsx /\ typeMap p = ∅
    /\ map sheet_order (sheets p) = seq 0 (length book)
    /\ xlsxSheets (serializeLoaded p)
       = Some (map (fun w => (fst w, dense (valueGrid (snd w)))) book)
    /\ nextTypeMap (serializeLoaded p) = ∅
    /\ forall w, In w book ->
                 normalizeMatrixForXlsx (JArr (map JArr (valueGrid (snd w))))
                 = Some (JArr (map (fun row => JArr (map shown row)) (snd w))).
Proof.
  intros F. unfold toSheetPayloadFromContent, workbook.
  cbn [dataKindIs objGet String.eqb Ascii.eqb Bool.eqb prop].
  rewrite xlsxSheetsFrom_book.
  eexists. split; [reflexivity|]. split; [reflexivity|]. split; [reflexivity|].
  split; [reflexivity|]. cbn [sheets]. split; [|split; [|split]].
  - generalize 0. clear F. induction book as [|w book IH]; intros i; [reflexivity|].
    cbn [mapIndexed map length seq]. now rewrite IH.
  - unfold serializeLoaded, sheetToText. cbn [sheets dataKind_ xlsxSheets].
    f_equal. exact (xlsxSheetsOf_book book F 0).
  - reflexivity.
  - intros w _. unfold normalizeMatrixForXlsx. cbn [itemsOrNone].
    now rewrite normalizeRows_values.
Qed.

Lemma xlsx_workbook_loads_and_goes_back_sheet_by_sheet_witness :
  exists p,
    toSheetPayloadFromContent (workbook [("Prices", [[JStr "tea"; JNull]; [JBool true]])])
    = Some p
    /\ error p = None /\ dataKind_ p = KXlsx /\ typeMap p = ∅
    /\ map sheet_order (sheets p) = [0]
    /\ xlsxSheets (serializeLoaded p)
       = Some [("Prices", dense (valueGrid [[JStr "tea"; JNull]; [JBool true]]))]
    /\ nextTypeMap (serializeLoaded p) = ∅
    /\ forall w, In w [("Prices", [[JStr "tea"; JNull]; [JBool true]])] ->
                 normalizeMatrixForXlsx (JArr (map JArr (valueGrid (snd w))))
                 = Some (JArr (map (fun row => JArr (map shown row)) (snd w))).
Proof.
  apply (xlsx_workbook_loads_and_goes_back_sheet_by_sheet
           [("Prices", [[JStr "tea"; JNull]; [JBool true]])]).
  constructor; [|constructor]. split; [discriminate|].
  constructor; [discriminate|]. constructor; [discriminate | constructor].
Defined.

(** * The first key that does not flatten *)

Lemma prepareRows_first_failure (o : list (string * json)) (pre : list (string * json))
    (k : string) (inner : json) (rest : list string) (errors : list string) :
  Forall (fun e => objGet (fst e) o = Some (snd e) /\ InnerFlattens e) pre ->
  objGet k o = Some inner ->
  flattenInnerObject inner k = FlatErrors errors ->
  forall fields rows,
    prepareRows o (map fst pre ++ k :: rest) fields rows = inr (join " " errors).
Proof.
  intros F G E. induction F as [|[k1 v1] pre [G1 [flat F1]] _ IH]; intros fields rows.
  - cbn [map app prepareRows]. now rewrite G, E.
  - cbn [map app prepareRows fst snd] in *. rewrite G1, F1. apply IH.
Qed.

Lemma objGet_value (k : string) (v : json) (o : list (string * json)) :
  objGet k o = Some v -> In v (objValues o).
Proof.
  induction o as [|[k1 v1] o IH]; simpl; [discriminate|].
  destruct (String.eqb k1 k); [|auto]. intros H. injection H as ->. now left.
Qed.

Lemma objectOfObjects_not_tagged (o : list (string * json)) (tag : string) :
  validateAndExtract (JObj o) = Ok (ObjectOfObjects o) -> dataKindIs tag (JObj o) = false.
Proof.
  unfold validateAndExtract.
  destruct (wrapperArray _ (JObj o)) as [[o' data]|]; [discriminate|].
  destruct (forallb _ (objValues o)); [discriminate|].
  destruct (forallb isPlainObject (objValues o)) eqn:A; [|discriminate].
  intros _. unfold dataKindIs.
  destruct (objGet "dataKind" o) as [v|] eqn:G; [|reflexivity].
  apply objGet_value in G. rewrite forallb_forall in A. specialize (A v G).
  now destruct v.
Qed.

(** X15: loading an object of objects stops at the first key whose inner
    object does not flatten: when the inner objects before it flatten and
    it does not, the payload is the unsupported payload whose error joins
    the errors of that inner object, and the keys after it are not looked
    at. *)
Theorem load_reports_the_first_key_that_fails (pre post : list (string * json))
    (k : string) (inner : json) (errors : list string) :
  NoDup (objKeys (pre ++ (k, inner) :: post)) ->
  validateAndExtract (JObj (pre ++ (k, inner) :: post))
  = Ok (ObjectOfObjects (pre ++ (k, inner) :: post)) ->
  Forall InnerFlattens pre ->
  flattenInnerObject inner k = FlatErrors errors ->
  toSheetPayloadFromContent (JObj (pre ++ (k, inner) :: post))
  = Some (unsupported (join " " errors)
                      (stringifyPretty (JObj (pre ++ (k, inner) :: post)))).
Proof.
  intros D V F E. unfold toSheetPayloadFromContent.
  rewrite !(objectOfObjects_not_tagged _ _ V), V. cbv beta zeta iota.
  unfold prepareObjectOfObjects, objKeys. rewrite map_app. cbn [map fst].
  rewrite (prepareRows_first_failure _ pre k inner (map fst post) errors); [reflexivity | |
    | exact E].
  - apply List.Forall_forall. intros e Hin. split.
    + destruct e as [k1 v1]. apply objGet_unique; [exact D|].
      apply in_or_app. now left.
    + rewrite List.Forall_forall in F. now apply F.
  - apply objGet_unique; [exact D|]. apply in_or_app. right. now left.
Qed.

Lemma load_reports_the_first_key_that_fails_witness :
  toSheetPayloadFromContent
    (JObj ([("a", JObj [("x", JBool true)])]
           ++ ("b", JObj [("y", JObj [])]) :: [("c", JObj [])]))
  = Some (unsupported
            (join " " ["Nested object too deep at " +:+ dquote +:+ "b.y" +:+ dquote
                       +:+ ". Inner objects must be flat."])
            (stringifyPretty
               (JObj ([("a", JObj [("x", JBool true)])]
                      ++ ("b", JObj [("y", JObj [])]) :: [("c", JObj [])])))).
Proof.
  refine (load_reports_the_first_key_that_fails
            [("a", JObj [("x", JBool true)])] [("c", JObj [])] "b" (JObj [("y", JObj [])])
            _ _ eq_refl _ eq_refl).
  - apply (bool_decide_unpack _). vm_compute. reflexivity.
  - constructor; [|constructor]. eexists. reflexivity.
Defined.

(** * The kind of a file *)

Lemma endsWith_spec (suffix s : string) :
  endsWith suffix s = true <-> exists pre, s = pre +:+ suffix.
Proof.
  split.
  - induction s as [|c r IH]; cbn [endsWith].
    + rewrite orb_false_r. intros E. apply String.eqb_eq in E. now exists "".
    + intros H. apply orb_true_iff in H as [E|E].
      * apply String.eqb_eq in E. now exists "".
      * destruct (IH E) as [pre ->]. now exists (String c pre).
  - intros [pre ->]. induction pre as [|c pre IH].
    + cbn [String.append]. destruct suffix; cbn [endsWith]; now rewrite String.eqb_refl.
    + cbn [String.append endsWith]. rewrite IH. apply orb_true_r.
Qed.

Lemma toLowerAscii_app (a b : string) :
  toLowerAscii (a +:+ b) = toLowerAscii a +:+ toLowerAscii b.
Proof. induction a as [|c a IH]; cbn [String.append toLowerAscii]; [reflexivity | now rewrite IH]. Qed.

Lemma toLowerAscii_split (p q : string) :
  forall s, toLowerAscii s = p +:+ q ->
            exists a b, s = a +:+ b /\ toLowerAscii a = p /\ toLowerAscii b = q.
Proof.
  induction p as [|c p IH]; intros s E.
  - now exists "", s.
  - destruct s as [|d s]; [discriminate|].
    cbn [String.append toLowerAscii] in E. injection E as E1 E2.
    destruct (IH s E2) as [a [b [-> [Ea Eb]]]].
    exists (String d a), b. cbn [String.append toLowerAscii]. now rewrite E1, Ea.
Qed.

Lemma lowerAscii_again (c : ascii) : lowerAscii (lowerAscii c) = lowerAscii c.
Proof. destruct c as [[] [] [] [] [] [] [] []]; reflexivity. Qed.

Lemma toLowerAscii_again (s : string) : toLowerAscii (toLowerAscii s) = toLowerAscii s.
Proof.
  induction s as [|c s IH]; [reflexivity|].
  cbn [toLowerAscii]. now rewrite lowerAscii_again, IH.
Qed.

Lemma csv_is_not_xlsx (s : string) : endsWith ".csv" s = true -> endsWith ".xlsx" s = false.
Proof.
  induction s as [|c r IH]; [discriminate|]. cbn [endsWith]. intros H.
  apply orb_true_iff in H as [E|E].
  - apply String.eqb_eq in E. injection E as -> ->. reflexivity.
  - rewrite (IH E), orb_false_r. apply String.eqb_neq. intros X.
    injection X as _ ->. discriminate.
Qed.

Lemma endsWith_lower (suffix fsPath : string) :
  toLowerAscii suffix = suffix ->
  endsWith suffix (toLowerAscii fsPath) = true
  <-> exists base ext, fsPath = base +:+ ext /\ toLowerAscii ext = suffix.
Proof.
  intros L. rewrite endsWith_spec. split.
  - intros [pre E]. destruct (toLowerAscii_split pre suffix fsPath E) as [a [b [-> [_ Eb]]]].
    now exists a, b.
  - intros [base [ext [-> E]]]. exists (toLowerAscii base).
    now rewrite toLowerAscii_app, E.
Qed.

(** X16: the kind of a file is read off the end of its path, whatever the
    case of the letters: the kind is csv exactly when the path ends in
    the four characters of the csv extension in any case, xlsx exactly
    when it ends in the five characters of the xlsx extension in any
    case, and json for every other path; the path in lower case has the
    kind of the path. *)
Theorem detectKind_reads_the_extension_in_any_case (fsPath : string) :
  (detectKind fsPath = FCsv
   <-> exists base ext, fsPath = base +:+ ext /\ toLowerAscii ext = ".csv")
  /\ (detectKind fsPath = FXlsx
      <-> exists base ext, fsPath = base +:+ ext /\ toLowerAscii ext = ".xlsx")
  /\ detectKind (toLowerAscii fsPath) = detectKind fsPath.
Proof.
  split; [|split].
  - rewrite <- (endsWith_lower ".csv" fsPath eq_refl). unfold detectKind.
    destruct (endsWith ".csv" (toLowerAscii fsPath)); [tauto|].
    destruct (endsWith ".xlsx" (toLowerAscii fsPath)); split; discriminate.
  - rewrite <- (endsWith_lower ".xlsx" fsPath eq_refl). unfold detectKind.
    destruct (endsWith ".csv" (toLowerAscii fsPath)) eqn:C.
    + rewrite (csv_is_not_xlsx _ C). split; discriminate.
    + destruct (endsWith ".xlsx" (toLowerAscii fsPath)); [tauto|]. split; discriminate.
  - unfold detectKind. now rewrite toLowerAscii_again.
Qed.

(** * The rows the array branch writes *)

Lemma foldIndexed_inv {A St : Type} (P : St -> Prop) (f : St -> nat -> A -> St) :
  (forall s i x, P s -> P (f s i x)) ->
  forall l i s, P s -> P (foldIndexed f i l s).
Proof.
  intros H l. induction l as [|x l IH]; intros i s Hs; [exact Hs|].
  cbn [foldIndexed]. apply IH, H, Hs.
Qed.

Lemma objSet_not_empty (k : string) (v : json) (o : list (string * json)) :
  objSet k v o <> [].
Proof.
  intros E. pose proof (objHas_objSet k k v o) as H.
  rewrite E, String.eqb_refl in H. discriminate.
Qed.

Lemma arrayFields_filled (r : nat) (row : slots json) (headers : list string) :
  ~ In protoKey headers ->
  forall c rowObj hasValue tm,
    (hasValue = true -> rowObj <> []) ->
    let '(rowObj', hasValue', _) :=
      foldIndexed (arrayField r row) c headers (rowObj, hasValue, tm) in
    hasValue' = true -> rowObj' <> [].
Proof.
  induction headers as [|header headers IH]; intros P c rowObj hasValue tm H;
    cbn [foldIndexed]; [exact H|].
  unfold arrayField at 2. rewrite castCell_pair.
  assert (N : header <> protoKey) by (intros ->; apply P; now left).
  assert (P' : ~ In protoKey headers) by (intros I; apply P; now right).
  destruct (nonEmpty (getCellText (at_ row c))).
  - apply (IH P'). intros _. rewrite objAssign_other by exact N. apply objSet_not_empty.
  - now apply (IH P').
Qed.

(** X17: whether the array branch reads its rows as scalars or as objects
    is decided by the type recorded for the first element, and a pass
    never changes that decision: the map it returns decides as the map it
    was given.  When rows are read as objects, each row written is an
    object with at least one key: a row whose cells are all empty is
    never written as an empty object.  The prototype key, which an
    assignment does not create, is taken not to be a header. *)
Theorem array_branch_keeps_its_row_mode (sheets : list sheet)
    (currentTypeMap : gmap string typeTag) (wrapper : option wrapper) :
  let s := sheetToText sheets currentTypeMap KArray wrapper in
  ~ In protoKey (headerTexts (celldataToMatrix (head sheets))) ->
  scalarRows (nextTypeMap s) = scalarRows currentTypeMap
  /\ exists rows,
       textOut s = stringifyPretty (JArr rows)
       /\ (scalarRows currentTypeMap = false ->
           Forall (fun row => exists o, row = JObj o /\ o <> []) rows).
Proof.
  cbv zeta. intros P. unfold sheetToText.
  pose proof (scalarRows_kept (celldataToMatrix (head sheets)) currentTypeMap) as K.
  assert (R : scalarRows currentTypeMap = false ->
              Forall (fun row => exists o, row = JObj o /\ o <> [])
                     (fst (arrayRows (celldataToMatrix (head sheets)) currentTypeMap))).
  { intros S. unfold arrayRows. rewrite S.
    apply (foldIndexed_inv
             (fun acc : list json * gmap string typeTag =>
                Forall (fun row => exists o, row = JObj o /\ o <> []) (fst acc)));
      [|constructor].
    intros [rows tm] r row H. unfold arrayRow.
    pose proof (arrayFields_filled r (rowOf row)
                  (headerTexts (celldataToMatrix (head sheets))) P 0 [] false tm) as F.
    destruct (foldIndexed _ 0 _ ([], false, tm)) as [[rowObj hasValue] tm'].
    destruct hasValue; [|exact H]. cbn [fst] in *.
    apply Forall_app. split; [exact H|]. constructor; [|constructor].
    exists rowObj. split; [reflexivity | now apply F]. }
  destruct (arrayRows (celldataToMatrix (head sheets)) currentTypeMap) as [rows tm].
  cbn [nextTypeMap textOut fst snd] in *.
  split; [exact K|]. exists rows. split; [reflexivity | exact R].
Qed.

Lemma array_branch_keeps_its_row_mode_witness :
  let sheets := createSheetFromFlatRows ["a"; "b"]
                  [[("a", JStr "x")]; []; [("b", JBool true)]] in
  let s := sheetToText sheets ∅ KArray None in
  ~ In protoKey (headerTexts (celldataToMatrix (head sheets)))
  /\ textOut s = stringifyPretty (JArr [JObj [("a", JStr "x")]; JObj [("b", JBool true)]])
  /\ scalarRows (nextTypeMap s) = scalarRows ∅
  /\ exists rows,
       textOut s = stringifyPretty (JArr rows)
       /\ (scalarRows ∅ = false ->
           Forall (fun row => exists o, row = JObj o /\ o <> []) rows).
Proof.
  intros sheets s.
  assert (P : ~ In protoKey (headerTexts (celldataToMatrix (head sheets)))).
  { intros H. vm_compute in H. intuition discriminate. }
  split; [exact P|]. split; [vm_compute; reflexivity|].
  exact (array_branch_keeps_its_row_mode sheets ∅ None P).
Defined.

(** * The metadata of a wrapped document *)



